(** * moltbot-china: the QQ Bot media path, the outbound policy, the token
      cache and the shared CLI registration, embedded and verified.

    The development follows the TypeScript sources:
    - the QQ Bot module that sends files (it defines [sendFileQQBot]),
    - [packages/shared/src/cli/china-setup.ts] ([registerChinaSetupCli]),
    - [bot.ts] of the QQ Bot extension, of which only the tests are at hand,
      and the token cache behind [getAccessToken] of its [client.ts], of which
      only the caller is at hand; these two are modelled from the
      specification. *)

From Stdlib Require Import ZArith QArith Qround String Ascii List Lia.
From stdpp Require Import gmap strings list pretty.

Set Warnings "-register-all".
Local Open Scope Z_scope.

(** ** JavaScript strings

    A JavaScript string is a sequence of UTF-16 code units; [length], [slice]
    and [trim] count and cut code units.  Source literals are written here as
    UTF-8 text and decoded by [js] the way the engine decodes its source. *)
Module JsString.

Definition jsstring := list N.

Definition bytes_of_string (s : string) : list N :=
  map N_of_ascii (list_ascii_of_string s).

Fixpoint utf16_of_utf8 (bs : list N) : list N :=
  match bs with
  | [] => []
  | b0 :: r0 =>
    if (b0 <? 128)%N then b0 :: utf16_of_utf8 r0
    else match r0 with
      | [] => [65533%N]
      | b1 :: r1 =>
        if (b0 <? 224)%N
        then ((b0 mod 32) * 64 + b1 mod 64)%N :: utf16_of_utf8 r1
        else match r1 with
          | [] => [65533%N]
          | b2 :: r2 =>
            if (b0 <? 240)%N
            then ((b0 mod 16) * 4096 + (b1 mod 64) * 64 + b2 mod 64)%N
                   :: utf16_of_utf8 r2
            else match r2 with
              | [] => [65533%N]
              | b3 :: r3 =>
                let cp := ((b0 mod 8) * 262144 + (b1 mod 64) * 4096
                           + (b2 mod 64) * 64 + b3 mod 64)%N in
                let v := (cp - 65536)%N in
                (55296 + v / 1024)%N :: (56320 + v mod 1024)%N
                  :: utf16_of_utf8 r3
              end
          end
      end
  end.

Definition js (s : string) : jsstring := utf16_of_utf8 (bytes_of_string s).

(** The code units [String.prototype.trim] removes: WhiteSpace and
    LineTerminator of ECMA-262. *)
Definition isTrimSpace (c : N) : bool :=
  ((9 <=? c) && (c <=? 13) || (c =? 32) || (c =? 160) || (c =? 5760)
   || (8192 <=? c) && (c <=? 8202) || (c =? 8232) || (c =? 8233)
   || (c =? 8239) || (c =? 8287) || (c =? 12288) || (c =? 65279))%N.

Fixpoint trimStart (s : jsstring) : jsstring :=
  match s with
  | c :: r => if isTrimSpace c then trimStart r else s
  | [] => []
  end.

Definition trimEnd (s : jsstring) : jsstring := rev (trimStart (rev s)).

Definition trim (s : jsstring) : jsstring := trimEnd (trimStart s).

(** [s.slice(0, n)] for [0 <= n]. *)
Definition slice0 (n : nat) (s : jsstring) : jsstring := take n s.

(** A value in a boolean position: [undefined] and the empty string are
    falsy, every other string is truthy. *)
Definition truthy (s : option jsstring) : bool :=
  match s with
  | Some (_ :: _) => true
  | _ => false
  end.

(** [String(n)] for an integral number of magnitude below 1e21. *)
Definition ofZ (n : Z) : jsstring := js (pretty n).

Fixpoint padZeros (k : nat) (s : jsstring) : jsstring :=
  match k with
  | O => s
  | S k' => if decide (length s < 3)%nat then padZeros k' (48%N :: s) else s
  end.

(** [(bytes / (1024 * 1024)).toFixed(2)] for a byte count below 2^53.  The
    quotient is then an exact double, and [toFixed] picks the integer [n]
    with [n / 100] nearest to it, the larger one on a tie. *)
Definition toFixed2MB (bytes : N) : jsstring :=
  let n := ((200 * bytes + 1048576) / 2097152)%N in
  let digits := padZeros 2 (js (pretty n)) in
  let k := (length digits - 2)%nat in
  take k digits ++ [46%N] ++ drop k digits.

#[global] Arguments js : simpl never.
#[global] Arguments toFixed2MB : simpl never.
#[global] Arguments ofZ : simpl never.
#[global] Arguments trim : simpl never.

End JsString.
Export JsString.

(** ** The effect layer shared by the embedded functions

    A call either returns or throws; what it did to the world stays done when
    it throws.  The world records the paths on disk and, in order, every call
    that left the process. *)
Module Effects.

Definition Buffer := list N.
Definition path := jsstring.

(** The enum [MediaFileType] of [client.ts] (file_type 1 to 4). *)
Inductive MediaFileType := IMAGE | VIDEO | VOICE | FILE.

(** What [detectMediaType] of the shared package answers. *)
Inductive MediaType := MT_image | MT_video | MT_audio | MT_file.

(** Thrown values.  [HttpError], [FileSizeLimitError] and [MediaTimeoutError]
    are the error classes of the shared package, with the fields the code
    reads; [NonError] is a thrown value that is no [Error], carried as the
    text [String] gives for it. *)
Inductive JsError :=
| Error_ (message : jsstring)
| HttpError (message : jsstring) (body : option jsstring)
| FileSizeLimitError (message : jsstring) (limitSize : N)
| MediaTimeoutError (message : jsstring) (timeoutMs : Z)
| NonError (rendered : jsstring).

Inductive Result (A : Type) :=
| Ok (a : A)
| Throw (e : JsError).
Arguments Ok {A} a.
Arguments Throw {A} e.

Inductive TargetKind := c2c | group.

Record QQBotFileTarget := {
  target_kind : TargetKind;
  target_id : jsstring;
}.

Record UploadArgs := {
  up_accessToken : jsstring;
  up_openid : jsstring;
  up_fileType : MediaFileType;
  up_url : option jsstring;
  up_fileData : option jsstring;
}.

Record UploadResponse := { file_info : option jsstring }.

Record SendArgs := {
  sd_accessToken : jsstring;
  sd_openid : jsstring;
  sd_fileInfo : jsstring;
  sd_messageId : option jsstring;
}.

Record Receipt := {
  receipt_id : jsstring;
  receipt_timestamp : Z + jsstring;
}.

Record MediaRead := {
  buffer : Buffer;
  fileName : jsstring;
}.

Record ExecOutcome := {
  exec_result : Result unit;
  exec_wrote : bool;
}.

Inductive RmOutcome :=
| RmDone
| RmThrew (e : JsError) (gone : gset path).

(** What [JSON.parse] builds.  A number is carried as the text [String]
    prints for it. *)
Inductive JsValue :=
| JNull
| JBool (b : bool)
| JNumber (text : jsstring)
| JString (s : jsstring)
| JArray (items : list JsValue)
| JObject (members : list (jsstring * JsValue)).

Inductive Event :=
| CallGetAccessToken (appId clientSecret : jsstring)
| CallUploadGroupMedia (a : UploadArgs)
| CallUploadC2CMedia (a : UploadArgs)
| CallSendGroupMediaMessage (a : SendArgs)
| CallSendC2CMediaMessage (a : SendArgs)
| CallReadMedia (source : jsstring) (timeout maxSize : Z)
| CallMkdtemp (prefix : path)
| CallExecFile (file : path) (args : list jsstring)
| CallReadFile (p : path)
| CallSilkEncode (pcm : Buffer) (sampleRate : Z)
| CallRmSync (p : path).

Record World := {
  fs : gset path;
  trace : list Event;
}.

(** Everything the sending module imports: the platform client, the shared media
    helpers, the Node modules and [JSON.parse].  Each is an oracle: the
    embedded code is verified for every behaviour of its environment. *)
Record Host := {
  detectMediaType : jsstring -> MediaType;
  stripTitleFromUrl : jsstring -> jsstring;
  isHttpUrl : jsstring -> bool;
  getAccessToken : jsstring -> jsstring -> Result jsstring;
  uploadGroupMedia : UploadArgs -> Result UploadResponse;
  uploadC2CMedia : UploadArgs -> Result UploadResponse;
  sendGroupMediaMessage : SendArgs -> Result Receipt;
  sendC2CMediaMessage : SendArgs -> Result Receipt;
  readMedia : jsstring -> Z -> Z -> Result MediaRead;
  require_ffmpeg_static : Result (option jsstring);
  require_silk_wasm : Result unit;
  silk_encode : Buffer -> Z -> Result Buffer;
  os_tmpdir : path;
  mkdtempSync : gset path -> path -> Result path;
  execFileSync : path -> list jsstring -> ExecOutcome;
  readFileSync : gset path -> path -> Result Buffer;
  rmSync : gset path -> path -> RmOutcome;
  toBase64 : Buffer -> jsstring;
  JSON_parse : jsstring -> option JsValue;
}.

Definition Async (A : Type) : Type := World -> Result A * World.

#[export] Instance Async_ret : MRet Async := fun A a w => (Ok a, w).

#[export] Instance Async_bind : MBind Async := fun A B f m w =>
  match m w with
  | (Ok a, w') => f a w'
  | (Throw e, w') => (Throw e, w')
  end.

Definition throw {A} (e : JsError) : Async A := fun w => (Throw e, w).

(** [try { body } catch (err) { handler }] *)
Definition try_catch {A} (body : Async A) (handler : JsError -> Async A)
  : Async A := fun w =>
  match body w with
  | (Ok a, w') => (Ok a, w')
  | (Throw e, w') => handler e w'
  end.

(** [try { body } finally { cleanup }]: the cleanup runs on both exits, and an
    error of its own replaces the outcome of the body. *)
Definition try_finally {A} (body : Async A) (cleanup : Async unit)
  : Async A := fun w =>
  match body w with
  | (r, w') =>
    match cleanup w' with
    | (Ok _, w'') => (r, w'')
    | (Throw e, w'') => (Throw e, w'')
    end
  end.

Definition emit (ev : Event) (w : World) : World :=
  {| fs := fs w; trace := trace w ++ [ev] |}.

(** A call that leaves the process: logged, then answered by the host. *)
Definition call {A} (ev : Event) (answer : Result A) : Async A :=
  fun w => (answer, emit ev w).

(** [path.join(a, b)] for two normalised POSIX segments. *)
Definition path_join (a b : path) : path := a ++ [47%N] ++ b.

Definition strictlyUnder (d p : path) : Prop := (d ++ [47%N]) `prefix_of` p.
Definition under (d p : path) : Prop := p = d \/ strictlyUnder d p.

#[export] Instance strictlyUnder_dec d p : Decision (strictlyUnder d p).
Proof. unfold strictlyUnder. apply _. Defined.

#[export] Instance under_dec d p : Decision (under d p).
Proof. unfold under. apply _. Defined.

Definition isUpload (ev : Event) : bool :=
  match ev with
  | CallUploadGroupMedia _ | CallUploadC2CMedia _ => true
  | _ => false
  end.

End Effects.
Export Effects.

(** ** The QQ Bot module that sends files *)
Module QQBotSend.

Record QQBotConfig := {
  appId : option jsstring;
  clientSecret : option jsstring;
  maxFileSizeMB : option Q;
  mediaTimeoutMs : option Z;
}.

Record SendFileQQBotParams := {
  cfg : QQBotConfig;
  target : QQBotFileTarget;
  mediaUrl : jsstring;
  messageId : option jsstring;
}.

Definition QQBOT_UNSUPPORTED_FILE_TYPE_MESSAGE : jsstring :=
  js "QQ official C2C/group media API does not support generic files (file_type=4, e.g. PDF). Images and other supported media types are unaffected.".

Definition resolveQQBotMediaFileType (h : Host) (fileName : jsstring)
  : MediaFileType :=
  match detectMediaType h fileName with
  | MT_image => IMAGE
  | MT_video => VIDEO
  | MT_audio => VOICE
  | _ => FILE
  end.

Definition uploadQQBotFile (h : Host) (accessToken : jsstring)
    (target : QQBotFileTarget) (fileType : MediaFileType)
    (url fileData : option jsstring) : Async jsstring :=
  if negb (truthy url) && negb (truthy fileData)
  then throw (Error_ (js "QQBot file upload requires url or fileData"))
  else
    let args := {| up_accessToken := accessToken;
                   up_openid := target_id target;
                   up_fileType := fileType;
                   up_url := if truthy url then url else None;
                   up_fileData := if truthy url then None else fileData |} in
    upload ← match target_kind target with
             | group => call (CallUploadGroupMedia args) (uploadGroupMedia h args)
             | c2c => call (CallUploadC2CMedia args) (uploadC2CMedia h args)
             end;
    if negb (truthy (file_info upload))
    then throw (Error_ (js "QQBot file upload failed: no file_info returned"))
    else mret (default [] (file_info upload)).

Definition mkdtemp (h : Host) (prefix : path) : Async path := fun w =>
  match mkdtempSync h (fs w) prefix with
  | Ok d => (Ok d, {| fs := fs w ∪ {[d]}; trace := trace w ++ [CallMkdtemp prefix] |})
  | Throw e => (Throw e, emit (CallMkdtemp prefix) w)
  end.

(** [execFileSync(ffmpeg, [..., out])]: the tool may leave its output file
    behind whether it exits cleanly or not. *)
Definition execFile (h : Host) (file : path) (args : list jsstring) (out : path)
  : Async unit := fun w =>
  let o := execFileSync h file args in
  (exec_result o,
   {| fs := if exec_wrote o then fs w ∪ {[out]} else fs w;
      trace := trace w ++ [CallExecFile file args] |}).

(** [fs.rmSync(d, { recursive: true, force: true })]: on return the directory
    and all below it are gone; when it throws, the directory is still there
    and some of its content may be gone. *)
Definition rm (h : Host) (d : path) : Async unit := fun w =>
  match rmSync h (fs w) d with
  | RmDone =>
    (Ok tt, {| fs := filter (fun p => ¬ under d p) (fs w);
               trace := trace w ++ [CallRmSync d] |})
  | RmThrew e gone =>
    (Throw e, {| fs := fs w ∖ filter (strictlyUnder d) gone;
                 trace := trace w ++ [CallRmSync d] |})
  end.

Definition ffmpegArgs (audioPath pcmPath : path) : list jsstring :=
  [js "-y"; js "-i"; audioPath; js "-f"; js "s16le"; js "-ar"; js "24000";
   js "-ac"; js "1"; pcmPath].

Definition convertAudioToSilk (h : Host) (audioPath : path) : Async Buffer :=
  ffmpegPath ← (fun w => (require_ffmpeg_static h, w));
  if negb (truthy ffmpegPath)
  then throw (Error_ (js "ffmpeg-static not found"))
  else
    _ ← (fun w => (require_silk_wasm h, w));
    tmpDir ← mkdtemp h (path_join (os_tmpdir h) (js "qqbot-silk-"));
    let pcmPath := path_join tmpDir (js "audio.pcm") in
    try_finally
      (_ ← execFile h (default [] ffmpegPath) (ffmpegArgs audioPath pcmPath) pcmPath;
       pcmBuffer ← (fun w => call (CallReadFile pcmPath)
                                  (readFileSync h (fs w) pcmPath) w);
       call (CallSilkEncode pcmBuffer 24000) (silk_encode h pcmBuffer 24000))
      (try_catch (rm h tmpDir) (fun _ => mret tt)).

(** [err instanceof Error ? err.message : String(err)] *)
Definition errorMessage (err : JsError) : jsstring :=
  match err with
  | Error_ m | HttpError m _ | FileSizeLimitError m _ | MediaTimeoutError m _ => m
  | NonError r => r
  end.

(** [parsed[key]] on a value that is not [null]: the last member of that name
    of an object, [undefined] on anything else. *)
Fixpoint member (key : jsstring) (ms : list (jsstring * JsValue))
  : option JsValue :=
  match ms with
  | [] => None
  | (k, v) :: rest =>
    match member key rest with
    | Some v' => Some v'
    | None => if decide (k = key) then Some v else None
    end
  end.

Definition property (v : JsValue) (key : jsstring) : option JsValue :=
  match v with
  | JObject ms => member key ms
  | _ => None
  end.

Definition joinComma (parts : list jsstring) : jsstring :=
  match parts with
  | [] => []
  | p :: ps => p ++ concat (map (fun q => 44%N :: q) ps)
  end.

(** [String(v)] *)
Fixpoint String_ (v : JsValue) : jsstring :=
  match v with
  | JNull => js "null"
  | JBool true => js "true"
  | JBool false => js "false"
  | JNumber t => t
  | JString s => s
  | JArray items =>
    joinComma (map (fun x => match x with JNull => [] | _ => String_ x end) items)
  | JObject _ => js "[object Object]"
  end.

Definition stringField (v : option JsValue) : option jsstring :=
  match v with
  | Some (JString s) => Some s
  | _ => None
  end.

(** The [try] block of [normalizeHttpErrorBody]: [Some] when it returns the
    summary, [None] when it falls through or throws into the empty [catch]. *)
Definition jsonSummary (h : Host) (trimmed : jsstring) : option jsstring :=
  match JSON_parse h trimmed with
  | None => None
  | Some JNull => None
  | Some parsed =>
    let code := property parsed (js "code") in
    let message :=
      match stringField (property parsed (js "message")) with
      | Some m => Some m
      | None => stringField (property parsed (js "msg"))
      end in
    if bool_decide (code <> None) || truthy message
    then Some (js "code="
               ++ match code with
                  | None | Some JNull => js "unknown"
                  | Some c => String_ c
                  end
               ++ js ", message=" ++ default (js "unknown") message)
    else None
  end.

Definition normalizeHttpErrorBody (h : Host) (body : option jsstring)
  : option jsstring :=
  let trimmed := trim <$> body in
  if negb (truthy trimmed) then None
  else
    let t := default [] trimmed in
    match jsonSummary h t with
    | Some summary => Some summary
    | None =>
      Some (if (300 <? length t)%nat then slice0 300 t ++ js "..." else t)
    end.

Definition formatQQBotError (h : Host) (err : JsError) : jsstring :=
  match err with
  | HttpError message body =>
    match normalizeHttpErrorBody h body with
    | Some (_ :: _) as b => message ++ js " - " ++ default [] b
    | _ => message
    end
  | _ => errorMessage err
  end.

Definition readMediaWithConfig (h : Host) (source : jsstring)
    (timeout maxSize : Z) : Async MediaRead :=
  try_catch
    (call (CallReadMedia source timeout maxSize) (readMedia h source timeout maxSize))
    (fun err =>
       match err with
       | FileSizeLimitError _ limitSize =>
         throw (Error_ (js "QQBot media exceeds limit (" ++ toFixed2MB limitSize
                        ++ js "MB)"))
       | MediaTimeoutError _ timeoutMs =>
         throw (Error_ (js "QQBot media read timed out after " ++ ofZ timeoutMs
                        ++ js "ms"))
       | _ => throw err
       end).

Definition maxSizeBytesOf (c : QQBotConfig) : Z :=
  Qfloor (Qmult (Qmult (default (inject_Z 100) (maxFileSizeMB c)) (inject_Z 1024))
                (inject_Z 1024)).

Definition mediaTimeoutOf (c : QQBotConfig) : Z := default 30000 (mediaTimeoutMs c).

Definition sendFileQQBot (h : Host) (params : SendFileQQBotParams)
  : Async Receipt :=
  let c := cfg params in
  let tgt := target params in
  if negb (truthy (appId c)) || negb (truthy (clientSecret c))
  then throw (Error_ (js "QQBot not configured (missing appId/clientSecret)"))
  else
    let src := stripTitleFromUrl h (mediaUrl params) in
    let fileType := resolveQQBotMediaFileType h src in
    match fileType with
    | FILE => throw (Error_ QQBOT_UNSUPPORTED_FILE_TYPE_MESSAGE)
    | _ =>
      let sourceIsHttp := isHttpUrl h src in
      let maxSizeBytes := maxSizeBytesOf c in
      let timeoutMs := mediaTimeoutOf c in
      accessToken ← call (CallGetAccessToken (default [] (appId c))
                                             (default [] (clientSecret c)))
                         (getAccessToken h (default [] (appId c))
                                           (default [] (clientSecret c)));
      fileInfo ←
        try_catch
          (if sourceIsHttp
           then uploadQQBotFile h accessToken tgt fileType (Some src) None
           else
             buf ← match fileType with
                   | VOICE =>
                     try_catch
                       (convertAudioToSilk h src)
                       (fun _ =>
                          local ← readMediaWithConfig h src timeoutMs maxSizeBytes;
                          mret (buffer local))
                   | _ =>
                     local ← readMediaWithConfig h src timeoutMs maxSizeBytes;
                     mret (buffer local)
                   end;
             uploadQQBotFile h accessToken tgt fileType None (Some (toBase64 h buf)))
          (fun err =>
             throw (Error_ (js "QQBot media upload failed: " ++ formatQQBotError h err)));
      let sendArgs := {| sd_accessToken := accessToken;
                         sd_openid := target_id tgt;
                         sd_fileInfo := fileInfo;
                         sd_messageId := messageId params |} in
      match target_kind tgt with
      | group =>
        try_catch
          (call (CallSendGroupMediaMessage sendArgs) (sendGroupMediaMessage h sendArgs))
          (fun err =>
             throw (Error_ (js "QQBot group media send failed: " ++ errorMessage err)))
      | c2c =>
        try_catch
          (call (CallSendC2CMediaMessage sendArgs) (sendC2CMediaMessage h sendArgs))
          (fun err =>
             throw (Error_ (js "QQBot C2C media send failed: " ++ errorMessage err)))
      end
    end.

End QQBotSend.
Export QQBotSend.

(** ** [packages/shared/src/cli/china-setup.ts]: the process-wide CLI state

    The state lives in [globalThis] under a registered symbol, so objects have
    identity here: a heap of records and a heap of [Set]s, addressed by
    location.  Two records may hold the same [Set]. *)
Module ChinaSetup.

Definition ChannelId := jsstring.
Definition loc := nat.

Definition CHANNEL_ORDER : list ChannelId :=
  [js "dingtalk"; js "qqbot"; js "wecom"; js "wecom-app"; js "feishu-china"].

Definition isChannelId (value : jsstring) : bool :=
  bool_decide (value ∈ CHANNEL_ORDER).

(** The values the guard of [getChinaCliState] tells apart. *)
Inductive Value :=
| VUndefined
| VBool (b : bool)
| VSet (s : loc)
| VRecord (o : loc)
| VOther.

(** The two properties read off a record. *)
Record Obj := {
  o_channels : Value;
  o_cliRegistered : Value;
}.

(** One call of [api.registerCli(registrar, { commands: ["china"] })]: the api
    that was called and the state record its registrar closes over. *)
Record CliRegistration := {
  reg_api : nat;
  reg_state : loc;
}.

Record Process := {
  root : Value;                         (* globalThis[CHINA_CLI_STATE_KEY] *)
  objects : gmap loc Obj;
  sets : gmap loc (gset ChannelId);
  next : loc;
  cliRegistrations : list CliRegistration;
}.

Record ApiLike := {
  api_id : nat;
  registerCli_is_function : bool;       (* typeof api.registerCli === "function" *)
}.

Definition freshProcess : Process :=
  {| root := VUndefined; objects := ∅; sets := ∅; next := 0%nat;
     cliRegistrations := [] |}.

Definition allocObj (o : Obj) (p : Process) : loc * Process :=
  (next p,
   {| root := root p; objects := <[next p := o]> (objects p); sets := sets p;
      next := S (next p); cliRegistrations := cliRegistrations p |}).

Definition allocSet (p : Process) : loc * Process :=
  (next p,
   {| root := root p; objects := objects p; sets := <[next p := ∅]> (sets p);
      next := S (next p); cliRegistrations := cliRegistrations p |}).

Definition setRoot (v : Value) (p : Process) : Process :=
  {| root := v; objects := objects p; sets := sets p; next := next p;
     cliRegistrations := cliRegistrations p |}.

(** [const created = { channels: new Set(), cliRegistered: false };
     root[KEY] = created; return created;] *)
Definition createState (p : Process) : loc * Process :=
  let '(s, p1) := allocSet p in
  let '(o, p2) := allocObj {| o_channels := VSet s; o_cliRegistered := VBool false |} p1 in
  (o, setRoot (VRecord o) p2).

(** When the cached value passes the guard, the function returns the object
    literal [{ channels, cliRegistered }]: a new record that holds the cached
    [Set] and a copy of the cached flag. *)
Definition getChinaCliState (p : Process) : loc * Process :=
  match root p with
  | VRecord cached =>
    match objects p !! cached with
    | Some {| o_channels := VSet s; o_cliRegistered := VBool b |} =>
      allocObj {| o_channels := VSet s; o_cliRegistered := VBool b |} p
    | _ => createState p
    end
  | _ => createState p
  end.

Definition normalizeChannels (channels : option (list ChannelId))
  : list ChannelId :=
  let selected := match channels with
                  | Some (c :: cs) => c :: cs
                  | _ => CHANNEL_ORDER
                  end in
  let unique : gset ChannelId := list_to_set (List.filter isChannelId selected) in
  List.filter (fun channelId => bool_decide (channelId ∈ unique)) CHANNEL_ORDER.

(** [state.channels.add(channelId)] *)
Definition addChannel (state : loc) (channelId : ChannelId) (p : Process)
  : Process :=
  match objects p !! state with
  | Some {| o_channels := VSet s |} =>
    {| root := root p; objects := objects p;
       sets := <[s := {[channelId]} ∪ default ∅ (sets p !! s)]> (sets p);
       next := next p; cliRegistrations := cliRegistrations p |}
  | _ => p
  end.

Definition readCliRegistered (state : loc) (p : Process) : bool :=
  match objects p !! state with
  | Some {| o_cliRegistered := VBool b |} => b
  | _ => false
  end.

(** [state.cliRegistered = true] *)
Definition markCliRegistered (state : loc) (p : Process) : Process :=
  match objects p !! state with
  | Some o =>
    {| root := root p;
       objects := <[state := {| o_channels := o_channels o;
                                o_cliRegistered := VBool true |}]> (objects p);
       sets := sets p; next := next p; cliRegistrations := cliRegistrations p |}
  | None => p
  end.

Definition callRegisterCli (api : ApiLike) (state : loc) (p : Process)
  : Process :=
  {| root := root p; objects := objects p; sets := sets p; next := next p;
     cliRegistrations :=
       cliRegistrations p ++ [{| reg_api := api_id api; reg_state := state |}] |}.

Definition registerChinaSetupCli (api : ApiLike)
    (channels : option (list ChannelId)) (p : Process) : Process :=
  let '(state, p1) := getChinaCliState p in
  let p2 := fold_left (fun q channelId => addChannel state channelId q)
                      (normalizeChannels channels) p1 in
  if readCliRegistered state p2 || negb (registerCli_is_function api)
  then p2
  else callRegisterCli api state (markCliRegistered state p2).

(** A sequence of calls within one process. *)
Definition registerAll (calls : list (ApiLike * option (list ChannelId)))
    (p : Process) : Process :=
  fold_left (fun q c => registerChinaSetupCli (fst c) (snd c) q) calls p.

(** The flag of the shared state, as the next call will read it. *)
Definition sharedCliRegistered (p : Process) : bool :=
  match root p with
  | VRecord o => readCliRegistered o p
  | _ => false
  end.

(** The channel set of the shared state. *)
Definition sharedChannels (p : Process) : gset ChannelId :=
  match root p with
  | VRecord o =>
    match objects p !! o with
    | Some {| o_channels := VSet s |} => default ∅ (sets p !! s)
    | _ => ∅
    end
  | _ => ∅
  end.

(** The shared state holds a record whose flag is set. *)
Definition flagged (p : Process) : Prop :=
  exists o s,
    root p = VRecord o
    /\ objects p !! o = Some {| o_channels := VSet s; o_cliRegistered := VBool true |}
    /\ (o < next p)%nat.

End ChinaSetup.

(** ** [bot.ts] of the QQ Bot extension: outbound policy

    The file itself is not at hand; its test suites (among them
    [bot.text-sanitize.test.ts]) and the specification are.  Each definition
    below says what it is modelled from. *)
Module Outbound.

Record DeliveryParams := {
  replyFinalOnly : bool;
  kind : jsstring;
  hasMedia : bool;
  sanitizedText : jsstring;
}.

Record DeliveryDecision := {
  skipDelivery : bool;
  suppressText : bool;
}.

(** Modelled from the spec: [evaluateReplyFinalOnlyDelivery] of [bot.ts] is
    missing.  Section 4.4: with [replyFinalOnly] enabled, a non-final event is
    dropped unless media accompanies it, in which case it is delivered with
    its text suppressed; final events are always delivered.  With the flag
    disabled nothing is skipped or suppressed (fourth test of the suite). *)
Definition evaluateReplyFinalOnlyDelivery (p : DeliveryParams)
  : DeliveryDecision :=
  if negb (replyFinalOnly p) then
    {| skipDelivery := false; suppressText := false |}
  else if bool_decide (kind p = js "final") then
    {| skipDelivery := false; suppressText := false |}
  else if hasMedia p then
    {| skipDelivery := false; suppressText := true |}
  else
    {| skipDelivery := true; suppressText := false |}.

Fixpoint startsWith (p s : jsstring) : bool :=
  match p, s with
  | [], _ => true
  | a :: p', b :: s' => (a =? b)%N && startsWith p' s'
  | _ :: _, [] => false
  end.

Fixpoint occurs (p s : jsstring) : bool :=
  match s with
  | [] => startsWith p []
  | _ :: r => startsWith p s || occurs p r
  end.

(** Scanner that drops every span from an [opener] to the nearest [closer]
    after it, both included; an [opener] that is never closed stays. *)
Fixpoint removeSpansFrom (opener closer : jsstring) (skip : nat) (inside : bool)
    (s : jsstring) : jsstring :=
  match s with
  | [] => []
  | c :: r =>
    match skip with
    | S k => removeSpansFrom opener closer k inside r
    | O =>
      if inside then
        if startsWith closer s
        then removeSpansFrom opener closer (length closer - 1) false r
        else removeSpansFrom opener closer 0 true r
      else if startsWith opener s && occurs closer (drop (length opener) s)
      then removeSpansFrom opener closer (length opener - 1) true r
      else c :: removeSpansFrom opener closer 0 false r
    end
  end.

Definition removeSpans (opener closer s : jsstring) : jsstring :=
  removeSpansFrom opener closer 0 false s.

Fixpoint afterFirst (p s : jsstring) : option jsstring :=
  match s with
  | [] => None
  | _ :: r => if startsWith p s then Some (drop (length p) s) else afterFirst p r
  end.

Fixpoint beforeFirst (p s : jsstring) : option jsstring :=
  match s with
  | [] => None
  | c :: r => if startsWith p s then Some [] else cons c <$> beforeFirst p r
  end.

Definition stripThink : jsstring -> jsstring :=
  removeSpans (js "<think>") (js "</think>").

Definition keepFinal (s : jsstring) : jsstring :=
  match afterFirst (js "<final>") s with
  | Some rest => default s (beforeFirst (js "</final>") rest)
  | None => s
  end.

Definition stripDirectiveTags : jsstring -> jsstring :=
  removeSpans (js "[[") (js "]]").

Definition stripBracketTags : jsstring -> jsstring :=
  removeSpans (js "[") (js "]").

Definition upperAscii (c : N) : N :=
  if ((97 <=? c) && (c <=? 122))%N then (c - 32)%N else c.

Definition NO_REPLY : jsstring := js "NO_REPLY".

Definition containsNoReply (raw : jsstring) : bool :=
  occurs NO_REPLY (map upperAscii (trim raw)).

(** Modelled from the spec: [sanitizeQQBotOutboundText] of [bot.ts] is
    missing.  Section 4.4: it strips think blocks with their contents, paired
    bracket tags and double-bracket directive tags, keeps only the content of
    a [<final>] wrapper when there is one, and collapses to the empty string
    when the no-reply sentinel occurs in the trimmed text, whatever its case.
    The result is trimmed, as the tests of the suite expect. *)
Definition sanitizeQQBotOutboundText (raw : jsstring) : jsstring :=
  if containsNoReply raw then []
  else trim (stripBracketTags (stripDirectiveTags (keepFinal (stripThink raw)))).

Record OutboundResult := {
  messageId : option jsstring;
  error : option jsstring;
}.

Record OutboundApi := {
  sendMedia : jsstring -> jsstring -> option jsstring -> OutboundResult;
  sendText : jsstring -> jsstring -> option jsstring -> OutboundResult;
}.

Inductive DeliveryEvent :=
| MediaAttempt (to mediaUrl : jsstring)
| TextSend (to text : jsstring)
| LogError (message : jsstring).

Record FallbackParams := {
  to : jsstring;
  mediaQueue : list jsstring;
  replyToId : option jsstring;
  outbound : OutboundApi;
}.

Definition uploadFailureLog (reason : jsstring) : jsstring :=
  js "sendMedia failed: " ++ reason.

Definition sendFailureLog (reason : jsstring) : jsstring :=
  js "sendText failed: " ++ reason.

(** The queued items in order: the events they cause, and whether one of them
    went through (which ends the attempts). *)
Fixpoint attemptQueue (p : FallbackParams) (queue : list jsstring)
  : list DeliveryEvent * bool :=
  match queue with
  | [] => ([], false)
  | mediaUrl :: rest =>
    match error (sendMedia (outbound p) (to p) mediaUrl (replyToId p)) with
    | None => ([MediaAttempt (to p) mediaUrl], true)
    | Some reason =>
      let '(evs, sent) := attemptQueue p rest in
      (MediaAttempt (to p) mediaUrl :: LogError (uploadFailureLog reason) :: evs, sent)
    end
  end.

Definition joinLines (parts : list jsstring) : jsstring :=
  match parts with
  | [] => []
  | x :: xs => x ++ concat (map (fun y => 10%N :: y) xs)
  end.

(** Modelled from the spec: [sendQQBotMediaWithFallback] of [bot.ts] is
    missing.  Section 4.3, step 5: the queued media items are tried in order,
    the first to succeed ends the attempts; when none succeeds the source
    references are sent as one plain-text message, and an upload failure is
    logged apart from a failure of that text send.  The wording
    [sendMedia failed] of the upload-failure entry is the one the test of the
    suite looks for. *)
Definition sendQQBotMediaWithFallback (p : FallbackParams) : list DeliveryEvent :=
  let '(evs, sent) := attemptQueue p (mediaQueue p) in
  match mediaQueue p with
  | [] => evs
  | _ :: _ =>
    if sent then evs
    else
      let text := joinLines (mediaQueue p) in
      evs ++ TextSend (to p) text ::
        match error (sendText (outbound p) (to p) text (replyToId p)) with
        | None => []
        | Some reason => [LogError (sendFailureLog reason)]
        end
  end.

Definition isMediaAttempt (ev : DeliveryEvent) : bool :=
  match ev with MediaAttempt _ _ => true | _ => false end.

Definition isTextSend (ev : DeliveryEvent) : bool :=
  match ev with TextSend _ _ => true | _ => false end.

(** The two kinds of log entry are told apart by how the entry begins. *)
Definition isUploadFailureLog (ev : DeliveryEvent) : bool :=
  match ev with
  | LogError m => startsWith (js "sendMedia failed") m
  | _ => false
  end.

Definition isSendFailureLog (ev : DeliveryEvent) : bool :=
  match ev with
  | LogError m => startsWith (js "sendText failed") m
  | _ => false
  end.

Definition count (f : DeliveryEvent -> bool) (evs : list DeliveryEvent) : nat :=
  length (List.filter f evs).

End Outbound.

(** ** The token cache

    [getAccessToken] is imported by the sending module from [client.ts],
    which is not at hand.  The cache is modelled from sections 4.1 and 5 of the
    specification as a machine whose steps are the points at which the
    single-threaded event loop runs cache code: a caller asks for a token, a
    refresh round-trip comes back, an entry is invalidated. *)
Module TokenCache.

Definition AccountKey := jsstring.
Definition Caller := nat.

Record CachedToken := {
  value : jsstring;
  expiresAt : Z;
  accountKey : AccountKey;
}.

Record AuthError := {
  status : Z;
  body : jsstring;
}.

(** How a refresh round-trip ends. *)
Inductive RefreshOutcome :=
| Refreshed (token : jsstring) (ttl : Z)
| RefreshFailed (err : AuthError).

(** What a caller of [getToken] receives. *)
Inductive Reply :=
| Token (token : jsstring)
| Failed (err : AuthError).

Definition replyOf (o : RefreshOutcome) : Reply :=
  match o with
  | Refreshed token _ => Token token
  | RefreshFailed err => Failed err
  end.

Record Cache := {
  entries : gmap AccountKey CachedToken;
  inflight : gmap AccountKey (list Caller);   (* waiters of the refresh in flight *)
  refreshes : list AccountKey;                (* network round-trips issued *)
  replies : list (Caller * AccountKey * Reply);
}.

Inductive Step :=
| GetToken (c : Caller) (k : AccountKey) (now : Z)
| RefreshDone (k : AccountKey) (o : RefreshOutcome) (now : Z)
| Invalidate (k : AccountKey)
| InvalidateAll.

Definition init : Cache :=
  {| entries := ∅; inflight := ∅; refreshes := []; replies := [] |}.

(** An entry is served only before its [expiresAt]. *)
Definition cachedValue (s : Cache) (k : AccountKey) (now : Z) : option jsstring :=
  match entries s !! k with
  | Some t => if now <? expiresAt t then Some (value t) else None
  | None => None
  end.

Section Machine.

(** The margin subtracted from the time to live (the spec suggests 60s). *)
Variable safetyMargin : Z.

(** Modelled from the spec: the token cache of [client.ts] is missing.
    Section 4.1: [getToken] returns the cached token while it is valid; else
    it joins the refresh in flight for the key, or starts one when there is
    none.  When the refresh comes back every waiter receives its outcome; a
    success is stored with [expiresAt = now + ttl - safetyMargin], a failure
    is not cached.  [invalidate] drops one entry, [invalidateAll] all. *)
Definition step (s : Cache) (e : Step) : Cache :=
  match e with
  | GetToken c k now =>
    match cachedValue s k now with
    | Some token =>
      {| entries := entries s; inflight := inflight s; refreshes := refreshes s;
         replies := replies s ++ [(c, k, Token token)] |}
    | None =>
      match inflight s !! k with
      | Some waiters =>
        {| entries := entries s; inflight := <[k := waiters ++ [c]]> (inflight s);
           refreshes := refreshes s; replies := replies s |}
      | None =>
        {| entries := entries s; inflight := <[k := [c]]> (inflight s);
           refreshes := refreshes s ++ [k]; replies := replies s |}
      end
    end
  | RefreshDone k o now =>
    match inflight s !! k with
    | Some waiters =>
      {| entries :=
           match o with
           | Refreshed token ttl =>
             <[k := {| value := token; expiresAt := now + ttl - safetyMargin;
                       accountKey := k |}]> (entries s)
           | RefreshFailed _ => entries s
           end;
         inflight := delete k (inflight s);
         refreshes := refreshes s;
         replies := replies s ++ map (fun c => (c, k, replyOf o)) waiters |}
    | None => s
    end
  | Invalidate k =>
    {| entries := delete k (entries s); inflight := inflight s;
       refreshes := refreshes s; replies := replies s |}
  | InvalidateAll =>
    {| entries := ∅; inflight := inflight s; refreshes := refreshes s;
       replies := replies s |}
  end.

Definition run (s : Cache) (es : list Step) : Cache := fold_left step es s.

End Machine.

(** The callers that ask for [k] in a run of steps, in order. *)
Fixpoint callersOf (k : AccountKey) (es : list Step) : list Caller :=
  match es with
  | [] => []
  | GetToken c k' _ :: rest =>
    if decide (k' = k) then c :: callersOf k rest else callersOf k rest
  | _ :: rest => callersOf k rest
  end.

(** No refresh for [k] comes back during the steps: they lie within one
    refresh window of [k]. *)
Fixpoint withinWindow (k : AccountKey) (es : list Step) : bool :=
  match es with
  | [] => true
  | RefreshDone k' _ _ :: rest => negb (bool_decide (k' = k)) && withinWindow k rest
  | _ :: rest => withinWindow k rest
  end.

(** Every request for [k] among the steps comes at a time when the token that
    [s] holds for [k], if any, has expired: it cannot be served from the
    cache. *)
Fixpoint mustRefresh (s : Cache) (k : AccountKey) (es : list Step) : bool :=
  match es with
  | [] => true
  | GetToken _ k' now :: rest =>
    (if decide (k' = k) then bool_decide (cachedValue s k now = None) else true)
    && mustRefresh s k rest
  | _ :: rest => mustRefresh s k rest
  end.

(** The waiters of the refresh in flight once the callers [cs] have asked. *)
Definition waitersAfter (before : option (list Caller)) (cs : list Caller)
  : option (list Caller) :=
  match before, cs with
  | Some ws, _ => Some (ws ++ cs)
  | None, [] => None
  | None, _ :: _ => Some cs
  end.

(** The round-trips those callers start: one when none was in flight. *)
Definition refreshesStarted (before : option (list Caller)) (cs : list Caller)
  : nat :=
  match before, cs with
  | None, _ :: _ => 1
  | _, _ => 0
  end.

Definition refreshCount (k : AccountKey) (s : Cache) : nat :=
  length (List.filter (fun k' => bool_decide (k' = k)) (refreshes s)).

Definition repliesFor (k : AccountKey) (s : Cache) : list (Caller * Reply) :=
  map (fun r => (fst (fst r), snd r))
      (List.filter (fun r => bool_decide (snd (fst r) = k)) (replies s)).

End TokenCache.

(** ** The fallback of the audio path, as the specification words it

    Section 4.3, step 3: when transcoding fails, the original fetched bytes
    are uploaded instead.  [uploadOriginalBytes] is that second strategy on
    its own: read the source under the configured budget, upload what was
    read, send the message.  It is compared with [sendFileQQBot] below. *)
Module FallbackSpec.

Definition uploadOriginalBytes (h : Host) (params : SendFileQQBotParams)
    (accessToken : jsstring) : Async Receipt :=
  let c := cfg params in
  let tgt := target params in
  let src := stripTitleFromUrl h (mediaUrl params) in
  fileInfo ←
    try_catch
      (local ← readMediaWithConfig h src (mediaTimeoutOf c) (maxSizeBytesOf c);
       uploadQQBotFile h accessToken tgt VOICE None (Some (toBase64 h (buffer local))))
      (fun err =>
         throw (Error_ (js "QQBot media upload failed: " ++ formatQQBotError h err)));
  let sendArgs := {| sd_accessToken := accessToken;
                     sd_openid := target_id tgt;
                     sd_fileInfo := fileInfo;
                     sd_messageId := messageId params |} in
  match target_kind tgt with
  | group =>
    try_catch
      (call (CallSendGroupMediaMessage sendArgs) (sendGroupMediaMessage h sendArgs))
      (fun err =>
         throw (Error_ (js "QQBot group media send failed: " ++ errorMessage err)))
  | c2c =>
    try_catch
      (call (CallSendC2CMediaMessage sendArgs) (sendC2CMediaMessage h sendArgs))
      (fun err =>
         throw (Error_ (js "QQBot C2C media send failed: " ++ errorMessage err)))
  end.

End FallbackSpec.

(** ** Concrete environments

    Hosts on which the embedded code is run: a platform that accepts every
    upload and send, a media reader and a tool chain whose behaviour is chosen
    per run. *)
Module Scenario.

Definition endsWith (suffix s : jsstring) : bool :=
  Outbound.startsWith (rev suffix) (rev s).

Definition byExtension (fileName : jsstring) : MediaType :=
  if endsWith (js ".png") fileName then MT_image
  else if endsWith (js ".mp4") fileName then MT_video
  else if endsWith (js ".mp3") fileName then MT_audio
  else MT_file.

Definition receipt : Receipt :=
  {| receipt_id := js "m1"; receipt_timestamp := inl 1 |}.

Definition quote : jsstring := [34%N].


(** [JSON.parse] on the texts of the shape [messageObject m] whose [m] has no
    quote, backslash or control character; every other text is refused. *)
Definition parseMessageObject (text : jsstring) : option JsValue :=
  let opening := js "{" ++ quote ++ js "message" ++ quote ++ js ":" ++ quote in
  let closing := quote ++ js "}" in
  if Outbound.startsWith opening text && endsWith closing text
     && (length opening + length closing <=? length text)%nat
  then
    let inner := take (length text - length opening - length closing)
                      (drop (length opening) text) in
    if forallb (fun c => (32 <=? c)%N && negb (c =? 34)%N && negb (c =? 92)%N) inner
    then Some (JObject [(js "message", JString inner)])
    else None
  else None.

Definition host (read : Result MediaRead) (ffmpeg : ExecOutcome)
    (removal : RmOutcome) : Host :=
  {| detectMediaType := byExtension;
     stripTitleFromUrl := fun url => url;
     isHttpUrl := fun s => Outbound.startsWith (js "http://") s
                           || Outbound.startsWith (js "https://") s;
     getAccessToken := fun _ _ => Ok (js "token-1");
     uploadGroupMedia := fun _ => Ok {| file_info := Some (js "file-info-1") |};
     uploadC2CMedia := fun _ => Ok {| file_info := Some (js "file-info-1") |};
     sendGroupMediaMessage := fun _ => Ok receipt;
     sendC2CMediaMessage := fun _ => Ok receipt;
     readMedia := fun _ _ _ => read;
     require_ffmpeg_static := Ok (Some (js "/opt/ffmpeg"));
     require_silk_wasm := Ok tt;
     silk_encode := fun pcm _ => Ok pcm;
     os_tmpdir := js "/tmp";
     mkdtempSync := fun _ prefix => Ok (prefix ++ js "Ab3xYz");
     execFileSync := fun _ _ => ffmpeg;
     readFileSync := fun _ _ => Ok [1%N; 2%N; 3%N];
     rmSync := fun _ _ => removal;
     toBase64 := fun _ => js "AQID";
     JSON_parse := parseMessageObject |}.

Definition tooLarge : Result MediaRead :=
  Throw (FileSizeLimitError (js "file too large") 104857600).

Definition readable : Result MediaRead :=
  Ok {| buffer := [1%N; 2%N; 3%N]; fileName := js "a.mp3" |}.

Definition ffmpegWorks : ExecOutcome :=
  {| exec_result := Ok tt; exec_wrote := true |}.

Definition ffmpegFails : ExecOutcome :=
  {| exec_result := Throw (Error_ (js "Command failed: ffmpeg")); exec_wrote := true |}.

Definition removalFails : RmOutcome :=
  RmThrew (Error_ (js "EBUSY: resource busy or locked, rmdir")) ∅.

Definition account : QQBotConfig :=
  {| appId := Some (js "app-1"); clientSecret := Some (js "secret-1");
     maxFileSizeMB := None; mediaTimeoutMs := None |}.

Definition sendTo (url : jsstring) : SendFileQQBotParams :=
  {| cfg := account;
     target := {| target_kind := c2c; target_id := js "user-1" |};
     mediaUrl := url;
     messageId := Some (js "reply-1") |}.

(** The same send for an account whose [appId] is the empty string. *)
Definition sendWithoutAppId (url : jsstring) : SendFileQQBotParams :=
  {| cfg := {| appId := Some []; clientSecret := Some (js "secret-1");
               maxFileSizeMB := None; mediaTimeoutMs := None |};
     target := {| target_kind := c2c; target_id := js "user-1" |};
     mediaUrl := url;
     messageId := Some (js "reply-1") |}.

Definition emptyWorld : World := {| fs := ∅; trace := [] |}.


(** An outbound api whose media send reports an upload failure and whose text
    send works, and a call with one queued item (the case of the test suite). *)
Definition failingMedia : Outbound.OutboundApi :=
  {| Outbound.sendMedia := fun _ _ _ =>
       {| Outbound.messageId := None; Outbound.error := Some (js "upload failed") |};
     Outbound.sendText := fun _ _ _ =>
       {| Outbound.messageId := Some (js "m1"); Outbound.error := None |} |}.

Definition fallbackCall : Outbound.FallbackParams :=
  {| Outbound.to := js "user:123";
     Outbound.mediaQueue := [js "https://example.com/a.mp3"];
     Outbound.replyToId := Some (js "reply-1");
     Outbound.outbound := failingMedia |}.

(** Three callers ask for the token of one account while its refresh is in
    flight; another account is asked for and an invalidation runs
    in between. *)
Definition tokenKey : TokenCache.AccountKey := js "qqbot:app-1".
Definition otherKey : TokenCache.AccountKey := js "qqbot:app-2".

Definition window : list TokenCache.Step :=
  [TokenCache.GetToken 1%nat tokenKey 0;
   TokenCache.GetToken 7%nat otherKey 1;
   TokenCache.GetToken 2%nat tokenKey 2;
   TokenCache.Invalidate tokenKey;
   TokenCache.GetToken 3%nat tokenKey 5].

(** A host api without [registerCli], and one with it. *)
Definition apiWithoutCli : ChinaSetup.ApiLike :=
  {| ChinaSetup.api_id := 0%nat; ChinaSetup.registerCli_is_function := false |}.

Definition apiWithCli (n : nat) : ChinaSetup.ApiLike :=
  {| ChinaSetup.api_id := n; ChinaSetup.registerCli_is_function := true |}.

End Scenario.

(** ** What is observed of a run *)
Module Observe.

(** The calls made between two worlds of one run. *)
Definition newEvents (w w' : World) : list Event :=
  drop (length (trace w)) (trace w').

(** The bytes of [src] are fetched through [readMedia]: it is an image or a
    video, or an audio file whose transcoding throws. *)
Definition readsOriginal (h : Host) (src : jsstring) (w : World) : Prop :=
  match resolveQQBotMediaFileType h src with
  | IMAGE | VIDEO => True
  | VOICE => exists e, fst (convertAudioToSilk h src w) = Throw e
  | FILE => False
  end.

Definition configured (c : QQBotConfig) : bool :=
  truthy (appId c) && truthy (clientSecret c).

Definition tokenCall (c : QQBotConfig) : Event :=
  CallGetAccessToken (default [] (appId c)) (default [] (clientSecret c)).

Definition tokenAnswer (h : Host) (c : QQBotConfig) : Result jsstring :=
  getAccessToken h (default [] (appId c)) (default [] (clientSecret c)).

(** The directory [convertAudioToSilk] asks [mkdtempSync] for. *)
Definition tmpPrefix (h : Host) : path := path_join (os_tmpdir h) (js "qqbot-silk-").

(** The file data an upload call carries. *)
Definition uploadedData (ev : Event) : option jsstring :=
  match ev with
  | CallUploadGroupMedia a | CallUploadC2CMedia a => up_fileData a
  | _ => None
  end.

Definition isRmSync (ev : Event) : bool :=
  match ev with CallRmSync _ => true | _ => false end.

(** The same host with a removal that always succeeds. *)
Definition withRemovalDone (h : Host) : Host :=
  {| detectMediaType := detectMediaType h;
     stripTitleFromUrl := stripTitleFromUrl h;
     isHttpUrl := isHttpUrl h;
     getAccessToken := getAccessToken h;
     uploadGroupMedia := uploadGroupMedia h;
     uploadC2CMedia := uploadC2CMedia h;
     sendGroupMediaMessage := sendGroupMediaMessage h;
     sendC2CMediaMessage := sendC2CMediaMessage h;
     readMedia := readMedia h;
     require_ffmpeg_static := require_ffmpeg_static h;
     require_silk_wasm := require_silk_wasm h;
     silk_encode := silk_encode h;
     os_tmpdir := os_tmpdir h;
     mkdtempSync := mkdtempSync h;
     execFileSync := execFileSync h;
     readFileSync := readFileSync h;
     rmSync := fun _ _ => RmDone;
     toBase64 := toBase64 h;
     JSON_parse := JSON_parse h |}.

End Observe.
Export Observe.

(** ** The calls of a send, by kind *)
Module SendProtocol.

Definition isTokenCall (ev : Event) : bool :=
  match ev with CallGetAccessToken _ _ => true | _ => false end.

Definition isSendCall (ev : Event) : bool :=
  match ev with
  | CallSendGroupMediaMessage _ | CallSendC2CMediaMessage _ => true
  | _ => false
  end.

(** Calls to the QQ platform API. *)
Definition isPlatformCall (ev : Event) : bool :=
  isTokenCall ev || isUpload ev || isSendCall ev.

Definition isGroupCall (ev : Event) : bool :=
  match ev with
  | CallUploadGroupMedia _ | CallSendGroupMediaMessage _ => true
  | _ => false
  end.

Definition isC2CCall (ev : Event) : bool :=
  match ev with
  | CallUploadC2CMedia _ | CallSendC2CMediaMessage _ => true
  | _ => false
  end.

(** The order in which the platform may be called during one send: the token,
    then one upload, then one send; the sequence may stop after any of them. *)
Definition followsProtocol (calls : list Event) : bool :=
  match calls with
  | [] => true
  | [t] => isTokenCall t
  | [t; u] => isTokenCall t && isUpload u
  | [t; u; s] => isTokenCall t && isUpload u && isSendCall s
  | _ => false
  end.

(** What the platform answered to a send call. *)
Definition sendAnswer (h : Host) (ev : Event) : option (Result Receipt) :=
  match ev with
  | CallSendGroupMediaMessage a => Some (sendGroupMediaMessage h a)
  | CallSendC2CMediaMessage a => Some (sendC2CMediaMessage h a)
  | _ => None
  end.

(** The classes of the media reader's budget errors. *)
Definition isBudgetError (e : JsError) : bool :=
  match e with
  | FileSizeLimitError _ _ | MediaTimeoutError _ _ => true
  | _ => false
  end.

End SendProtocol.

(** ** [china-setup.ts]: what the registered commands see of the shared state *)
Module ChinaSetupState.
Import ChinaSetup.

(** [state.channels], read through a state record. *)
Definition channelsOf (state : loc) (p : Process) : gset ChannelId :=
  match objects p !! state with
  | Some {| o_channels := VSet s |} => default ∅ (sets p !! s)
  | _ => ∅
  end.

Definition getInstalledChannels (state : loc) (p : Process) : list ChannelId :=
  List.filter (fun channelId => bool_decide (channelId ∈ channelsOf state p))
              CHANNEL_ORDER.

(** The channel ids a sequence of calls asks for, after normalisation. *)
Definition requested (calls : list (ApiLike * option (list ChannelId)))
  : gset ChannelId :=
  ⋃ (map (fun c => list_to_set (normalizeChannels (snd c))) calls).

(** The calls whose api can register a CLI. *)
Definition capable (calls : list (ApiLike * option (list ChannelId)))
  : list (ApiLike * option (list ChannelId)) :=
  List.filter (fun c => registerCli_is_function (fst c)) calls.

(** The shape of the heap in a process that only [registerChinaSetupCli] has
    written to: nothing yet, or one shared record, and every state record
    holds the one shared [Set]. *)
Definition sharing (p : Process) : Prop :=
  match root p with
  | VUndefined => objects p = ∅ /\ cliRegistrations p = []
  | VRecord o =>
    exists s b,
      objects p !! o = Some {| o_channels := VSet s; o_cliRegistered := VBool b |}
      /\ (forall o' obj, objects p !! o' = Some obj ->
                         (o' < next p)%nat /\ o_channels obj = VSet s)
      /\ (forall r, r ∈ cliRegistrations p -> is_Some (objects p !! reg_state r))
      /\ (b = true -> cliRegistrations p <> [])
  | _ => False
  end.

End ChinaSetupState.

(** ** [china-setup.ts]: reading and merging the configuration

    A configuration is a tree of JavaScript values.  An object is given by its
    property definitions in the order they were made; a read takes the last
    definition of a key, an enumeration follows the order of own properties
    (array indices first, in ascending order, then the other keys in the order
    of their first definition). *)
Module ChinaConfig.

Definition Members := list (jsstring * JsValue).

Definition isDigit (c : N) : bool := ((48 <=? c) && (c <=? 57))%N.

Definition digitsValue (ds : jsstring) : N :=
  fold_left (fun acc c => (acc * 10 + (c - 48))%N) ds 0%N.

(** The array index a property key denotes, if it is one: the canonical
    decimal text of an integer below 2^32 - 1. *)
Definition arrayIndex (key : jsstring) : option N :=
  match key with
  | [] => None
  | c :: rest =>
    if forallb isDigit key && ((negb (c =? 48)%N) || bool_decide (rest = []))
       && (length key <=? 10)%nat && (digitsValue key <? 4294967295)%N
    then Some (digitsValue key)
    else None
  end.

Definition hasOwn (key : jsstring) (ms : Members) : bool :=
  bool_decide (is_Some (member key ms)).

(** Place of a new property among the own properties. *)
Fixpoint insertNew (key : jsstring) (v : JsValue) (ms : Members) : Members :=
  match ms with
  | [] => [(key, v)]
  | (k, x) :: rest =>
    match arrayIndex key, arrayIndex k with
    | Some n, Some m =>
      if (n <? m)%N then (key, v) :: ms else (k, x) :: insertNew key v rest
    | Some _, None => (key, v) :: ms
    | None, _ => (k, x) :: insertNew key v rest
    end
  end.

(** [obj[key] = v] on own data properties: an existing property keeps its
    place and takes the value, a new one is placed by [insertNew]. *)
Definition defineProp (key : jsstring) (v : JsValue) (ms : Members) : Members :=
  if hasOwn key ms
  then map (fun kx => if decide (fst kx = key) then (fst kx, v) else kx) ms
  else insertNew key v ms.

(** The own properties of an object, in enumeration order. *)
Definition ownProperties (ms : Members) : Members :=
  fold_left (fun acc kx => defineProp (fst kx) (snd kx) acc) ms [].

(** [{ ...target, ...source }], continued from [target]. *)
Definition spread (target source : Members) : Members :=
  fold_left (fun acc kx => defineProp (fst kx) (snd kx) acc) (ownProperties source)
            target.

Definition isRecord (value : option JsValue) : bool :=
  match value with
  | Some (JObject _) => true
  | _ => false
  end.

Definition toTrimmedString (value : option JsValue) : option jsstring :=
  match value with
  | Some (JString s) =>
    match trim s with
    | [] => None
    | trimmed => Some trimmed
    end
  | _ => None
  end.

Definition hasNonEmptyString (value : option JsValue) : bool :=
  match value with
  | Some (JString s) => (0 <? length (trim s))%nat
  | _ => false
  end.

Definition toBoolean (value : option JsValue) (fallback : bool) : bool :=
  match value with
  | Some (JBool b) => b
  | _ => fallback
  end.

(** [Number.isFinite] on a number carried by the text [String] prints. *)
Definition toNumber (value : option JsValue) : option jsstring :=
  match value with
  | Some (JNumber text) =>
    if bool_decide (text = js "NaN") || bool_decide (text = js "Infinity")
       || bool_decide (text = js "-Infinity")
    then None else Some text
  | _ => None
  end.

Definition recordOr (value : option JsValue) : Members :=
  match value with
  | Some (JObject ms) => ms
  | _ => []
  end.

Definition getChannelConfig (cfg : Members) (channelId : jsstring) : Members :=
  let channels := recordOr (member (js "channels") cfg) in
  recordOr (member channelId channels).

(** [accounts[id]] for a key chosen at run time: an own property, or, for the
    key [__proto__] that is not an own property, the prototype of plain
    objects, a record without any of the properties read here. *)
Definition accountById (accounts : Members) (id : jsstring) : option JsValue :=
  match member id accounts with
  | Some v => Some v
  | None => if decide (id = js "__proto__") then Some (JObject []) else None
  end.

Fixpoint firstRecord (values : list JsValue) : option Members :=
  match values with
  | [] => None
  | JObject ms :: _ => Some ms
  | _ :: rest => firstRecord rest
  end.

Definition getPreferredAccountConfig (channelCfg : Members) : option Members :=
  match member (js "accounts") channelCfg with
  | Some (JObject accounts) =>
    let fallback := firstRecord (map snd (ownProperties accounts)) in
    match toTrimmedString (member (js "defaultAccount") channelCfg) with
    | Some defaultAccountId =>
      match accountById accounts defaultAccountId with
      | Some (JObject preferred) => Some preferred
      | _ => fallback
      end
    | None => fallback
    end
  | _ => None
  end.

Definition hasTokenPair (channelCfg : Members) : bool :=
  if hasNonEmptyString (member (js "token") channelCfg)
     && hasNonEmptyString (member (js "encodingAESKey") channelCfg)
  then true
  else
    match getPreferredAccountConfig channelCfg with
    | Some accountCfg =>
      hasNonEmptyString (member (js "token") accountCfg)
      && hasNonEmptyString (member (js "encodingAESKey") accountCfg)
    | None => false
    end.

Definition isChannelConfigured (cfg : Members) (channelId : jsstring) : bool :=
  let channelCfg := getChannelConfig cfg channelId in
  if decide (channelId = js "dingtalk") then
    hasNonEmptyString (member (js "clientId") channelCfg)
    && hasNonEmptyString (member (js "clientSecret") channelCfg)
  else if decide (channelId = js "feishu-china") then
    hasNonEmptyString (member (js "appId") channelCfg)
    && hasNonEmptyString (member (js "appSecret") channelCfg)
  else if decide (channelId = js "qqbot") then
    hasNonEmptyString (member (js "appId") channelCfg)
    && hasNonEmptyString (member (js "clientSecret") channelCfg)
  else if decide (channelId = js "wecom") then hasTokenPair channelCfg
  else if decide (channelId = js "wecom-app") then hasTokenPair channelCfg
  else false.

Definition CHANNEL_DISPLAY_LABELS : Members :=
  [(js "dingtalk", JString (js "DingTalk（钉钉）"));
   (js "feishu-china", JString (js "Feishu（飞书）"));
   (js "wecom", JString (js "WeCom（企业微信-智能机器人）"));
   (js "wecom-app", JString (js "WeCom App（自建应用-可接入微信）"));
   (js "qqbot", JString (js "QQBot（QQ 机器人）"))].

(** A value inside a template literal. *)
Definition templateText (value : option JsValue) : jsstring :=
  match value with
  | Some v => String_ v
  | None => js "undefined"
  end.

Definition withConfiguredSuffix (cfg : Members) (channelId : jsstring) : jsstring :=
  let base := templateText (member channelId CHANNEL_DISPLAY_LABELS) in
  if isChannelConfigured cfg channelId then base ++ js "（已配置）" else base.

(** For a channel id of [CHANNEL_ORDER]: with such a key the lookup and the
    assignment [channels[channelId] = ...] work on own properties. *)
Definition mergeChannelConfig (cfg : Members) (channelId : jsstring)
    (patch : Members) : Members :=
  let channels :=
    match member (js "channels") cfg with
    | Some (JObject ch) => spread [] ch
    | _ => []
    end in
  let existing := getChannelConfig cfg channelId in
  let entry := defineProp (js "enabled") (JBool true)
                 (spread (spread [] existing) patch) in
  defineProp (js "channels") (JObject (defineProp channelId (JObject entry) channels))
             (spread [] cfg).

(** The keys [isChannelConfigured] looks for in a channel's own record. *)
Definition credentialKeys (channelId : jsstring) : list jsstring :=
  if decide (channelId = js "dingtalk") then [js "clientId"; js "clientSecret"]
  else if decide (channelId = js "feishu-china") then [js "appId"; js "appSecret"]
  else if decide (channelId = js "qqbot") then [js "appId"; js "clientSecret"]
  else if decide (channelId = js "wecom") then [js "token"; js "encodingAESKey"]
  else if decide (channelId = js "wecom-app") then [js "token"; js "encodingAESKey"]
  else [].

End ChinaConfig.

(** ** The unified channels package: promo hint and registration by config *)
Module ChannelsPlugin.

Definition SUPPORTED_CHANNELS : list jsstring :=
  [js "dingtalk"; js "feishu-china"; js "wecom"; js "wecom-app"; js "qqbot"].

Definition PROJECT_REPO : jsstring := js "https://github.com/BytePioneer-AI/moltbot-china".
Definition DEBUG_COMMAND : jsstring := js "openclaw gateway --port 18789 --verbose".
Definition ANSI_RESET : jsstring := 27%N :: js "[0m".
Definition ANSI_LINK : jsstring := 27%N :: js "[1;4;96m".
Definition ANSI_BORDER : jsstring := 27%N :: js "[92m".

(** [Boolean(value)]; a number is carried by the text [String] prints. *)
Definition truthyValue (value : option JsValue) : bool :=
  match value with
  | None | Some JNull => false
  | Some (JBool b) => b
  | Some (JNumber text) =>
    negb (bool_decide (text = js "0") || bool_decide (text = js "NaN"))
  | Some (JString s) => negb (bool_decide (s = []))
  | Some (JArray _) | Some (JObject _) => true
  end.

(** [value?.[key]] *)
Definition optionalProperty (value : option JsValue) (key : jsstring)
  : option JsValue :=
  match value with
  | Some v => property v key
  | None => None
  end.

(** [Boolean(channels[channelId]?.enabled)] *)
Definition channelEnabled (channels : option JsValue) (channelId : jsstring) : bool :=
  truthyValue (optionalProperty (optionalProperty channels channelId) (js "enabled")).

Definition hasAnyEnabledChinaChannel (cfg : option JsValue) : bool :=
  let channels := optionalProperty cfg (js "channels") in
  if negb (truthyValue channels) then false
  else existsb (channelEnabled channels) SUPPORTED_CHANNELS.

Record MoltbotPluginApi := {
  api_config : option JsValue;
  logger_info : bool;                   (* api.logger?.info is there *)
  logger_warn : bool;                   (* api.logger?.warn is there *)
  cliApi : ChinaSetup.ApiLike;
}.

Inductive Level := Info | Warn.

Inductive PluginEvent :=
| Logged (level : Level) (line : jsstring)
| EntryRegister (channelId : jsstring).

Record PluginState := {
  hasShownPromoHint : bool;
  events : list PluginEvent;
  cli : ChinaSetup.Process;
}.

Definition initial : PluginState :=
  {| hasShownPromoHint := false; events := []; cli := ChinaSetup.freshProcess |}.

Definition promoLines : list jsstring :=
  [ANSI_BORDER ++ js "━━━━━━━━━━━━━━━━━━━━━━━━━━━━━━━━━━━━━━━━━━━━━━━━━━━━" ++ ANSI_RESET;
   js "  OpenClaw China Channels 已就绪!";
   ANSI_BORDER ++ js "━━━━━━━━━━━━━━━━━━━━━━━━━━━━━━━━━━━━━━━━━━━━━━━━━━━━" ++ ANSI_RESET;
   [];
   js "项目仓库:";
   js "  " ++ ANSI_LINK ++ PROJECT_REPO ++ ANSI_RESET;
   [];
   js "⭐ 如果这个项目对你有帮助，请给我们一个 Star！⭐";
   [];
   js "下一步:";
   js "  " ++ DEBUG_COMMAND].

Definition logAll (level : Level) (st : PluginState) : PluginState :=
  {| hasShownPromoHint := hasShownPromoHint st;
     events := events st ++ map (Logged level) promoLines;
     cli := cli st |}.

Definition showPromoHint (api : MoltbotPluginApi) (st : PluginState) : PluginState :=
  if hasShownPromoHint st || hasAnyEnabledChinaChannel (api_config api) then st
  else
    let st1 := {| hasShownPromoHint := true; events := events st; cli := cli st |} in
    if logger_info api then logAll Info st1
    else if logger_warn api then logAll Warn st1
    else st1.

(** The loop of [registerChannelsByConfig]: the entry of each enabled channel
    is called in turn; an entry that throws ends the loop with its error. *)
Fixpoint registerEnabled (entry : jsstring -> option JsError)
    (channelsConfig : option JsValue) (ids : list jsstring) (st : PluginState)
  : option JsError * PluginState :=
  match ids with
  | [] => (None, st)
  | channelId :: rest =>
    if negb (channelEnabled channelsConfig channelId)
    then registerEnabled entry channelsConfig rest st
    else
      let st1 := {| hasShownPromoHint := hasShownPromoHint st;
                    events := events st ++ [EntryRegister channelId];
                    cli := cli st |} in
      match entry channelId with
      | Some err => (Some err, st1)
      | None => registerEnabled entry channelsConfig rest st1
      end
  end.

(** [cfg ?? api.config] *)
Definition orApiConfig (cfg : option JsValue) (api : MoltbotPluginApi)
  : option JsValue :=
  match cfg with
  | None | Some JNull => api_config api
  | Some c => Some c
  end.

Definition registerChannelsByConfig (entry : jsstring -> option JsError)
    (api : MoltbotPluginApi) (cfg : option JsValue) (st : PluginState)
  : option JsError * PluginState :=
  let config := orApiConfig cfg api in
  let channelsConfig := optionalProperty config (js "channels") in
  if negb (truthyValue channelsConfig) then (None, st)
  else registerEnabled entry channelsConfig SUPPORTED_CHANNELS st.

(** [channelsPlugin.register(api)] *)
Definition register (entry : jsstring -> option JsError)
    (api : MoltbotPluginApi) (st : PluginState) : option JsError * PluginState :=
  let st1 := {| hasShownPromoHint := hasShownPromoHint st;
                events := events st;
                cli := ChinaSetup.registerChinaSetupCli (cliApi api) None (cli st) |} in
  registerChannelsByConfig entry api None (showPromoHint api st1).

Definition isLogged (ev : PluginEvent) : bool :=
  match ev with Logged _ _ => true | _ => false end.

Definition isEntryRegister (ev : PluginEvent) : bool :=
  match ev with EntryRegister _ => true | _ => false end.

Definition registeredIds (evs : list PluginEvent) : list jsstring :=
  omap (fun ev => match ev with EntryRegister c => Some c | _ => None end) evs.

(** The supported channels that a channels configuration enables, in the
    order in which they are tried. *)
Definition enabledIds (channelsConfig : option JsValue) : list jsstring :=
  List.filter (channelEnabled channelsConfig) SUPPORTED_CHANNELS.

(** The configuration [registerChannelsByConfig] reads the channels from. *)
Definition channelsOfConfig (cfg : option JsValue) (api : MoltbotPluginApi)
  : option JsValue :=
  optionalProperty (orApiConfig cfg api) (js "channels").

Definition newPluginEvents (st st' : PluginState) : list PluginEvent :=
  drop (length (events st)) (events st').

Definition banner (level : Level) : list PluginEvent :=
  map (Logged level) promoLines.

(** The plugin registered with one api after another in one process; a call
    that throws leaves the state it reached. *)
Definition registerMany (entry : jsstring -> option JsError)
    (apis : list MoltbotPluginApi) (st : PluginState) : PluginState :=
  fold_left (fun s api => snd (register entry api s)) apis st.

(** What the log holds of the banner: nothing while the flag is unset, and at
    most one banner ever. *)
Definition bannerOnce (st : PluginState) : Prop :=
  (hasShownPromoHint st = false -> List.filter isLogged (events st) = [])
  /\ (List.filter isLogged (events st) = []
      \/ exists level, List.filter isLogged (events st) = banner level).

End ChannelsPlugin.

(** ** More concrete environments *)
Module Scenario2.

(** The same host with another base64 encoder. *)
Definition withBase64 (h : Host) (encode : Buffer -> jsstring) : Host :=
  {| detectMediaType := detectMediaType h;
     stripTitleFromUrl := stripTitleFromUrl h;
     isHttpUrl := isHttpUrl h;
     getAccessToken := getAccessToken h;
     uploadGroupMedia := uploadGroupMedia h;
     uploadC2CMedia := uploadC2CMedia h;
     sendGroupMediaMessage := sendGroupMediaMessage h;
     sendC2CMediaMessage := sendC2CMediaMessage h;
     readMedia := readMedia h;
     require_ffmpeg_static := require_ffmpeg_static h;
     require_silk_wasm := require_silk_wasm h;
     silk_encode := silk_encode h;
     os_tmpdir := os_tmpdir h;
     mkdtempSync := mkdtempSync h;
     execFileSync := execFileSync h;
     readFileSync := readFileSync h;
     rmSync := rmSync h;
     toBase64 := encode;
     JSON_parse := JSON_parse h |}.

Definition emptyFile : Result MediaRead :=
  Ok {| buffer := []; fileName := js "empty.png" |}.

(** A host on which the file read has no bytes and encodes to the empty text. *)
Definition emptyFileHost : Host :=
  withBase64 (Scenario.host emptyFile Scenario.ffmpegWorks RmDone) (fun _ => []).

(** Three plugins register in one process; the host api of the first has no
    [registerCli]. *)
Definition threeCalls : list (ChinaSetup.ApiLike * option (list ChinaSetup.ChannelId)) :=
  [(Scenario.apiWithoutCli, Some [js "qqbot"]);
   (Scenario.apiWithCli 1, Some [js "dingtalk"; js "telegram"]);
   (Scenario.apiWithCli 2, Some [js "wecom"])].

(** A configuration with one channel set up and one key of its own. *)
Definition someConfig : ChinaConfig.Members :=
  [(js "gateway", JObject [(js "port", JNumber (js "18789"))]);
   (js "channels",
    JObject [(js "qqbot",
              JObject [(js "appId", JString (js "1024"));
                       (js "clientSecret", JString (js "s3cret"));
                       (js "enabled", JBool false)])])].

Definition dingtalkPatch : ChinaConfig.Members :=
  [(js "clientId", JString (js "ding-key"));
   (js "clientSecret", JString (js "ding-secret"));
   (js "enableAICard", JBool false)].

End Scenario2.

(** ** [china-setup.ts]: the interactive setup

    The wizard talks to the user through the prompts of clack.  A run is
    taken against a script: the answers the prompts will resolve to, in the
    order they are asked.  What the wizard shows, logs and writes is recorded
    in the order it happens. *)
Module Setup.
Import ChinaConfig.

Definition PROJECT_REPO : jsstring :=
  js "https://github.com/BytePioneer-AI/openclaw-china".

Definition GUIDES_BASE : jsstring :=
  js "https://github.com/BytePioneer-AI/openclaw-china/tree/main/doc/guides".

Definition ANSI_RESET : jsstring := 27%N :: js "[0m".
Definition ANSI_LINK : jsstring := 27%N :: js "[1;4;96m".
Definition ANSI_BORDER : jsstring := 27%N :: js "[92m".

Definition CHANNEL_GUIDE_LINKS : Members :=
  [(js "dingtalk", JString (GUIDES_BASE ++ js "/dingtalk/configuration.md"));
   (js "feishu-china",
    JString (js "https://github.com/BytePioneer-AI/openclaw-china/blob/main/README.md"));
   (js "wecom", JString (GUIDES_BASE ++ js "/wecom/configuration.md"));
   (js "wecom-app", JString (GUIDES_BASE ++ js "/wecom-app/configuration.md"));
   (js "qqbot", JString (GUIDES_BASE ++ js "/qqbot/configuration.md"))].

Definition nl : jsstring := [10%N].

(** [parts.join(sep)] *)
Definition joinWith (sep : jsstring) (parts : list jsstring) : jsstring :=
  match parts with
  | [] => []
  | p :: ps => p ++ concat (map (fun q => sep ++ q) ps)
  end.

(** What the process and the built-ins of the language answer. *)
Record Terminal := {
  stdin_isTTY : bool;
  stdout_isTTY : bool;
  DEFAULT_PLUGIN_PATH : path;
  LEGACY_PLUGIN_PATH : path;
  CONFIG_FILE_PATH : path;
  existsSync : path -> bool;
  (* [Number.parseInt(s, 10)], as the text [String] prints for the number *)
  parseInt10 : jsstring -> jsstring;
  (* [x >= n] for the number that prints as [x] *)
  numberAtLeast : jsstring -> Z -> bool;
}.

(** A prompt of clack resolves to the cancel symbol or to a value, or it
    rejects. *)
Inductive Resolved (T : Type) :=
| CancelSymbol
| Value (v : T).
Arguments CancelSymbol {T}.
Arguments Value {T} v.

Inductive Answer :=
| Resolves (r : Resolved (option JsValue))
| Rejects (e : JsError).

Inductive UiEvent :=
| AskedText (message : jsstring) (initialValue : option jsstring)
| AskedConfirm (message : jsstring) (initialValue : bool)
| AskedSelect (message : jsstring) (options : list (jsstring * jsstring))
              (initialValue : option jsstring)
| Noted (message title : jsstring)
| Intro (title : jsstring)
| Outro (message : jsstring)
| CancelShown (message : jsstring)
| Written (text : jsstring)
| LoggedError (message : jsstring)
| ConfigWritten (cfg : Members).

Record Ui := {
  script : list Answer;
  shown : list UiEvent;
}.

Inductive Outcome (A : Type) :=
| Done (a : A)
| Cancelled                  (* a [PromptCancelledError] is thrown *)
| Failed (e : JsError)       (* another error is thrown *)
| Unanswered.                (* a prompt is open and no answer comes *)
Arguments Done {A} a.
Arguments Cancelled {A}.
Arguments Failed {A} e.
Arguments Unanswered {A}.

Definition Dialog (A : Type) : Type := Ui -> Outcome A * Ui.

#[export] Instance Dialog_ret : MRet Dialog := fun A a ui => (Done a, ui).

#[export] Instance Dialog_bind : MBind Dialog := fun A B f m ui =>
  match m ui with
  | (Done a, ui') => f a ui'
  | (Cancelled, ui') => (Cancelled, ui')
  | (Failed e, ui') => (Failed e, ui')
  | (Unanswered, ui') => (Unanswered, ui')
  end.

Definition stop {A} (o : Outcome A) : Dialog A := fun ui => (o, ui).

Definition say (ev : UiEvent) : Dialog unit := fun ui =>
  (Done tt, {| script := script ui; shown := shown ui ++ [ev] |}).

(** A prompt is shown and the next answer of the script is taken. *)
Definition await (ev : UiEvent) : Dialog (Resolved (option JsValue)) := fun ui =>
  match script ui with
  | [] => (Unanswered, {| script := []; shown := shown ui ++ [ev] |})
  | Resolves r :: rest => (Done r, {| script := rest; shown := shown ui ++ [ev] |})
  | Rejects e :: rest => (Failed e, {| script := rest; shown := shown ui ++ [ev] |})
  end.

Definition clackText (message : jsstring) (initialValue : option jsstring)
  : Dialog (Resolved (option JsValue)) :=
  await (AskedText message initialValue).

Definition clackConfirm (message : jsstring) (initialValue : bool)
  : Dialog (Resolved (option JsValue)) :=
  await (AskedConfirm message initialValue).

(** [select] resolves to the value of one of the options it offers; an answer
    of the script that is none of them leaves the prompt open. *)
Definition clackSelect (message : jsstring) (options : list (jsstring * jsstring))
    (initialValue : option jsstring) : Dialog (Resolved jsstring) :=
  r ← await (AskedSelect message options initialValue);
  match r with
  | CancelSymbol => mret CancelSymbol
  | Value (Some (JString s)) =>
    if bool_decide (s ∈ map fst options) then mret (Value s) else stop Unanswered
  | Value _ => stop Unanswered
  end.

Definition guardCancel {T} (value : Resolved T) : Dialog T :=
  match value with
  | CancelSymbol => say (CancelShown (js "已取消配置。"));; stop Cancelled
  | Value v => mret v
  end.

Definition warn (text : jsstring) : Dialog unit :=
  say (Written (nl ++ js "[warn] " ++ text ++ nl)).

Definition section (title : jsstring) : Dialog unit :=
  say (Written (nl ++ title ++ nl)).

Definition resolvePluginPath (t : Terminal) : path :=
  if existsSync t (DEFAULT_PLUGIN_PATH t) then DEFAULT_PLUGIN_PATH t
  else if existsSync t (LEGACY_PLUGIN_PATH t) then LEGACY_PLUGIN_PATH t
  else DEFAULT_PLUGIN_PATH t.

Definition renderReadyMessage (t : Terminal) : jsstring :=
  joinWith nl
    [ANSI_BORDER ++ js "━━━━━━━━━━━━━━━━━━━━━━━━━━━━━━━━━━━━━━━━━━━━━━━━━━━━" ++ ANSI_RESET;
     js "  OpenClaw China Channels 已就绪!";
     ANSI_BORDER ++ js "━━━━━━━━━━━━━━━━━━━━━━━━━━━━━━━━━━━━━━━━━━━━━━━━━━━━" ++ ANSI_RESET;
     [];
     js "插件路径:";
     js "  " ++ resolvePluginPath t;
     [];
     js "配置文件:";
     js "  " ++ CONFIG_FILE_PATH t;
     [];
     js "更新插件:";
     js "  openclaw plugins update <plugin-id>";
     [];
     js "项目仓库:";
     js "  " ++ ANSI_LINK ++ PROJECT_REPO ++ ANSI_RESET;
     [];
     js "⭐ 如果这个项目对你有帮助，请给我们一个 Star！⭐";
     [];
     js "下一步:";
     js "  openclaw gateway --port 18789 --verbose";
     []].

Definition showReadyMessage (t : Terminal) : Dialog unit :=
  say (Written (nl ++ renderReadyMessage t ++ nl)).

Definition showGuideLink (channelId : jsstring) : Dialog unit :=
  let url := templateText (member channelId CHANNEL_GUIDE_LINKS) in
  say (Noted (js "配置文档：" ++ url) (js "Docs")).

(** A loop whose rounds carry a state: a round ends the loop with a result or
    hands the state to the next round.  [fuel] bounds the rounds. *)
Fixpoint iterate {St A} (fuel : nat) (body : St -> Dialog (St + A)) (s : St)
  : Dialog A :=
  match fuel with
  | O => stop Unanswered
  | S n => fun ui =>
    match body s ui with
    | (Done (inl s'), ui') => iterate n body s' ui'
    | (Done (inr a), ui') => (Done a, ui')
    | (Cancelled, ui') => (Cancelled, ui')
    | (Failed e, ui') => (Failed e, ui')
    | (Unanswered, ui') => (Unanswered, ui')
    end
  end.

(** [while (...) { body }] for a body that takes an answer in every round
    that goes on: there are no more rounds than answers left. *)
Definition loop {St A} (body : St -> Dialog (St + A)) (s : St) : Dialog A :=
  fun ui => iterate (S (length (script ui))) body s ui.

(** *** [SetupPrompter] *)

Definition askText (label : jsstring) (required : bool)
    (defaultValue : option jsstring) : Dialog jsstring :=
  loop (fun _ : unit =>
    r ← clackText label defaultValue;
    v ← guardCancel r;
    let value := trim (templateText v) in
    if truthy (Some value) then mret (inr value)
    else if truthy defaultValue then mret (inr (default [] defaultValue))
    else if negb required then mret (inr [])
    else warn (js "该字段为必填项。");; mret (inl tt)) tt.

Definition askSecret (label : jsstring) (existingValue : option jsstring)
    (required : bool) : Dialog jsstring :=
  askText label required existingValue.

Definition askConfirm (label : jsstring) (defaultValue : bool) : Dialog bool :=
  r ← clackConfirm label defaultValue;
  v ← guardCancel r;
  mret (ChannelsPlugin.truthyValue v).

Definition isFiniteNumber (text : jsstring) : bool :=
  bool_decide (is_Some (toNumber (Some (JNumber text)))).

Definition askNumber (t : Terminal) (label : jsstring) (min : option Z)
    (defaultValue : option jsstring) : Dialog jsstring :=
  loop (fun _ : unit =>
    r ← clackText label defaultValue;
    v ← guardCancel r;
    let raw := trim (templateText v) in
    let parsed := parseInt10 t raw in
    if isFiniteNumber parsed
       && match min with
          | None => true
          | Some m => numberAtLeast t parsed m
          end
    then mret (inr parsed)
    else
      warn (js "请输入有效整数"
            ++ match min with
               | Some m => js "（>= " ++ ofZ m ++ js "）"
               | None => []
               end
            ++ js "。");;
      mret (inl tt)) tt.

Record SelectOption := {
  opt_key : jsstring;
  opt_value : jsstring;
  opt_label : jsstring;
}.

Definition askSelect (message : jsstring) (options : list SelectOption)
    (defaultValue : jsstring) : Dialog jsstring :=
  let initial :=
    if existsb (fun opt => bool_decide (opt_value opt = defaultValue)) options
    then Some defaultValue
    else opt_value <$> head options in
  let selectOptions := map (fun option => (opt_value option, opt_label option)) options in
  r ← clackSelect message selectOptions initial;
  guardCancel r.

(** *** The channels *)

Definition configureDingtalk (cfg : Members) : Dialog Members :=
  section (js "配置 DingTalk（钉钉）");;
  showGuideLink (js "dingtalk");;
  let existing := getChannelConfig cfg (js "dingtalk") in
  clientId ← askText (js "DingTalk clientId（AppKey）") true
                     (toTrimmedString (member (js "clientId") existing));
  clientSecret ← askSecret (js "DingTalk clientSecret（AppSecret）")
                           (toTrimmedString (member (js "clientSecret") existing)) true;
  enableAICard ← askConfirm (js "启用 AI Card 流式回复（推荐关闭，使用非流式）")
                            (toBoolean (member (js "enableAICard") existing) false);
  mret (mergeChannelConfig cfg (js "dingtalk")
          [(js "clientId", JString clientId);
           (js "clientSecret", JString clientSecret);
           (js "enableAICard", JBool enableAICard)]).

Definition configureFeishu (cfg : Members) : Dialog Members :=
  section (js "配置 Feishu（飞书）");;
  showGuideLink (js "feishu-china");;
  let existing := getChannelConfig cfg (js "feishu-china") in
  appId ← askText (js "Feishu appId") true
                  (toTrimmedString (member (js "appId") existing));
  appSecret ← askSecret (js "Feishu appSecret")
                        (toTrimmedString (member (js "appSecret") existing)) true;
  sendMarkdownAsCard ← askConfirm (js "以卡片形式发送 Markdown")
                         (toBoolean (member (js "sendMarkdownAsCard") existing) true);
  mret (mergeChannelConfig cfg (js "feishu-china")
          [(js "appId", JString appId);
           (js "appSecret", JString appSecret);
           (js "sendMarkdownAsCard", JBool sendMarkdownAsCard)]).

Definition configureWecom (cfg : Members) : Dialog Members :=
  section (js "配置 WeCom（企业微信-智能机器人）");;
  showGuideLink (js "wecom");;
  let existing := getChannelConfig cfg (js "wecom") in
  webhookPath ← askText (js "Webhook 路径（需与企业微信后台配置一致，默认 /wecom）") true
                  (Some (default (js "/wecom")
                           (toTrimmedString (member (js "webhookPath") existing))));
  token ← askSecret (js "WeCom token")
                    (toTrimmedString (member (js "token") existing)) true;
  encodingAESKey ← askSecret (js "WeCom encodingAESKey")
                     (toTrimmedString (member (js "encodingAESKey") existing)) true;
  mret (mergeChannelConfig cfg (js "wecom")
          [(js "webhookPath", JString webhookPath);
           (js "token", JString token);
           (js "encodingAESKey", JString encodingAESKey)]).

Definition configureWecomApp (t : Terminal) (cfg : Members) : Dialog Members :=
  section (js "配置 WeCom App（自建应用-可接入微信）");;
  showGuideLink (js "wecom-app");;
  let existing := getChannelConfig cfg (js "wecom-app") in
  let existingAsr := recordOr (member (js "asr") existing) in
  webhookPath ← askText (js "Webhook 路径（需与企业微信后台配置一致，默认 /wecom-app）") true
                  (Some (default (js "/wecom-app")
                           (toTrimmedString (member (js "webhookPath") existing))));
  token ← askSecret (js "WeCom App token")
                    (toTrimmedString (member (js "token") existing)) true;
  encodingAESKey ← askSecret (js "WeCom App encodingAESKey")
                     (toTrimmedString (member (js "encodingAESKey") existing)) true;
  let patch := [(js "webhookPath", JString webhookPath);
                (js "token", JString token);
                (js "encodingAESKey", JString encodingAESKey)] in
  corpId ← askText (js "corpId") true
                   (toTrimmedString (member (js "corpId") existing));
  corpSecret ← askSecret (js "corpSecret")
                 (toTrimmedString (member (js "corpSecret") existing)) true;
  agentId ← askNumber t (js "agentId") (Some 1)
                      (toNumber (member (js "agentId") existing));
  let patch := defineProp (js "corpId") (JString corpId) patch in
  let patch := defineProp (js "corpSecret") (JString corpSecret) patch in
  let patch := defineProp (js "agentId") (JNumber agentId) patch in
  asrEnabled ← askConfirm (js "启用 ASR（支持入站语音自动转文字）")
                          (toBoolean (member (js "enabled") existingAsr) false);
  let asr := [(js "enabled", JBool asrEnabled)] in
  asr ← (if (asrEnabled : bool) then
           say (Noted (joinWith nl
                         [js "ASR 开通方式请查看配置文档：步骤七（可选）：开启语音转文本（ASR）";
                          js "https://github.com/BytePioneer-AI/openclaw-china/blob/main/doc/guides/wecom-app/configuration.md"])
                      (js "提示"));;
           appId ← askText (js "ASR appId（腾讯云）") true
                           (toTrimmedString (member (js "appId") existingAsr));
           let asr := defineProp (js "appId") (JString appId) asr in
           secretId ← askSecret (js "ASR secretId（腾讯云）")
                        (toTrimmedString (member (js "secretId") existingAsr)) true;
           let asr := defineProp (js "secretId") (JString secretId) asr in
           secretKey ← askSecret (js "ASR secretKey（腾讯云）")
                         (toTrimmedString (member (js "secretKey") existingAsr)) true;
           mret (defineProp (js "secretKey") (JString secretKey) asr)
         else mret asr);
  let patch := defineProp (js "asr") (JObject asr) patch in
  mret (mergeChannelConfig cfg (js "wecom-app") patch).

Definition configureQQBot (cfg : Members) : Dialog Members :=
  section (js "配置 QQBot（QQ 机器人）");;
  showGuideLink (js "qqbot");;
  let existing := getChannelConfig cfg (js "qqbot") in
  let existingAsr := recordOr (member (js "asr") existing) in
  appId ← askText (js "QQBot appId") true
                  (toTrimmedString (member (js "appId") existing));
  clientSecret ← askSecret (js "QQBot clientSecret")
                   (toTrimmedString (member (js "clientSecret") existing)) true;
  say (Noted (js "QQ 的 Markdown 体验很好，但需要先申请开通，详情请查看配置文档。")
             (js "提示"));;
  markdownSupport ← askConfirm (js "启用 Markdown 支持")
                      (toBoolean (member (js "markdownSupport") existing) false);
  asrEnabled ← askConfirm (js "启用 ASR（支持入站语音自动转文字）")
                          (toBoolean (member (js "enabled") existingAsr) false);
  let asr := [(js "enabled", JBool asrEnabled)] in
  asr ← (if (asrEnabled : bool) then
           say (Noted (js "ASR 开通方式详情请查看配置文档。") (js "提示"));;
           appId ← askText (js "ASR appId（腾讯云）") true
                           (toTrimmedString (member (js "appId") existingAsr));
           let asr := defineProp (js "appId") (JString appId) asr in
           secretId ← askSecret (js "ASR secretId（腾讯云）")
                        (toTrimmedString (member (js "secretId") existingAsr)) true;
           let asr := defineProp (js "secretId") (JString secretId) asr in
           secretKey ← askSecret (js "ASR secretKey（腾讯云）")
                         (toTrimmedString (member (js "secretKey") existingAsr)) true;
           mret (defineProp (js "secretKey") (JString secretKey) asr)
         else mret asr);
  mret (mergeChannelConfig cfg (js "qqbot")
          [(js "appId", JString appId);
           (js "clientSecret", JString clientSecret);
           (js "markdownSupport", JBool markdownSupport);
           (js "asr", JObject asr)]).

Definition configureSingleChannel (t : Terminal) (channel : jsstring)
    (cfg : Members) : Dialog Members :=
  if decide (channel = js "dingtalk") then configureDingtalk cfg
  else if decide (channel = js "feishu-china") then configureFeishu cfg
  else if decide (channel = js "wecom") then configureWecom cfg
  else if decide (channel = js "wecom-app") then configureWecomApp t cfg
  else if decide (channel = js "qqbot") then configureQQBot cfg
  else mret cfg.

(** *** [runChinaSetup] *)

Record SetupParams := {
  initialConfig : Members;
  (* the writer of the runtime, if it has one, and whether a write fails *)
  writeConfig : option (Members -> option JsError);
  logger_error : bool;                  (* logger.error is there *)
  availableChannels : list jsstring;
}.

(** [params.logger.error?.(message)] *)
Definition logError (params : SetupParams) (message : jsstring) : Dialog unit :=
  if logger_error params then say (LoggedError message) else mret tt.

(** A deep copy of a tree of values is the same tree. *)
Definition cloneConfig (cfg : Members) : Members := cfg.

(** [touched.add(channelId)] on a set kept in insertion order. *)
Definition add (channelId : jsstring) (touched : list jsstring) : list jsstring :=
  if bool_decide (channelId ∈ touched) then touched else touched ++ [channelId].

Definition label (channelId : jsstring) : jsstring :=
  templateText (member channelId CHANNEL_DISPLAY_LABELS).

Definition channelOptions (next : Members) (channels : list jsstring)
  : list SelectOption :=
  imap (fun index channelId =>
          {| opt_key := if decide (index = 0%nat) then js "recommended" else [];
             opt_value := channelId;
             opt_label := withConfiguredSuffix next channelId |})
       channels.

Definition menu (options : list SelectOption) : list SelectOption :=
  options
  ++ [{| opt_key := []; opt_value := js "save"; opt_label := js "保存并退出" |};
      {| opt_key := []; opt_value := js "cancel"; opt_label := js "不保存并退出" |}].

(** One round of the selection loop.  It ends the loop with [None] where the
    code returns, and with the configuration and the channels touched where
    the code leaves the loop. *)
Definition selectRound (t : Terminal) (options : list SelectOption)
    (defaultChannel : jsstring) (state : Members * list jsstring)
  : Dialog (Members * list jsstring + option (Members * list jsstring)) :=
  let '(next, touched) := state in
  selected ← askSelect (js "请选择要配置的渠道") (menu options) defaultChannel;
  if decide (selected = js "cancel") then
    say (CancelShown (js "已取消，未写入任何配置。"));;
    mret (inr None)
  else if decide (selected = js "save") then mret (inr (Some (next, touched)))
  else
    next ← configureSingleChannel t selected next;
    let touched := add selected touched in
    say (Noted (js "已完成：" ++ label selected) (js "完成"));;
    continueLoop ← askConfirm (js "继续配置其他渠道") true;
    if (continueLoop : bool) then mret (inl (next, touched))
    else mret (inr (Some (next, touched))).

(** [await params.writeConfig(next)] *)
Definition callWriteConfig (write : Members -> option JsError) (next : Members)
  : Dialog unit :=
  say (ConfigWritten next);;
  match write next with
  | None => mret tt
  | Some e => stop (Failed e)
  end.

(** [try { body } catch (err) { if (err instanceof PromptCancelledError)
    return; throw err; }] *)
Definition catchCancelled (body : Dialog unit) : Dialog unit := fun ui =>
  match body ui with
  | (Cancelled, ui') => (Done tt, ui')
  | other => other
  end.

Definition runChinaSetup (t : Terminal) (params : SetupParams) : Dialog unit :=
  if negb (stdin_isTTY t) || negb (stdout_isTTY t) then
    logError params (js "交互式配置需要在 TTY 终端中运行。")
  else
    let next := cloneConfig (initialConfig params) in
    catchCancelled (
      say (Intro (js "OpenClaw China 配置向导"));;
      say (Noted (joinWith nl
                    [js "使用方向键选择，按 Enter 确认。";
                     js "项目仓库：" ++ ANSI_LINK ++ PROJECT_REPO ++ ANSI_RESET])
                 (js "欢迎"));;
      if bool_decide (availableChannels params = []) then
        logError params (js "未检测到可配置的 China 渠道插件。")
      else
        let options := channelOptions next (availableChannels params) in
        let defaultChannel := default (js "save") (opt_value <$> head options) in
        left ← loop (selectRound t options defaultChannel) (next, []);
        match left with
        | None => mret tt
        | Some (next, touched) =>
          if bool_decide (touched = []) then
            say (CancelShown (js "未进行任何修改。"))
          else
            say (Noted (js "已配置渠道：" ++ joinWith (js ", ") (map label touched))
                       (js "摘要"));;
            match writeConfig params with
            | None =>
              logError params (js "无法保存配置：当前运行时未提供配置写入能力。")
            | Some write =>
              callWriteConfig write next;;
              say (Outro (js "配置已保存。"));;
              showReadyMessage t
            end
        end).

(** *** The commands of the registered CLI *)

(** The action of [china setup], for the state record its registrar holds. *)
Definition setupAction (t : Terminal) (p : ChinaSetup.Process)
    (r : ChinaSetup.CliRegistration) (ctx_config : option JsValue)
    (write : option (Members -> option JsError)) (logger_has_error : bool)
  : Dialog unit :=
  runChinaSetup t
    {| initialConfig := if isRecord ctx_config then recordOr ctx_config else [];
       writeConfig := write;
       logger_error := logger_has_error;
       availableChannels :=
         ChinaSetupState.getInstalledChannels (ChinaSetup.reg_state r) p |}.

(** The action of [china about]. *)
Definition aboutAction (t : Terminal) (p : ChinaSetup.Process)
    (r : ChinaSetup.CliRegistration) : Dialog unit :=
  let installed := ChinaSetupState.getInstalledChannels (ChinaSetup.reg_state r) p in
  say (Intro (js "OpenClaw China 渠道插件"));;
  say (Noted (if bool_decide (installed = []) then js "OpenClaw China 渠道插件"
              else js "当前已安装渠道：" ++ joinWith (js "、") (map label installed))
             (js "关于"));;
  say (Outro PROJECT_REPO);;
  showReadyMessage t.

(** *** What is observed of a run *)

Definition isConfigWritten (ev : UiEvent) : bool :=
  match ev with
  | ConfigWritten _ => true
  | _ => false
  end.

Definition isCancelShown (ev : UiEvent) : bool :=
  match ev with
  | CancelShown _ => true
  | _ => false
  end.

Definition isPrompt (ev : UiEvent) : bool :=
  match ev with
  | AskedText _ _ | AskedConfirm _ _ | AskedSelect _ _ _ => true
  | _ => false
  end.

(** Neither a write of the configuration nor a cancellation notice. *)
Definition plain (ev : UiEvent) : bool :=
  negb (isConfigWritten ev) && negb (isCancelShown ev).

(** A dialog takes its answers from the front of the script and adds to what
    is shown; [post] says what it adds, for each outcome. *)
Definition follows {A} (m : Dialog A)
    (post : Outcome A -> list UiEvent -> Prop) : Prop :=
  forall ui, exists used new,
    script ui = used ++ script (snd (m ui))
    /\ shown (snd (m ui)) = shown ui ++ new
    /\ post (fst (m ui)) new.

(** What the questions of the prompter add: plain events, closed by the
    cancellation notice of [guardCancel] when the user cancels. *)
Definition asked {A} (o : Outcome A) (new : list UiEvent) : Prop :=
  match o with
  | Cancelled =>
    exists pre, new = pre ++ [CancelShown (js "已取消配置。")]
                /\ forallb plain pre = true
  | _ => forallb plain new = true
  end.

(** The same, for a dialog that may also end, with a result for which [note]
    gives a text, on a cancellation notice of its own with that text. *)
Definition closes {A} (note : A -> option jsstring) (o : Outcome A)
    (new : list UiEvent) : Prop :=
  match o with
  | Done a =>
    match note a with
    | Some message =>
      exists pre, new = pre ++ [CancelShown message] /\ forallb plain pre = true
    | None => forallb plain new = true
    end
  | Cancelled =>
    exists pre, new = pre ++ [CancelShown (js "已取消配置。")]
                /\ forallb plain pre = true
  | _ => forallb plain new = true
  end.

(** The notice of the selection loop when the user leaves without saving. *)
Definition leftNote (left : option (Members * list jsstring)) : option jsstring :=
  match left with
  | None => Some (js "已取消，未写入任何配置。")
  | Some _ => None
  end.

(** What the selection loop keeps true of the configuration it builds and the
    channels it has touched, from the configuration [initial] and the
    channels [available]. *)
Definition built (initial : Members) (available : list jsstring)
    (state : Members * list jsstring) : Prop :=
  let '(next, touched) := state in
  (forall c, c ∈ touched -> c ∈ available)
  /\ (forall c, c ∈ touched ->
                isChannelConfigured next c = true
                /\ member (js "enabled") (getChannelConfig next c) = Some (JBool true))
  /\ (forall c, c ∉ touched -> getChannelConfig next c = getChannelConfig initial c)
  /\ (forall key, key <> js "channels" -> member key next = member key initial).

(** A selection prompt that offers the values [menu], in this order. *)
Definition offers (menu : list jsstring) (ev : UiEvent) : Prop :=
  match ev with
  | AskedSelect _ options _ => map fst options = menu
  | _ => True
  end.

(** Everything a dialog adds is [ok]. *)
Definition keeps {A} (ok : UiEvent -> Prop) (o : Outcome A)
    (new : list UiEvent) : Prop :=
  Forall ok new.

(** A round that hands over to the next one has taken an answer. *)
Definition takesAnswer {St A} (body : St -> Dialog (St + A)) : Prop :=
  forall s ui s',
    fst (body s ui) = Done (inl s') ->
    (length (script (snd (body s ui))) < length (script ui))%nat.

(** The test [askNumber] puts to an answer. *)
Definition accepts (t : Terminal) (min : option Z) (answer : option JsValue) : bool :=
  let parsed := parseInt10 t (trim (templateText answer)) in
  isFiniteNumber parsed
  && match min with
     | None => true
     | Some m => numberAtLeast t parsed m
     end.

(** The prompts resolve to these values, one after the other. *)
Definition resolving (values : list (option JsValue)) : list Answer :=
  map (fun v => Resolves (Value v)) values.

(** What a run adds to what was shown before it. *)
Definition newShown {A} (before : Ui) (run : Outcome A * Ui) : list UiEvent :=
  drop (length (shown before)) (shown (snd run)).

End Setup.

(** ** Concrete dialogs *)
Module Scenario3.
Import ChinaConfig Setup.

(** A terminal, with the answers of [parseInt] for the one number typed in
    these dialogs. *)
Definition terminal : Terminal :=
  {| stdin_isTTY := true;
     stdout_isTTY := true;
     DEFAULT_PLUGIN_PATH := js "/home/bot/.openclaw/extensions";
     LEGACY_PLUGIN_PATH := js "/home/bot/.openclaw/plugins";
     CONFIG_FILE_PATH := js "/home/bot/.openclaw/openclaw.json";
     existsSync := fun _ => true;
     parseInt10 := fun s =>
       if bool_decide (s = js "1000002") then js "1000002" else js "NaN";
     numberAtLeast := fun text m =>
       bool_decide (text = js "1000002") && (m <=? 1000002)%Z |}.

Definition typed (s : jsstring) : Answer := Resolves (Value (Some (JString s))).
Definition pressed (b : bool) : Answer := Resolves (Value (Some (JBool b))).

Definition facing (answers : list Answer) : Ui :=
  {| script := answers; shown := [] |}.

(** A blank answer to a required question, then a real one. *)
Definition secondTry : list Answer := [typed (js "   "); typed (js " app-1 ")].

(** A word, then a number, for the agent id. *)
Definition agentIdAnswers : list Answer := [typed (js "seven"); typed (js " 1000002 ")].

Definition dingtalkAnswers : list Answer :=
  [typed (js " ding-key "); typed (js "ding-secret"); pressed false].

(** DingTalk is chosen and gone through, and the user does not go on. *)
Definition session : list Answer :=
  [typed (js "dingtalk")] ++ dingtalkAnswers ++ [pressed false].

Definition params : SetupParams :=
  {| initialConfig := Scenario2.someConfig;
     writeConfig := Some (fun _ => None);
     logger_error := true;
     availableChannels := [js "dingtalk"; js "qqbot"] |}.

Definition dingtalkTyped : Members :=
  [(js "clientId", JString (js "ding-key"));
   (js "clientSecret", JString (js "ding-secret"));
   (js "enableAICard", JBool false)].

(** The api the unified package is registered with. *)
Definition pluginApi : ChannelsPlugin.MoltbotPluginApi :=
  {| ChannelsPlugin.api_config := None;
     ChannelsPlugin.logger_info := true;
     ChannelsPlugin.logger_warn := false;
     ChannelsPlugin.cliApi := Scenario.apiWithCli 1 |}.

End Scenario3.

(** * Theorems *)

(** ** [sendFileQQBot] *)

Ltac async :=
  unfold mbind, mret, Async_bind, Async_ret, call, throw, try_catch, try_finally;
  cbn beta iota.

(** C2.  A media reference that is classified as a generic file is rejected at
    once: the call throws and leaves the world as it was, so no token was
    asked for, no byte was read and no upload was made.  Which error is
    thrown depends on the account: with both credentials it is the plain
    error that carries the unsupported-type message, and when [appId] or
    [clientSecret] is missing it is the configuration error, which the code
    checks first. *)
Theorem sendFileQQBot_rejects_generic_file
    (h : Host) (params : SendFileQQBotParams) (w : World) :
  resolveQQBotMediaFileType h (stripTitleFromUrl h (mediaUrl params)) = FILE ->
  (exists e, sendFileQQBot h params w = (Throw e, w))
  /\ (configured (cfg params) = true ->
      sendFileQQBot h params w
      = (Throw (Error_ QQBOT_UNSUPPORTED_FILE_TYPE_MESSAGE), w))
  /\ (configured (cfg params) = false ->
      sendFileQQBot h params w
      = (Throw (Error_ (js "QQBot not configured (missing appId/clientSecret)")), w)).
Proof.
  unfold configured, sendFileQQBot. intros Hfile. rewrite Hfile.
  destruct (truthy (appId (cfg params))), (truthy (clientSecret (cfg params)));
    cbn [negb orb andb]; unfold throw;
    (split; [eexists; reflexivity | split; intros Hcfg]);
    first [discriminate Hcfg | reflexivity].
Qed.

Lemma sendFileQQBot_rejects_generic_file_witness :
  sendFileQQBot (Scenario.host Scenario.readable Scenario.ffmpegWorks RmDone)
                (Scenario.sendTo (js "/home/bot/report.pdf")) Scenario.emptyWorld
  = (Throw (Error_ QQBOT_UNSUPPORTED_FILE_TYPE_MESSAGE), Scenario.emptyWorld).
Proof.
  destruct (sendFileQQBot_rejects_generic_file
              (Scenario.host Scenario.readable Scenario.ffmpegWorks RmDone)
              (Scenario.sendTo (js "/home/bot/report.pdf")) Scenario.emptyWorld)
    as (_ & Hconfigured & _); [reflexivity |].
  apply Hconfigured. reflexivity.
Defined.

(** C2, as stated, fails for an account without credentials.  The reference
    is classified as a generic file, and the error that [sendFileQQBot]
    throws is the configuration error, not the unsupported-type error: the
    credentials are looked at before the media class. *)
Lemma sendFileQQBot_generic_file_gets_configuration_error :
  resolveQQBotMediaFileType
    (Scenario.host Scenario.readable Scenario.ffmpegWorks RmDone)
    (stripTitleFromUrl (Scenario.host Scenario.readable Scenario.ffmpegWorks RmDone)
                       (mediaUrl (Scenario.sendWithoutAppId (js "/home/bot/report.pdf"))))
  = FILE
  /\ sendFileQQBot (Scenario.host Scenario.readable Scenario.ffmpegWorks RmDone)
                   (Scenario.sendWithoutAppId (js "/home/bot/report.pdf"))
                   Scenario.emptyWorld
     = (Throw (Error_ (js "QQBot not configured (missing appId/clientSecret)")),
        Scenario.emptyWorld)
  /\ Error_ (js "QQBot not configured (missing appId/clientSecret)")
     <> Error_ QQBOT_UNSUPPORTED_FILE_TYPE_MESSAGE.
Proof.
  split; [vm_compute; reflexivity |].
  split; [vm_compute; reflexivity |].
  intros H. injection H as H. vm_compute in H. discriminate H.
Qed.

(** The transcoder calls the tool chain and the file system only. *)
Lemma convertAudioToSilk_trace (h : Host) (audioPath : path) (w : World) :
  exists evs,
    trace (snd (convertAudioToSilk h audioPath w)) = trace w ++ evs
    /\ existsb isUpload evs = false.
Proof.
  unfold convertAudioToSilk, mkdtemp, execFile, rm. async. unfold emit.
  repeat (case_match; simplify_eq; cbn [snd fst trace fs] in * );
    try (exists []; rewrite app_nil_r; split; reflexivity);
    (eexists; split; [rewrite <- ?app_assoc; reflexivity | reflexivity]).
Qed.

Lemma newEvents_app (w w' : World) (evs : list Event) :
  trace w' = trace w ++ evs -> newEvents w w' = evs.
Proof.
  intros H. unfold newEvents. rewrite H. apply drop_app_length.
Qed.

Lemma existsb_isUpload_app (xs ys : list Event) :
  existsb isUpload xs = false -> existsb isUpload ys = false ->
  existsb isUpload (xs ++ ys) = false.
Proof.
  intros Hx Hy. rewrite existsb_app, Hx, Hy. reflexivity.
Qed.

(** C1, as amended.  A local source whose bytes are fetched through
    [readMedia] (an image, a video, or audio whose transcoding failed) and
    whose size exceeds the budget is rejected: the size error of the reader
    comes back as [Error("QQBot media upload failed: QQBot media exceeds
    limit (N.NNMB)")], and no upload call is made during the send. *)
Theorem sendFileQQBot_rejects_oversized_local
    (h : Host) (params : SendFileQQBotParams) (w : World)
    (tok m : jsstring) (limit : N) :
  configured (cfg params) = true ->
  isHttpUrl h (stripTitleFromUrl h (mediaUrl params)) = false ->
  tokenAnswer h (cfg params) = Ok tok ->
  readsOriginal h (stripTitleFromUrl h (mediaUrl params))
                (emit (tokenCall (cfg params)) w) ->
  readMedia h (stripTitleFromUrl h (mediaUrl params))
            (mediaTimeoutOf (cfg params)) (maxSizeBytesOf (cfg params))
  = Throw (FileSizeLimitError m limit) ->
  fst (sendFileQQBot h params w)
  = Throw (Error_ (js "QQBot media upload failed: "
                   ++ js "QQBot media exceeds limit (" ++ toFixed2MB limit
                   ++ js "MB)"))
  /\ existsb isUpload (newEvents w (snd (sendFileQQBot h params w))) = false.
Proof.
  set (c := cfg params). set (src := stripTitleFromUrl h (mediaUrl params)).
  intros Hcfg Hhttp Htok Hreads Hread.
  unfold configured in Hcfg. apply andb_true_iff in Hcfg as [Ha Hs].
  unfold sendFileQQBot, readsOriginal, tokenAnswer, tokenCall in *.
  fold c. fold src. rewrite Ha, Hs. cbn [negb orb].
  destruct (resolveQQBotMediaFileType h src) eqn:Hty; try contradiction.
  - async. rewrite Htok, Hhttp.
    unfold readMediaWithConfig. async. rewrite Hread. cbn.
    split; [reflexivity |].
    erewrite newEvents_app; [| cbn; rewrite <- app_assoc; reflexivity].
    reflexivity.
  - async. rewrite Htok, Hhttp.
    unfold readMediaWithConfig. async. rewrite Hread. cbn.
    split; [reflexivity |].
    erewrite newEvents_app; [| cbn; rewrite <- app_assoc; reflexivity].
    reflexivity.
  - destruct Hreads as [e He].
    pose proof (convertAudioToSilk_trace h src
                  (emit (CallGetAccessToken (default [] (appId c))
                                            (default [] (clientSecret c))) w))
      as (evs & Htr & Hno).
    async. rewrite Htok, Hhttp.
    destruct (convertAudioToSilk h src _) as [r w1] eqn:Hconv.
    cbn [fst snd] in He, Htr. subst r.
    unfold readMediaWithConfig. async. rewrite Hread. cbn.
    split; [reflexivity |].
    erewrite newEvents_app;
      [| unfold emit; cbn [trace snd]; rewrite Htr; unfold emit; cbn [trace];
         rewrite <- !app_assoc; reflexivity].
    cbn. rewrite existsb_app, Hno. reflexivity.
Qed.

Lemma sendFileQQBot_rejects_oversized_local_witness :
  fst (sendFileQQBot
         (Scenario.host Scenario.tooLarge Scenario.ffmpegWorks RmDone)
         (Scenario.sendTo (js "/home/bot/big.png")) Scenario.emptyWorld)
  = Throw (Error_ (js "QQBot media upload failed: "
                   ++ js "QQBot media exceeds limit (" ++ toFixed2MB 104857600
                   ++ js "MB)"))
  /\ existsb isUpload
       (newEvents Scenario.emptyWorld
          (snd (sendFileQQBot
                  (Scenario.host Scenario.tooLarge Scenario.ffmpegWorks RmDone)
                  (Scenario.sendTo (js "/home/bot/big.png")) Scenario.emptyWorld)))
     = false.
Proof.
  apply (sendFileQQBot_rejects_oversized_local
           (Scenario.host Scenario.tooLarge Scenario.ffmpegWorks RmDone)
           (Scenario.sendTo (js "/home/bot/big.png")) Scenario.emptyWorld
           (js "token-1") (js "file too large") 104857600);
    first [reflexivity | exact I].
Defined.

(** C1, as stated, fails on a remote source.  The content behind the URL is
    larger than the budget (the reader would refuse it with
    [FileSizeLimitError]), yet [sendFileQQBot] hands the URL to the platform:
    an upload call is made and the send succeeds. *)
Lemma sendFileQQBot_uploads_oversized_remote :
  readMedia (Scenario.host Scenario.tooLarge Scenario.ffmpegWorks RmDone)
            (js "https://example.com/big.png")
            (mediaTimeoutOf Scenario.account) (maxSizeBytesOf Scenario.account)
  = Throw (FileSizeLimitError (js "file too large") 104857600)
  /\ fst (sendFileQQBot
            (Scenario.host Scenario.tooLarge Scenario.ffmpegWorks RmDone)
            (Scenario.sendTo (js "https://example.com/big.png"))
            Scenario.emptyWorld)
     = Ok Scenario.receipt
  /\ existsb isUpload
       (newEvents Scenario.emptyWorld
          (snd (sendFileQQBot
                  (Scenario.host Scenario.tooLarge Scenario.ffmpegWorks RmDone)
                  (Scenario.sendTo (js "https://example.com/big.png"))
                  Scenario.emptyWorld)))
     = true.
Proof.
  repeat split; vm_compute; reflexivity.
Qed.

(** C3.  For a local audio source, when [convertAudioToSilk] throws, whatever
    the error, the send goes on exactly as the fallback strategy does from the
    world the transcoder left: the original bytes are read under the
    configured budget and, once read, they are what is uploaded.  The
    transcode error takes no part in the outcome. *)
Theorem sendFileQQBot_falls_back_to_original_audio
    (h : Host) (params : SendFileQQBotParams) (w w1 : World)
    (tok : jsstring) (e : JsError) :
  configured (cfg params) = true ->
  resolveQQBotMediaFileType h (stripTitleFromUrl h (mediaUrl params)) = VOICE ->
  isHttpUrl h (stripTitleFromUrl h (mediaUrl params)) = false ->
  tokenAnswer h (cfg params) = Ok tok ->
  convertAudioToSilk h (stripTitleFromUrl h (mediaUrl params))
                     (emit (tokenCall (cfg params)) w)
  = (Throw e, w1) ->
  sendFileQQBot h params w = FallbackSpec.uploadOriginalBytes h params tok w1
  /\ In (CallReadMedia (stripTitleFromUrl h (mediaUrl params))
                       (mediaTimeoutOf (cfg params)) (maxSizeBytesOf (cfg params)))
        (newEvents w1 (snd (sendFileQQBot h params w)))
  /\ (forall local,
        readMedia h (stripTitleFromUrl h (mediaUrl params))
                  (mediaTimeoutOf (cfg params)) (maxSizeBytesOf (cfg params))
        = Ok local ->
        truthy (Some (toBase64 h (buffer local))) = true ->
        exists ev,
          In ev (newEvents w1 (snd (sendFileQQBot h params w)))
          /\ isUpload ev = true
          /\ uploadedData ev = Some (toBase64 h (buffer local))).
Proof.
  set (c := cfg params). set (src := stripTitleFromUrl h (mediaUrl params)).
  intros Hcfg Hty Hhttp Htok Hconv.
  unfold configured in Hcfg. apply andb_true_iff in Hcfg as [Ha Hs].
  assert (Heq : sendFileQQBot h params w
                = FallbackSpec.uploadOriginalBytes h params tok w1).
  { unfold sendFileQQBot, FallbackSpec.uploadOriginalBytes, tokenAnswer, tokenCall in *.
    fold c. fold src. rewrite Ha, Hs, Hty. cbn [negb orb].
    async. rewrite Htok, Hhttp, Hconv.
    destruct (readMediaWithConfig h src _ _ w1) as [[local |] w2]; reflexivity. }
  split; [exact Heq |]. rewrite Heq. clear Heq Hconv.
  unfold FallbackSpec.uploadOriginalBytes, readMediaWithConfig, uploadQQBotFile.
  fold c. fold src. async. unfold emit.
  split.
  - repeat (case_match; simplify_eq; cbn [fst snd trace] in * );
      (erewrite newEvents_app;
       [| cbn [trace]; rewrite <- ?app_assoc; reflexivity]);
      cbn; auto.
  - intros local Hread Hdata. rewrite Hread.
    destruct (toBase64 h (buffer local)) as [| unit0 units]; [discriminate Hdata |].
    cbn [truthy negb andb].
    repeat (case_match; simplify_eq; cbn [fst snd trace] in * );
      (erewrite newEvents_app;
       [| cbn [trace]; rewrite <- ?app_assoc; reflexivity]);
      (eexists; split; [right; left; reflexivity | split; reflexivity]).
Qed.

Lemma sendFileQQBot_falls_back_to_original_audio_witness :
  sendFileQQBot (Scenario.host Scenario.readable Scenario.ffmpegFails RmDone)
                (Scenario.sendTo (js "/home/bot/voice.mp3")) Scenario.emptyWorld
  = FallbackSpec.uploadOriginalBytes
      (Scenario.host Scenario.readable Scenario.ffmpegFails RmDone)
      (Scenario.sendTo (js "/home/bot/voice.mp3")) (js "token-1")
      (snd (convertAudioToSilk
              (Scenario.host Scenario.readable Scenario.ffmpegFails RmDone)
              (js "/home/bot/voice.mp3")
              (emit (tokenCall Scenario.account) Scenario.emptyWorld))).
Proof.
  apply (sendFileQQBot_falls_back_to_original_audio
           (Scenario.host Scenario.readable Scenario.ffmpegFails RmDone)
           (Scenario.sendTo (js "/home/bot/voice.mp3")) Scenario.emptyWorld _
           (js "token-1") (Error_ (js "Command failed: ffmpeg")));
    try reflexivity.
Defined.

(** ** [convertAudioToSilk] and its temporary directory *)

Lemma under_self (d : path) : under d d.
Proof. left. reflexivity. Qed.

Lemma under_join (d name : path) : under d (path_join d name).
Proof.
  right. unfold strictlyUnder, path_join. exists name.
  rewrite <- app_assoc. reflexivity.
Qed.

Lemma removal_restores (d : path) (before created : gset path) :
  (forall p, p ∈ before -> ¬ under d p) ->
  (forall p, p ∈ created -> under d p) ->
  filter (fun p => ¬ under d p) (before ∪ created) = before.
Proof.
  intros Hfresh Hcreated. apply set_eq. intros p.
  rewrite elem_of_filter, elem_of_union. split.
  - intros [Hnot [Hin | Hin]]; [exact Hin |].
    exfalso. apply Hnot. apply Hcreated, Hin.
  - intros Hin. split; [apply Hfresh, Hin | left; exact Hin].
Qed.

Ltac explode :=
  repeat (case_match; simplify_eq; cbn [fst snd trace fs] in * ).

(** Whenever the directory was created, the last call of the run is its
    removal. *)
Lemma convertAudioToSilk_ends_with_removal
    (h : Host) (audioPath : path) (w : World) (d : path) :
  mkdtempSync h (fs w) (tmpPrefix h) = Ok d ->
  In (CallMkdtemp (tmpPrefix h))
     (newEvents w (snd (convertAudioToSilk h audioPath w))) ->
  last (newEvents w (snd (convertAudioToSilk h audioPath w)))
  = Some (CallRmSync d).
Proof.
  unfold tmpPrefix. intros Hd.
  unfold convertAudioToSilk, mkdtemp, execFile, rm. async. unfold emit.
  destruct (require_ffmpeg_static h) as [ffmpeg |];
    [| cbn; unfold newEvents; rewrite drop_all; intros []].
  destruct (negb (truthy ffmpeg));
    [cbn; unfold newEvents; rewrite drop_all; intros [] |].
  destruct (require_silk_wasm h);
    [| cbn; unfold newEvents; rewrite drop_all; intros []].
  rewrite Hd. explode.
  all: (erewrite newEvents_app;
        [| cbn [trace]; rewrite <- ?app_assoc; reflexivity]).
  all: intros _; reflexivity.
Qed.

(** An error of the removal never reaches the caller. *)
Lemma convertAudioToSilk_swallows_removal_error
    (h : Host) (audioPath : path) (w : World) :
  fst (convertAudioToSilk h audioPath w)
  = fst (convertAudioToSilk (withRemovalDone h) audioPath w).
Proof.
  unfold convertAudioToSilk, mkdtemp, execFile, rm. async. unfold emit.
  cbn [withRemovalDone require_ffmpeg_static require_silk_wasm mkdtempSync
       os_tmpdir execFileSync readFileSync silk_encode rmSync].
  destruct (require_ffmpeg_static h) as [ffmpeg |]; [| reflexivity].
  destruct (negb (truthy ffmpeg)); [reflexivity |].
  destruct (require_silk_wasm h); [| reflexivity].
  destruct (mkdtempSync h (fs w) _) as [d |]; [| reflexivity].
  explode; reflexivity.
Qed.

(** When the removal succeeds the disk is left as it was found. *)
Lemma convertAudioToSilk_frame
    (h : Host) (audioPath : path) (w : World) :
  (forall d, mkdtempSync h (fs w) (tmpPrefix h) = Ok d ->
             forall p, p ∈ fs w -> ¬ under d p) ->
  (forall disk d, rmSync h disk d = RmDone) ->
  fs (snd (convertAudioToSilk h audioPath w)) = fs w.
Proof.
  intros Hfresh Hrm. unfold tmpPrefix in *.
  unfold convertAudioToSilk, mkdtemp, execFile, rm. async. unfold emit.
  destruct (require_ffmpeg_static h) as [ffmpeg |]; [| reflexivity].
  destruct (negb (truthy ffmpeg)); [reflexivity |].
  destruct (require_silk_wasm h); [| reflexivity].
  destruct (mkdtempSync h (fs w) _) as [d |] eqn:Hd; [| reflexivity].
  specialize (Hfresh d eq_refl).
  explode;
    try match goal with
        | H : rmSync h ?disk ?dir = RmThrew _ _ |- _ =>
          rewrite (Hrm disk dir) in H; discriminate H
        end.
  all: try (rewrite <- (assoc_L (∪))).
  all: apply removal_restores; [exact Hfresh |].
  all: intros p Hp; set_unfold; intuition subst;
    auto using under_self, under_join.
Qed.

(** C7, as amended.  Once the temporary directory exists, every exit of
    [convertAudioToSilk] (a result, or an error of ffmpeg, of the read or of
    the encoder) ends with the call [rmSync(tmpDir)]; an error of that call is
    swallowed, so the outcome is the one a successful removal would give; and
    when the removal succeeds the disk is what it was before the call. *)
Theorem convertAudioToSilk_cleanup
    (h : Host) (audioPath : path) (w : World) :
  (forall d, mkdtempSync h (fs w) (tmpPrefix h) = Ok d ->
             forall p, p ∈ fs w -> ¬ under d p) ->
  (forall d, mkdtempSync h (fs w) (tmpPrefix h) = Ok d ->
             In (CallMkdtemp (tmpPrefix h))
                (newEvents w (snd (convertAudioToSilk h audioPath w))) ->
             last (newEvents w (snd (convertAudioToSilk h audioPath w)))
             = Some (CallRmSync d))
  /\ fst (convertAudioToSilk h audioPath w)
     = fst (convertAudioToSilk (withRemovalDone h) audioPath w)
  /\ ((forall disk d, rmSync h disk d = RmDone) ->
      fs (snd (convertAudioToSilk h audioPath w)) = fs w).
Proof.
  intros Hfresh. split; [| split].
  - intros d. apply convertAudioToSilk_ends_with_removal.
  - apply convertAudioToSilk_swallows_removal_error.
  - apply convertAudioToSilk_frame, Hfresh.
Qed.

Lemma convertAudioToSilk_cleanup_witness :
  last (newEvents Scenario.emptyWorld
          (snd (convertAudioToSilk
                  (Scenario.host Scenario.readable Scenario.ffmpegFails RmDone)
                  (js "/home/bot/voice.mp3") Scenario.emptyWorld)))
  = Some (CallRmSync (js "/tmp/qqbot-silk-Ab3xYz"))
  /\ fs (snd (convertAudioToSilk
                (Scenario.host Scenario.readable Scenario.ffmpegFails RmDone)
                (js "/home/bot/voice.mp3") Scenario.emptyWorld))
     = fs Scenario.emptyWorld.
Proof.
  destruct (convertAudioToSilk_cleanup
              (Scenario.host Scenario.readable Scenario.ffmpegFails RmDone)
              (js "/home/bot/voice.mp3") Scenario.emptyWorld)
    as (Hlast & _ & Hframe).
  - intros d _ p Hp. cbn in Hp. set_solver.
  - split.
    + apply Hlast; [reflexivity |]. vm_compute. left. reflexivity.
    + apply Hframe. reflexivity.
Defined.

(** C7, as stated, fails when the removal itself fails: the transcoding
    returns its result, and the directory it created, absent before the call,
    is still on disk with the file ffmpeg wrote. *)
Lemma convertAudioToSilk_leaves_directory_when_removal_fails :
  fst (convertAudioToSilk
         (Scenario.host Scenario.readable Scenario.ffmpegWorks Scenario.removalFails)
         (js "/home/bot/voice.mp3") Scenario.emptyWorld)
  = Ok [1%N; 2%N; 3%N]
  /\ (js "/tmp/qqbot-silk-Ab3xYz" ∉ fs Scenario.emptyWorld)
  /\ (js "/tmp/qqbot-silk-Ab3xYz"
        ∈ fs (snd (convertAudioToSilk
                     (Scenario.host Scenario.readable Scenario.ffmpegWorks
                                    Scenario.removalFails)
                     (js "/home/bot/voice.mp3") Scenario.emptyWorld)))
  /\ (js "/tmp/qqbot-silk-Ab3xYz/audio.pcm"
        ∈ fs (snd (convertAudioToSilk
                     (Scenario.host Scenario.readable Scenario.ffmpegWorks
                                    Scenario.removalFails)
                     (js "/home/bot/voice.mp3") Scenario.emptyWorld))).
Proof.
  split; [reflexivity |].
  split; [cbn; set_solver |].
  split; apply (bool_decide_unpack _); vm_compute; exact I.
Qed.

(** ** [normalizeHttpErrorBody] and [formatQQBotError] *)

Lemma truthy_trimmed (body : jsstring) :
  trim body <> [] -> truthy (trim <$> Some body) = true.
Proof.
  cbn. destruct (trim body); [congruence | reflexivity].
Qed.

(** When the body is a JSON text with a code or a message, the result is the
    summary of those fields, however long they are. *)
Lemma normalizeHttpErrorBody_summary (h : Host) (body summary : jsstring) :
  trim body <> [] ->
  jsonSummary h (trim body) = Some summary ->
  normalizeHttpErrorBody h (Some body) = Some summary.
Proof.
  intros Hne Hsum. unfold normalizeHttpErrorBody.
  rewrite (truthy_trimmed _ Hne).
  change (trim <$> Some body) with (Some (trim body)).
  cbn [negb default from_option id].
  rewrite Hsum. reflexivity.
Qed.




(** ** [registerChinaSetupCli] *)

Section ChinaSetupFacts.
Import ChinaSetup.

Lemma addChannel_frame (state : loc) (channelId : ChannelId) (p : Process) :
  root (addChannel state channelId p) = root p
  /\ objects (addChannel state channelId p) = objects p
  /\ next (addChannel state channelId p) = next p
  /\ cliRegistrations (addChannel state channelId p) = cliRegistrations p.
Proof.
  unfold addChannel. repeat case_match; auto.
Qed.

Lemma addChannels_frame (state : loc) (cs : list ChannelId) (p : Process) :
  let q := fold_left (fun q channelId => addChannel state channelId q) cs p in
  root q = root p /\ objects q = objects p /\ next q = next p
  /\ cliRegistrations q = cliRegistrations p.
Proof.
  revert p. induction cs as [| c cs IH]; intros p; cbn; [auto |].
  destruct (IH (addChannel state c p)) as (Hr & Ho & Hn & Hc).
  destruct (addChannel_frame state c p) as (Hr' & Ho' & Hn' & Hc').
  cbn in *. rewrite Hr, Ho, Hn, Hc. auto.
Qed.

(** Once the shared flag is set, a call registers nothing and leaves it set. *)
Lemma registerChinaSetupCli_flagged (api : ApiLike)
    (channels : option (list ChannelId)) (p : Process) :
  flagged p ->
  flagged (registerChinaSetupCli api channels p)
  /\ cliRegistrations (registerChinaSetupCli api channels p) = cliRegistrations p.
Proof.
  intros (o & s & Hroot & Hobj & Hlt).
  unfold registerChinaSetupCli, getChinaCliState.
  rewrite Hroot, Hobj. cbn [allocObj].
  match goal with
  | |- context [fold_left ?f ?cs ?p1] =>
    pose proof (addChannels_frame (next p) cs p1) as (Hr & Ho & Hn & Hc);
    set (p2 := fold_left f cs p1) in *
  end.
  cbn [root objects sets next cliRegistrations setRoot] in Hr, Ho, Hn, Hc.
  assert (Hread : readCliRegistered (next p) p2 = true).
  { unfold readCliRegistered. rewrite Ho, lookup_insert_eq. reflexivity. }
  rewrite Hread. cbn [orb]. split; [| exact Hc].
  exists o, s. rewrite Hr, Ho, Hn. repeat split; [exact Hroot | | lia].
  rewrite lookup_insert_ne; [exact Hobj | lia].
Qed.

Lemma registerAll_flagged (calls : list (ApiLike * option (list ChannelId)))
    (p : Process) :
  flagged p ->
  cliRegistrations (registerAll calls p) = cliRegistrations p.
Proof.
  revert p. induction calls as [| [api ch] calls IH]; intros p Hp; [reflexivity |].
  unfold registerAll in *. cbn [fold_left fst snd].
  destruct (registerChinaSetupCli_flagged api ch p Hp) as [Hflag Hsame].
  rewrite (IH _ Hflag). exact Hsame.
Qed.

(** In a fresh process whose first call already finds [registerCli], the CLI
    is registered by that call and by no later one. *)
Lemma registerAll_once_when_first_call_registers
    (api : ApiLike) (channels : option (list ChannelId))
    (calls : list (ApiLike * option (list ChannelId))) :
  registerCli_is_function api = true ->
  length (cliRegistrations (registerAll ((api, channels) :: calls) freshProcess))
  = 1%nat.
Proof.
  intros Hfun. unfold registerAll. cbn [fold_left fst snd].
  fold (registerAll calls (registerChinaSetupCli api channels freshProcess)).
  rewrite registerAll_flagged.
  - unfold registerChinaSetupCli, getChinaCliState, freshProcess.
    cbn [root createState allocSet allocObj setRoot next objects sets
         cliRegistrations].
    match goal with
    | |- context [fold_left ?f ?cs ?p1] =>
      pose proof (addChannels_frame 1%nat cs p1) as (Hr & Ho & Hn & Hc);
      set (p2 := fold_left f cs p1) in *
    end.
    cbn [root objects sets next cliRegistrations setRoot] in Hr, Ho, Hn, Hc.
    assert (Hread : readCliRegistered 1%nat p2 = false).
    { unfold readCliRegistered. rewrite Ho, lookup_insert_eq. reflexivity. }
    rewrite Hread, Hfun. cbn [orb negb callRegisterCli cliRegistrations].
    unfold markCliRegistered. rewrite Ho, lookup_insert_eq.
    cbn [cliRegistrations]. rewrite Hc. reflexivity.
  - unfold registerChinaSetupCli, getChinaCliState, freshProcess.
    cbn [root createState allocSet allocObj setRoot next objects sets
         cliRegistrations].
    match goal with
    | |- context [fold_left ?f ?cs ?p1] =>
      pose proof (addChannels_frame 1%nat cs p1) as (Hr & Ho & Hn & Hc);
      set (p2 := fold_left f cs p1) in *
    end.
    cbn [root objects sets next cliRegistrations setRoot] in Hr, Ho, Hn, Hc.
    assert (Hread : readCliRegistered 1%nat p2 = false).
    { unfold readCliRegistered. rewrite Ho, lookup_insert_eq. reflexivity. }
    rewrite Hread, Hfun. cbn [orb negb].
    exists 1%nat, 0%nat. unfold callRegisterCli, markCliRegistered.
    rewrite Ho, lookup_insert_eq. cbn [root objects next o_channels].
    rewrite Hr, Hn. split; [reflexivity |]. split; [| lia].
    rewrite lookup_insert_eq. reflexivity.
Qed.

(** C10.  The CLI is meant to be registered once per process, and is not:
    a first call whose api has no [registerCli] creates the shared state, and
    of the two calls that follow each works on a copy of it, sets the flag of
    its copy and registers the CLI.  The shared flag is still unset after the
    three calls, while the channel set, held by reference, is shared. *)
Theorem registerChinaSetupCli_registers_cli_twice :
  cliRegistrations
    (registerAll [(Scenario.apiWithoutCli, Some [js "dingtalk"]);
                  (Scenario.apiWithCli 1, Some [js "qqbot"]);
                  (Scenario.apiWithCli 2, Some [js "wecom"])]
                 freshProcess)
  = [{| reg_api := 1%nat; reg_state := 2%nat |};
     {| reg_api := 2%nat; reg_state := 3%nat |}]
  /\ sharedCliRegistered
       (registerAll [(Scenario.apiWithoutCli, Some [js "dingtalk"]);
                     (Scenario.apiWithCli 1, Some [js "qqbot"]);
                     (Scenario.apiWithCli 2, Some [js "wecom"])]
                    freshProcess)
     = false
  /\ sharedChannels
       (registerAll [(Scenario.apiWithoutCli, Some [js "dingtalk"]);
                     (Scenario.apiWithCli 1, Some [js "qqbot"]);
                     (Scenario.apiWithCli 2, Some [js "wecom"])]
                    freshProcess)
     = {[js "dingtalk"; js "qqbot"; js "wecom"]}.
Proof.
  split; [vm_compute; reflexivity |].
  split; [vm_compute; reflexivity |].
  apply set_eq. intros c.
  rewrite <- (bool_decide_spec (c ∈ sharedChannels _)).
  rewrite <- (bool_decide_spec (c ∈ ({[js "dingtalk"; js "qqbot"; js "wecom"]} : gset ChannelId))).
  destruct (decide (c = js "dingtalk")) as [-> | H1]; [vm_compute; tauto |].
  destruct (decide (c = js "qqbot")) as [-> | H2]; [vm_compute; tauto |].
  destruct (decide (c = js "wecom")) as [-> | H3]; [vm_compute; tauto |].
  rewrite !bool_decide_spec. cbn. set_solver.
Qed.

End ChinaSetupFacts.

(** ** The outbound policy *)

Section OutboundFacts.
Import Outbound.

(** C4.  With [replyFinalOnly] enabled, a non-final event that has media is
    delivered with its text suppressed, one without media is skipped, and a
    final event is never skipped, whatever the flag. *)
Theorem evaluateReplyFinalOnlyDelivery_final_only (p : DeliveryParams) :
  (replyFinalOnly p = true -> kind p <> js "final" -> hasMedia p = true ->
   evaluateReplyFinalOnlyDelivery p
   = {| skipDelivery := false; suppressText := true |})
  /\ (replyFinalOnly p = true -> kind p <> js "final" -> hasMedia p = false ->
      evaluateReplyFinalOnlyDelivery p
      = {| skipDelivery := true; suppressText := false |})
  /\ (kind p = js "final" ->
      skipDelivery (evaluateReplyFinalOnlyDelivery p) = false).
Proof.
  unfold evaluateReplyFinalOnlyDelivery. repeat split.
  - intros -> Hkind ->. cbn [negb]. rewrite bool_decide_eq_false_2; auto.
  - intros -> Hkind ->. cbn [negb]. rewrite bool_decide_eq_false_2; auto.
  - intros Hkind. destruct (replyFinalOnly p); cbn [negb]; [| reflexivity].
    rewrite bool_decide_eq_true_2; auto.
Qed.

Lemma evaluateReplyFinalOnlyDelivery_final_only_witness :
  evaluateReplyFinalOnlyDelivery
    {| replyFinalOnly := true; kind := js "tool"; hasMedia := true;
       sanitizedText := js "x" |}
  = {| skipDelivery := false; suppressText := true |}
  /\ evaluateReplyFinalOnlyDelivery
       {| replyFinalOnly := true; kind := js "tool"; hasMedia := false;
          sanitizedText := js "x" |}
     = {| skipDelivery := true; suppressText := false |}
  /\ skipDelivery
       (evaluateReplyFinalOnlyDelivery
          {| replyFinalOnly := true; kind := js "final"; hasMedia := false;
             sanitizedText := [] |})
     = false.
Proof.
  split; [| split].
  - apply (proj1 (evaluateReplyFinalOnlyDelivery_final_only _));
      [reflexivity | vm_compute; discriminate | reflexivity].
  - apply (proj1 (proj2 (evaluateReplyFinalOnlyDelivery_final_only _)));
      [reflexivity | vm_compute; discriminate | reflexivity].
  - apply (proj2 (proj2 (evaluateReplyFinalOnlyDelivery_final_only _))).
    reflexivity.
Defined.

Lemma startsWith_refl (s : jsstring) : startsWith s s = true.
Proof.
  induction s as [| c s IH]; [reflexivity |].
  cbn. rewrite N.eqb_refl. exact IH.
Qed.


Lemma occurs_refl (s : jsstring) : occurs s s = true.
Proof.
  destruct s as [| c s]; [reflexivity |].
  cbn [occurs]. rewrite startsWith_refl. reflexivity.
Qed.

(** C6.  With a single queued media item whose send fails and a text path
    that works, the orchestrator makes exactly one media attempt, sends
    exactly one text message, whose text contains the source reference, and
    logs exactly one upload-failure entry and no send-failure entry. *)
Theorem sendQQBotMediaWithFallback_single_failure
    (p : FallbackParams) (mediaUrl reason : jsstring) :
  mediaQueue p = [mediaUrl] ->
  error (sendMedia (outbound p) (to p) mediaUrl (replyToId p)) = Some reason ->
  (forall text, error (sendText (outbound p) (to p) text (replyToId p)) = None) ->
  count isMediaAttempt (sendQQBotMediaWithFallback p) = 1%nat
  /\ (exists text,
        List.filter isTextSend (sendQQBotMediaWithFallback p) = [TextSend (to p) text]
        /\ occurs mediaUrl text = true)
  /\ count isUploadFailureLog (sendQQBotMediaWithFallback p) = 1%nat
  /\ count isSendFailureLog (sendQQBotMediaWithFallback p) = 0%nat.
Proof.
  intros Hqueue Hmedia Htext.
  unfold sendQQBotMediaWithFallback. rewrite Hqueue.
  cbn [attemptQueue]. rewrite Hmedia. rewrite Htext.
  unfold count, uploadFailureLog.
  cbn [app List.filter isMediaAttempt isTextSend isUploadFailureLog
       isSendFailureLog joinLines map concat length].
  assert (Hyes : startsWith (js "sendMedia failed") (js "sendMedia failed: " ++ reason)
                 = true) by reflexivity.
  assert (Hno : startsWith (js "sendText failed") (js "sendMedia failed: " ++ reason)
                = false) by reflexivity.
  rewrite Hyes, Hno. cbn [length].
  repeat split.
  exists (mediaUrl ++ []). split; [reflexivity |].
  rewrite app_nil_r. apply occurs_refl.
Qed.

Lemma sendQQBotMediaWithFallback_single_failure_witness :
  count isMediaAttempt (sendQQBotMediaWithFallback Scenario.fallbackCall) = 1%nat
  /\ (exists text,
        List.filter isTextSend (sendQQBotMediaWithFallback Scenario.fallbackCall)
        = [TextSend (js "user:123") text]
        /\ occurs (js "https://example.com/a.mp3") text = true)
  /\ count isUploadFailureLog (sendQQBotMediaWithFallback Scenario.fallbackCall)
     = 1%nat
  /\ count isSendFailureLog (sendQQBotMediaWithFallback Scenario.fallbackCall)
     = 0%nat.
Proof.
  apply (sendQQBotMediaWithFallback_single_failure
           Scenario.fallbackCall (js "https://example.com/a.mp3")
           (js "upload failed")).
  - reflexivity.
  - reflexivity.
  - intros text. reflexivity.
Defined.

End OutboundFacts.

(** ** The sanitizer *)

Section SanitizeFacts.
Import Outbound.




Lemma trimStart_suffix (s : jsstring) : exists x, s = x ++ trimStart s.
Proof.
  induction s as [| c s [x IH]]; [exists []; reflexivity |].
  cbn [trimStart]. destruct (isTrimSpace c).
  - exists (c :: x). cbn. rewrite <- IH. reflexivity.
  - exists []. reflexivity.
Qed.































End SanitizeFacts.

(** ** The token cache: single flight *)

Section TokenCacheFacts.
Import TokenCache.
Variable margin : Z.

Lemma waitersAfter_app (before : option (list Caller)) (c1 c2 : list Caller) :
  waitersAfter (waitersAfter before c1) c2 = waitersAfter before (c1 ++ c2).
Proof.
  destruct before as [ws |], c1 as [| a c1], c2 as [| b c2]; cbn;
    rewrite ?app_nil_r, <- ?app_assoc; reflexivity.
Qed.

Lemma refreshesStarted_app (before : option (list Caller)) (c1 c2 : list Caller) :
  (refreshesStarted before c1 + refreshesStarted (waitersAfter before c1) c2
   = refreshesStarted before (c1 ++ c2))%nat.
Proof.
  destruct before as [ws |], c1 as [| a c1], c2 as [| b c2]; reflexivity.
Qed.

Lemma refreshCount_snoc (k k' : AccountKey) (s : Cache) (rs : list AccountKey) :
  refreshes s = rs ++ [k'] ->
  refreshCount k s
  = (length (List.filter (fun x => bool_decide (x = k)) rs)
     + if decide (k' = k) then 1 else 0)%nat.
Proof.
  intros H. unfold refreshCount. rewrite H, List.filter_app, length_app.
  cbn [List.filter]. destruct (decide (k' = k)) as [-> | Hne].
  - rewrite bool_decide_eq_true_2 by reflexivity. reflexivity.
  - rewrite bool_decide_eq_false_2 by exact Hne. reflexivity.
Qed.

Lemma repliesFor_app (k : AccountKey) (s : Cache)
    (old new : list (Caller * AccountKey * Reply)) :
  replies s = old ++ new ->
  repliesFor k s
  = map (fun r => (fst (fst r), snd r))
        (List.filter (fun r => bool_decide (snd (fst r) = k)) old)
    ++ map (fun r => (fst (fst r), snd r))
           (List.filter (fun r => bool_decide (snd (fst r) = k)) new).
Proof.
  intros H. unfold repliesFor. rewrite H, List.filter_app, map_app. reflexivity.
Qed.

Lemma replies_of_key (k k' : AccountKey) (r : Reply) (ws : list Caller) :
  map (fun x : Caller * AccountKey * Reply => (fst (fst x), snd x))
      (List.filter (fun x => bool_decide (snd (fst x) = k))
                   (map (fun c => (c, k', r)) ws))
  = if decide (k' = k) then map (fun c => (c, r)) ws else [].
Proof.
  induction ws as [| c ws IH]; [destruct (decide (k' = k)); reflexivity |].
  cbn [map List.filter fst snd].
  destruct (decide (k' = k)) as [-> | Hne].
  - rewrite bool_decide_eq_true_2 by reflexivity. cbn [map fst snd].
    rewrite IH. reflexivity.
  - rewrite bool_decide_eq_false_2 by exact Hne. exact IH.
Qed.

Lemma cachedValue_stale (s s1 : Cache) (k : AccountKey) (now : Z) :
  entries s1 !! k = entries s !! k \/ entries s1 !! k = None ->
  cachedValue s k now = None -> cachedValue s1 k now = None.
Proof.
  unfold cachedValue. intros [-> | ->]; auto.
Qed.

Lemma mustRefresh_stale (s s1 : Cache) (k : AccountKey) (es : list Step) :
  entries s1 !! k = entries s !! k \/ entries s1 !! k = None ->
  mustRefresh s k es = true -> mustRefresh s1 k es = true.
Proof.
  intros Hent. induction es as [| e es IH]; [reflexivity |].
  destruct e as [c k' now | k' o now | k' |]; cbn [mustRefresh]; auto.
  intros H. apply andb_true_iff in H as [Hhd Htl].
  rewrite (IH Htl), andb_true_r.
  destruct (decide (k' = k)); [| reflexivity].
  apply bool_decide_eq_true in Hhd. apply bool_decide_eq_true.
  eapply cachedValue_stale; eauto.
Qed.

(** One step within the window of [k]. *)
Lemma step_window (k : AccountKey) (s : Cache) (e : Step) :
  withinWindow k [e] = true ->
  mustRefresh s k [e] = true ->
  repliesFor k (step margin s e) = repliesFor k s
  /\ (entries (step margin s e) !! k = entries s !! k
      \/ entries (step margin s e) !! k = None)
  /\ inflight (step margin s e) !! k
     = waitersAfter (inflight s !! k) (callersOf k [e])
  /\ refreshCount k (step margin s e)
     = (refreshCount k s + refreshesStarted (inflight s !! k) (callersOf k [e]))%nat.
Proof.
  intros Hwin Hstale.
  destruct e as [c k' now | k' o now | k' |]; cbn [withinWindow mustRefresh callersOf] in *.
  - rewrite andb_true_r in Hstale.
    destruct (decide (k' = k)) as [-> | Hne].
    + apply bool_decide_eq_true in Hstale. cbn [step]. rewrite Hstale.
      destruct (inflight s !! k) as [ws |] eqn:Hfl; cbn [replies entries inflight].
      * repeat split; [left; reflexivity | apply lookup_insert_eq |].
        unfold refreshCount. cbn [refreshes refreshesStarted]. lia.
      * repeat split; [left; reflexivity | apply lookup_insert_eq |].
        rewrite (refreshCount_snoc k k _ (refreshes s)) by reflexivity.
        rewrite decide_True by reflexivity. reflexivity.
    + cbn [step]. destruct (cachedValue s k' now) as [tok |].
      * split.
        { rewrite (repliesFor_app k _ (replies s) [(c, k', Token tok)]) by reflexivity.
          cbn [List.filter fst snd]. rewrite bool_decide_eq_false_2 by exact Hne.
          cbn [map]. rewrite app_nil_r. reflexivity. }
        cbn [entries inflight].
        split; [left; reflexivity |].
        split; [destruct (inflight s !! k); cbn; rewrite ?app_nil_r; reflexivity |].
        unfold refreshCount. cbn [refreshes].
        destruct (inflight s !! k); cbn; lia.
      * destruct (inflight s !! k') as [ws' |].
        -- cbn [replies entries inflight]. repeat split; [left; reflexivity | |].
           ++ rewrite lookup_insert_ne by exact Hne.
              destruct (inflight s !! k); cbn; rewrite ?app_nil_r; reflexivity.
           ++ unfold refreshCount. cbn [refreshes].
              destruct (inflight s !! k); cbn; lia.
        -- cbn [replies entries inflight]. repeat split; [left; reflexivity | |].
           ++ rewrite lookup_insert_ne by exact Hne.
              destruct (inflight s !! k); cbn; rewrite ?app_nil_r; reflexivity.
           ++ rewrite (refreshCount_snoc k k' _ (refreshes s)) by reflexivity.
              rewrite decide_False by exact Hne.
              unfold refreshCount. destruct (inflight s !! k); cbn; lia.
  - rewrite andb_true_r in Hwin. apply negb_true_iff, bool_decide_eq_false in Hwin.
    cbn [step]. destruct (inflight s !! k') as [ws' |].
    + split.
      { rewrite (repliesFor_app k _ (replies s) (map (fun c => (c, k', replyOf o)) ws'))
          by reflexivity.
        rewrite replies_of_key, decide_False by exact Hwin.
        rewrite app_nil_r. reflexivity. }
      cbn [entries inflight refreshes].
      split.
      { destruct o; [rewrite lookup_insert_ne by exact Hwin |]; left; reflexivity. }
      split.
      { rewrite lookup_delete_ne by exact Hwin.
        destruct (inflight s !! k); cbn; rewrite ?app_nil_r; reflexivity. }
      unfold refreshCount. cbn [refreshes]. destruct (inflight s !! k); cbn; lia.
    + repeat split; [left; reflexivity | |].
      * destruct (inflight s !! k); cbn; rewrite ?app_nil_r; reflexivity.
      * destruct (inflight s !! k); cbn; lia.
  - cbn [step replies entries inflight]. repeat split.
    + destruct (decide (k' = k)) as [-> | Hne];
        [right; apply lookup_delete_eq | left; apply lookup_delete_ne; exact Hne].
    + destruct (inflight s !! k); cbn; rewrite ?app_nil_r; reflexivity.
    + unfold refreshCount. cbn [refreshes]. destruct (inflight s !! k); cbn; lia.
  - cbn [step replies entries inflight]. repeat split.
    + right. apply lookup_empty.
    + destruct (inflight s !! k); cbn; rewrite ?app_nil_r; reflexivity.
    + unfold refreshCount. cbn [refreshes]. destruct (inflight s !! k); cbn; lia.
Qed.


Lemma callersOf_cons (k : AccountKey) (e : Step) (es : list Step) :
  callersOf k (e :: es) = callersOf k [e] ++ callersOf k es.
Proof.
  destruct e as [c k' now | | |]; cbn [callersOf]; try reflexivity.
  destruct (decide (k' = k)); reflexivity.
Qed.

Lemma withinWindow_cons (k : AccountKey) (e : Step) (es : list Step) :
  withinWindow k (e :: es) = withinWindow k [e] && withinWindow k es.
Proof.
  destruct e; cbn [withinWindow]; rewrite ?andb_true_r; reflexivity.
Qed.

Lemma mustRefresh_cons (s : Cache) (k : AccountKey) (e : Step) (es : list Step) :
  mustRefresh s k (e :: es) = mustRefresh s k [e] && mustRefresh s k es.
Proof.
  destruct e; cbn [mustRefresh]; rewrite ?andb_true_r; reflexivity.
Qed.

(** A run of steps within the window of [k]: nothing is replied for [k], the
    callers for [k] queue up behind one refresh, and at most one round-trip is
    started, none when one was in flight already. *)
Lemma run_window (k : AccountKey) (es : list Step) :
  forall s,
    withinWindow k es = true ->
    mustRefresh s k es = true ->
    repliesFor k (run margin s es) = repliesFor k s
    /\ (entries (run margin s es) !! k = entries s !! k
        \/ entries (run margin s es) !! k = None)
    /\ inflight (run margin s es) !! k
       = waitersAfter (inflight s !! k) (callersOf k es)
    /\ refreshCount k (run margin s es)
       = (refreshCount k s + refreshesStarted (inflight s !! k) (callersOf k es))%nat.
Proof.
  induction es as [| e es IH]; intros s Hwin Hstale.
  - cbn [run fold_left callersOf]. repeat split; [left; reflexivity | |].
    + destruct (inflight s !! k); cbn; rewrite ?app_nil_r; reflexivity.
    + destruct (inflight s !! k); cbn; lia.
  - rewrite withinWindow_cons in Hwin. apply andb_true_iff in Hwin as [Hw1 Hw].
    rewrite mustRefresh_cons in Hstale. apply andb_true_iff in Hstale as [Hs1 Hs].
    destruct (step_window k s e Hw1 Hs1) as (Hrep1 & Hent1 & Hfl1 & Hcnt1).
    destruct (IH (step margin s e) Hw (mustRefresh_stale _ _ _ _ Hent1 Hs))
      as (Hrep & Hent & Hfl & Hcnt).
    change (run margin s (e :: es)) with (run margin (step margin s e) es).
    rewrite callersOf_cons.
    split; [rewrite Hrep; exact Hrep1 |].
    split.
    { destruct Hent as [Hent | Hent]; [| right; exact Hent].
      rewrite Hent. exact Hent1. }
    split.
    { rewrite Hfl, Hfl1. apply waitersAfter_app. }
    rewrite Hcnt, Hcnt1, Hfl1, <- refreshesStarted_app. lia.
Qed.

Lemma run_app (s : Cache) (es1 es2 : list Step) :
  run margin s (es1 ++ es2) = run margin (run margin s es1) es2.
Proof.
  unfold run. apply fold_left_app.
Qed.

(** C9.  Within one refresh window of an account key (no refresh for the key
    in flight at its start, none coming back before its end, and no valid
    token to serve), the callers that ask for the key cause exactly one
    network round-trip, and when it comes back each of them, and nobody else,
    receives its outcome: the same token or the same failure. *)
Theorem getToken_single_flight
    (s : Cache) (k : AccountKey) (es : list Step) (o : RefreshOutcome) (now : Z) :
  inflight s !! k = None ->
  withinWindow k es = true ->
  mustRefresh s k es = true ->
  callersOf k es <> [] ->
  refreshCount k (run margin s (es ++ [RefreshDone k o now]))
  = S (refreshCount k s)
  /\ repliesFor k (run margin s (es ++ [RefreshDone k o now]))
     = repliesFor k s ++ map (fun c => (c, replyOf o)) (callersOf k es).
Proof.
  intros Hidle Hwin Hstale Hcallers.
  destruct (run_window k es s Hwin Hstale) as (Hrep & _ & Hfl & Hcnt).
  rewrite Hidle in Hfl, Hcnt.
  destruct (callersOf k es) as [| c cs] eqn:Hcs; [congruence |].
  cbn [waitersAfter refreshesStarted] in Hfl, Hcnt.
  rewrite run_app. cbn [run fold_left step]. fold (run margin s es).
  rewrite Hfl. split.
  - unfold refreshCount in *. cbn [refreshes]. rewrite Hcnt. lia.
  - rewrite (repliesFor_app k _ (replies (run margin s es))
               (map (fun c0 => (c0, k, replyOf o)) (c :: cs))) by reflexivity.
    rewrite replies_of_key, decide_True by reflexivity.
    unfold repliesFor in Hrep. rewrite Hrep. reflexivity.
Qed.

End TokenCacheFacts.

Lemma getToken_single_flight_witness :
  TokenCache.refreshCount Scenario.tokenKey
    (TokenCache.run 60 TokenCache.init
       (Scenario.window
        ++ [TokenCache.RefreshDone Scenario.tokenKey
              (TokenCache.Refreshed (js "token-1") 7200) 9]))
  = 1%nat
  /\ TokenCache.repliesFor Scenario.tokenKey
       (TokenCache.run 60 TokenCache.init
          (Scenario.window
           ++ [TokenCache.RefreshDone Scenario.tokenKey
                 (TokenCache.Refreshed (js "token-1") 7200) 9]))
     = [(1%nat, TokenCache.Token (js "token-1"));
        (2%nat, TokenCache.Token (js "token-1"));
        (3%nat, TokenCache.Token (js "token-1"))].
Proof.
  apply (getToken_single_flight 60 TokenCache.init Scenario.tokenKey
           Scenario.window (TokenCache.Refreshed (js "token-1") 7200) 9).
  - reflexivity.
  - reflexivity.
  - reflexivity.
  - vm_compute. discriminate.
Defined.

(** ** The upload path wraps what it catches *)

(** An error thrown by the platform while a remote source is uploaded reaches
    the caller as [Error("QQBot media upload failed: " + formatQQBotError)],
    after the upload call and before any send. *)
Lemma sendFileQQBot_wraps_upload_error
    (h : Host) (params : SendFileQQBotParams) (w : World)
    (tok : jsstring) (err : JsError) :
  configured (cfg params) = true ->
  resolveQQBotMediaFileType h (stripTitleFromUrl h (mediaUrl params)) <> FILE ->
  isHttpUrl h (stripTitleFromUrl h (mediaUrl params)) = true ->
  truthy (Some (stripTitleFromUrl h (mediaUrl params))) = true ->
  tokenAnswer h (cfg params) = Ok tok ->
  (forall args, uploadGroupMedia h args = Throw err) ->
  (forall args, uploadC2CMedia h args = Throw err) ->
  fst (sendFileQQBot h params w)
  = Throw (Error_ (js "QQBot media upload failed: " ++ formatQQBotError h err)).
Proof.
  set (c := cfg params). set (src := stripTitleFromUrl h (mediaUrl params)).
  intros Hcfg Hty Hhttp Hsrc Htok Hgroup Hc2c.
  unfold configured in Hcfg. apply andb_true_iff in Hcfg as [Ha Hs].
  unfold sendFileQQBot, tokenAnswer in *. fold c. fold src.
  rewrite Ha, Hs. cbn [negb orb].
  destruct (resolveQQBotMediaFileType h src); try congruence;
    async; rewrite Htok, Hhttp; unfold uploadQQBotFile; async;
    rewrite Hsrc; cbn [negb andb];
    destruct (target_kind (target params));
    rewrite ?Hgroup, ?Hc2c; reflexivity.
Qed.

(** ** The models against the test suites of [bot.ts] *)

(** The four cases of the suite of [evaluateReplyFinalOnlyDelivery]. *)
Example evaluateReplyFinalOnlyDelivery_suite :
  Outbound.evaluateReplyFinalOnlyDelivery
    {| Outbound.replyFinalOnly := true; Outbound.kind := js "tool";
       Outbound.hasMedia := true; Outbound.sanitizedText := js "语音说明" |}
  = {| Outbound.skipDelivery := false; Outbound.suppressText := true |}
  /\ Outbound.evaluateReplyFinalOnlyDelivery
       {| Outbound.replyFinalOnly := true; Outbound.kind := js "tool";
          Outbound.hasMedia := false; Outbound.sanitizedText := js "仅文本" |}
     = {| Outbound.skipDelivery := true; Outbound.suppressText := false |}
  /\ Outbound.skipDelivery
       (Outbound.evaluateReplyFinalOnlyDelivery
          {| Outbound.replyFinalOnly := true; Outbound.kind := js "final";
             Outbound.hasMedia := false;
             Outbound.sanitizedText :=
               Outbound.sanitizeQQBotOutboundText (js "NO_REPLY") |})
     = false
  /\ Outbound.sanitizeQQBotOutboundText (js "NO_REPLY") = []
  /\ Outbound.evaluateReplyFinalOnlyDelivery
       {| Outbound.replyFinalOnly := false; Outbound.kind := js "block";
          Outbound.hasMedia := false;
          Outbound.sanitizedText :=
            Outbound.sanitizeQQBotOutboundText (js "普通文本") |}
     = {| Outbound.skipDelivery := false; Outbound.suppressText := false |}
  /\ Outbound.sanitizeQQBotOutboundText (js "普通文本") = js "普通文本".
Proof.
  repeat split; vm_compute; reflexivity.
Qed.

(** The case of the suite of [sendQQBotMediaWithFallback]: the events of the
    run, in order. *)
Example sendQQBotMediaWithFallback_suite :
  Outbound.sendQQBotMediaWithFallback Scenario.fallbackCall
  = [Outbound.MediaAttempt (js "user:123") (js "https://example.com/a.mp3");
     Outbound.LogError (js "sendMedia failed: upload failed");
     Outbound.TextSend (js "user:123") (js "https://example.com/a.mp3")].
Proof.
  vm_compute. reflexivity.
Qed.

(** * Further properties of the code *)

(** ** The send: errors, calls and disk *)

Section SendProtocolFacts.
Import SendProtocol.





Lemma filter_none {A} (f : A -> bool) (l : list A) :
  existsb f l = false -> List.filter f l = [].
Proof.
  induction l as [| x l IH]; [reflexivity |].
  cbn. destruct (f x); [discriminate | exact IH].
Qed.

(** The transcoder never calls the platform. *)
Lemma convertAudioToSilk_platform_free (h : Host) (audioPath : path) (w : World) :
  exists evs,
    trace (snd (convertAudioToSilk h audioPath w)) = trace w ++ evs
    /\ existsb isPlatformCall evs = false
    /\ existsb isGroupCall evs = false
    /\ existsb isC2CCall evs = false.
Proof.
  unfold convertAudioToSilk, mkdtemp, execFile, rm. async. unfold emit.
  repeat (case_match; simplify_eq; cbn [snd fst trace fs] in * );
    try (exists []; rewrite app_nil_r; repeat split; reflexivity);
    (eexists; split; [rewrite <- ?app_assoc; reflexivity | repeat split; reflexivity]).
Qed.

Ltac send_events Htr :=
  erewrite newEvents_app;
  [| unfold emit; cbn [trace snd]; try rewrite Htr; unfold emit; cbn [trace];
     rewrite <- ?app_assoc; reflexivity].

(** The platform sees at most three calls from one send, always in this
    order: the token request, one upload, one send.  When the send returns,
    all three were made and the result is what the platform answered to the
    last one. *)
Theorem sendFileQQBot_call_order
    (h : Host) (params : SendFileQQBotParams) (w : World) :
  followsProtocol
    (List.filter isPlatformCall (newEvents w (snd (sendFileQQBot h params w))))
  = true
  /\ (forall r, fst (sendFileQQBot h params w) = Ok r ->
      exists t u s,
        List.filter isPlatformCall (newEvents w (snd (sendFileQQBot h params w)))
        = [t; u; s]
        /\ sendAnswer h s = Some (Ok r)).
Proof.
  unfold sendFileQQBot.
  destruct (negb (truthy (appId (cfg params))) || negb (truthy (clientSecret (cfg params)))).
  { cbn [throw snd fst]. unfold newEvents. rewrite drop_all.
    split; [reflexivity | discriminate]. }
  set (src := stripTitleFromUrl h (mediaUrl params)).
  pose proof (convertAudioToSilk_platform_free h src
                (emit (CallGetAccessToken (default [] (appId (cfg params)))
                                          (default [] (clientSecret (cfg params)))) w))
    as (evs & Htr & Hno & _).
  apply filter_none in Hno.
  destruct (resolveQQBotMediaFileType h src);
    try (cbn [throw snd fst]; unfold newEvents; rewrite drop_all;
         split; [reflexivity | discriminate]).
  all: unfold readMediaWithConfig, uploadQQBotFile; async.
  all: repeat (case_match; simplify_eq; cbn [fst snd] in * ).
  all: send_events Htr.
  all: cbn; rewrite ?List.filter_app, ?Hno; cbn.
  all: split; [reflexivity |]; intros r Hr; simplify_eq.
  all: eexists _, _, _; split; [reflexivity |]; cbn [sendAnswer]; congruence.
Qed.

(** A remote source is handled by the platform alone: the send reads no file,
    runs no tool and leaves the disk as it was. *)
Theorem sendFileQQBot_remote_source_is_not_fetched
    (h : Host) (params : SendFileQQBotParams) (w : World) :
  isHttpUrl h (stripTitleFromUrl h (mediaUrl params)) = true ->
  forallb isPlatformCall (newEvents w (snd (sendFileQQBot h params w))) = true
  /\ fs (snd (sendFileQQBot h params w)) = fs w.
Proof.
  intros Hhttp. unfold sendFileQQBot.
  destruct (negb (truthy (appId (cfg params))) || negb (truthy (clientSecret (cfg params)))).
  { cbn [throw snd fst]. unfold newEvents. rewrite drop_all. split; reflexivity. }
  destruct (resolveQQBotMediaFileType h (stripTitleFromUrl h (mediaUrl params)));
    try (cbn [throw snd fst]; unfold newEvents; rewrite drop_all; split; reflexivity).
  all: rewrite Hhttp; unfold uploadQQBotFile; async.
  all: repeat (case_match; simplify_eq; cbn [fst snd] in * ).
  all: split; [send_events I; reflexivity | reflexivity].
Qed.

(** A send to a group calls only the group endpoints, a send to a user only
    the C2C endpoints. *)
Theorem sendFileQQBot_routes_by_target
    (h : Host) (params : SendFileQQBotParams) (w : World) :
  existsb (match target_kind (target params) with
           | group => isC2CCall
           | c2c => isGroupCall
           end)
          (newEvents w (snd (sendFileQQBot h params w)))
  = false.
Proof.
  unfold sendFileQQBot.
  destruct (negb (truthy (appId (cfg params))) || negb (truthy (clientSecret (cfg params)))).
  { cbn [throw snd fst]. unfold newEvents. rewrite drop_all. reflexivity. }
  set (src := stripTitleFromUrl h (mediaUrl params)).
  pose proof (convertAudioToSilk_platform_free h src
                (emit (CallGetAccessToken (default [] (appId (cfg params)))
                                          (default [] (clientSecret (cfg params)))) w))
    as (evs & Htr & _ & Hg & Hc).
  destruct (resolveQQBotMediaFileType h src);
    try (cbn [throw snd fst]; unfold newEvents; rewrite drop_all; reflexivity).
  all: unfold readMediaWithConfig, uploadQQBotFile; async.
  all: repeat (case_match; simplify_eq; cbn [fst snd] in * ).
  all: send_events Htr.
  all: cbn; rewrite ?existsb_app, ?Hg, ?Hc; reflexivity.
Qed.

Lemma fs_emit (ev : Event) (w : World) : fs (emit ev w) = fs w.
Proof. reflexivity. Qed.

(** When the removal of the temporary directory succeeds, a whole send leaves
    the disk as it found it, whatever its outcome. *)
Theorem sendFileQQBot_leaves_disk_unchanged
    (h : Host) (params : SendFileQQBotParams) (w : World) :
  (forall d, mkdtempSync h (fs w) (tmpPrefix h) = Ok d ->
             forall p, p ∈ fs w -> ¬ under d p) ->
  (forall disk d, rmSync h disk d = RmDone) ->
  fs (snd (sendFileQQBot h params w)) = fs w.
Proof.
  intros Hfresh Hrm. unfold sendFileQQBot.
  destruct (negb (truthy (appId (cfg params))) || negb (truthy (clientSecret (cfg params))));
    [reflexivity |].
  set (src := stripTitleFromUrl h (mediaUrl params)).
  pose proof (convertAudioToSilk_frame h src
                (emit (CallGetAccessToken (default [] (appId (cfg params)))
                                          (default [] (clientSecret (cfg params)))) w)
                Hfresh Hrm) as Hframe.
  rewrite fs_emit in Hframe.
  destruct (resolveQQBotMediaFileType h src); try reflexivity.
  all: unfold readMediaWithConfig, uploadQQBotFile; async.
  all: repeat (case_match; simplify_eq; cbn [fst snd] in * ).
  all: unfold emit; cbn [fs]; first [reflexivity | exact Hframe].
Qed.

(** [uploadQQBotFile] calls the platform at most once: not at all when it is
    given neither a URL nor file data; otherwise once, on the endpoint of the
    target's kind, with the URL alone when there is one and the file data
    alone when there is none.  What it returns is never empty. *)
Theorem uploadQQBotFile_contract
    (h : Host) (tok : jsstring) (tgt : QQBotFileTarget) (ft : MediaFileType)
    (url data : option jsstring) (w : World) :
  (truthy url = false -> truthy data = false ->
   uploadQQBotFile h tok tgt ft url data w
   = (Throw (Error_ (js "QQBot file upload requires url or fileData")), w))
  /\ (truthy url || truthy data = true ->
      newEvents w (snd (uploadQQBotFile h tok tgt ft url data w))
      = [(match target_kind tgt with
          | group => CallUploadGroupMedia
          | c2c => CallUploadC2CMedia
          end)
           {| up_accessToken := tok; up_openid := target_id tgt; up_fileType := ft;
              up_url := if truthy url then url else None;
              up_fileData := if truthy url then None else data |}])
  /\ (forall info, fst (uploadQQBotFile h tok tgt ft url data w) = Ok info ->
      info <> []).
Proof.
  unfold uploadQQBotFile. split; [| split].
  - intros -> ->. reflexivity.
  - intros Hsome.
    assert (Hgo : negb (truthy url) && negb (truthy data) = false)
      by (destruct (truthy url), (truthy data); [reflexivity .. | discriminate]).
    rewrite Hgo. async.
    destruct (target_kind tgt);
      repeat (case_match; simplify_eq; cbn [fst snd] in * );
      send_events I; reflexivity.
  - intros info. async.
    repeat (case_match; simplify_eq; cbn [fst snd] in * ); intros Hinfo;
      simplify_eq;
      match goal with
      | H : negb (truthy (file_info ?u)) = false |- _ =>
        destruct (file_info u) as [[| c rest] |]; cbn in H; try discriminate H;
        cbn; discriminate
      end.
Qed.

(** [readMediaWithConfig] makes one read and never lets a budget error of the
    reader out: a size violation and a timeout come back as plain errors that
    state the limit, any other error and any result come back as they are. *)
Theorem readMediaWithConfig_contract
    (h : Host) (source : jsstring) (timeout maxSize : Z) (w : World) :
  snd (readMediaWithConfig h source timeout maxSize w)
  = emit (CallReadMedia source timeout maxSize) w
  /\ (forall r, readMedia h source timeout maxSize = Ok r ->
      fst (readMediaWithConfig h source timeout maxSize w) = Ok r)
  /\ (forall m limit, readMedia h source timeout maxSize
                      = Throw (FileSizeLimitError m limit) ->
      fst (readMediaWithConfig h source timeout maxSize w)
      = Throw (Error_ (js "QQBot media exceeds limit (" ++ toFixed2MB limit
                       ++ js "MB)")))
  /\ (forall m ms, readMedia h source timeout maxSize
                   = Throw (MediaTimeoutError m ms) ->
      fst (readMediaWithConfig h source timeout maxSize w)
      = Throw (Error_ (js "QQBot media read timed out after " ++ ofZ ms ++ js "ms")))
  /\ (forall e, readMedia h source timeout maxSize = Throw e ->
      isBudgetError e = false ->
      fst (readMediaWithConfig h source timeout maxSize w) = Throw e)
  /\ (forall e, fst (readMediaWithConfig h source timeout maxSize w) = Throw e ->
      isBudgetError e = false).
Proof.
  unfold readMediaWithConfig. async.
  destruct (readMedia h source timeout maxSize) as [r | []]; cbn [fst snd];
    repeat split; intros; simplify_eq; try reflexivity; try discriminate.
Qed.

Lemma jsonSummary_nonempty (h : Host) (t summary : jsstring) :
  jsonSummary h t = Some summary -> summary <> [].
Proof.
  unfold jsonSummary. repeat case_match; intros; simplify_eq; discriminate.
Qed.

(** [normalizeHttpErrorBody] answers [undefined] exactly for a missing or
    blank body; every other body gives a text that is not empty. *)
Theorem normalizeHttpErrorBody_blank (h : Host) (body : option jsstring) :
  (normalizeHttpErrorBody h body = None <-> truthy (trim <$> body) = false)
  /\ (forall shown, normalizeHttpErrorBody h body = Some shown -> shown <> []).
Proof.
  unfold normalizeHttpErrorBody.
  destruct (truthy (trim <$> body)) eqn:Hblank; cbn [negb].
  - destruct body as [b |]; [| discriminate Hblank].
    change (trim <$> Some b) with (Some (trim b)) in *.
    cbn [default from_option id]. cbn [truthy] in Hblank.
    destruct (jsonSummary h (trim b)) as [summary |] eqn:Hsum.
    + split; [split; discriminate |].
      intros shown [= <-]. eapply jsonSummary_nonempty, Hsum.
    + split; [split; discriminate |].
      intros shown [= <-].
      destruct (trim b) as [| c rest]; [discriminate Hblank |].
      destruct (300 <? length (c :: rest))%nat; discriminate.
  - split; [split; reflexivity | discriminate].
Qed.

(** What a successful transcoding returns: ffmpeg ran on the given audio file
    with a PCM file inside the new temporary directory as output, that file
    was read, and the result is what the silk encoder made of its content at
    24000 Hz. *)
Theorem convertAudioToSilk_result
    (h : Host) (audioPath : path) (w : World) (data : Buffer) :
  fst (convertAudioToSilk h audioPath w) = Ok data ->
  exists ffmpeg d disk pcm,
    require_ffmpeg_static h = Ok (Some ffmpeg)
    /\ ffmpeg <> []
    /\ mkdtempSync h (fs w) (tmpPrefix h) = Ok d
    /\ exec_result (execFileSync h ffmpeg
                      (ffmpegArgs audioPath (path_join d (js "audio.pcm"))))
       = Ok tt
    /\ readFileSync h disk (path_join d (js "audio.pcm")) = Ok pcm
    /\ silk_encode h pcm 24000 = Ok data.
Proof.
  unfold convertAudioToSilk, mkdtemp, execFile, rm, tmpPrefix. async. unfold emit.
  destruct (require_ffmpeg_static h) as [[[| c ffmpeg] |] |]; cbn [truthy negb fst];
    try discriminate.
  destruct (require_silk_wasm h); cbn [fst]; [| discriminate].
  destruct (mkdtempSync h (fs w) _) as [d |] eqn:Hd; cbn [fst]; [| discriminate].
  cbn [default from_option id].
  destruct (exec_result _) as [[] |] eqn:Hexec; cbn [fst snd fs trace].
  - destruct (readFileSync h _ _) as [pcm |] eqn:Hread; cbn [fst snd fs trace].
    + destruct (silk_encode h pcm 24000) as [out |] eqn:Henc; cbn [fst snd fs trace].
      * destruct (rmSync h _ d); cbn [fst]; intros [= <-];
          eexists _, d, _, pcm; repeat split; eauto; discriminate.
      * destruct (rmSync h _ d); cbn [fst]; discriminate.
    + destruct (rmSync h _ d); cbn [fst]; discriminate.
  - destruct (rmSync h _ d); cbn [fst]; discriminate.
Qed.

(** When ffmpeg fails, nothing is read or encoded: the directory is removed
    and the error of ffmpeg is what comes back. *)
Theorem convertAudioToSilk_ffmpeg_failure
    (h : Host) (audioPath : path) (w : World)
    (ffmpeg d : path) (e : JsError) :
  require_ffmpeg_static h = Ok (Some ffmpeg) ->
  ffmpeg <> [] ->
  require_silk_wasm h = Ok tt ->
  mkdtempSync h (fs w) (tmpPrefix h) = Ok d ->
  exec_result (execFileSync h ffmpeg
                 (ffmpegArgs audioPath (path_join d (js "audio.pcm"))))
  = Throw e ->
  fst (convertAudioToSilk h audioPath w) = Throw e
  /\ newEvents w (snd (convertAudioToSilk h audioPath w))
     = [CallMkdtemp (tmpPrefix h);
        CallExecFile ffmpeg (ffmpegArgs audioPath (path_join d (js "audio.pcm")));
        CallRmSync d].
Proof.
  unfold convertAudioToSilk, mkdtemp, execFile, rm, tmpPrefix. async. unfold emit.
  intros Hff Hne Hsilk Hd Hexec. rewrite Hff.
  destruct ffmpeg as [| c ffmpeg]; [congruence |].
  cbn [truthy negb]. rewrite Hsilk, Hd.
  cbn [default from_option id]. rewrite Hexec. cbn [fst snd fs trace].
  destruct (rmSync h _ d); cbn [fst snd fs trace];
    (split; [reflexivity |]);
    (erewrite newEvents_app; [| cbn [trace]; rewrite <- ?app_assoc; reflexivity]);
    reflexivity.
Qed.

(** A local image or video whose base64 text is empty (a file of no bytes) is
    not uploaded: the send fails in the upload phase before any upload call. *)
Theorem sendFileQQBot_rejects_empty_file
    (h : Host) (params : SendFileQQBotParams) (w : World)
    (tok : jsstring) (local : MediaRead) :
  configured (cfg params) = true ->
  resolveQQBotMediaFileType h (stripTitleFromUrl h (mediaUrl params)) = IMAGE
  \/ resolveQQBotMediaFileType h (stripTitleFromUrl h (mediaUrl params)) = VIDEO ->
  isHttpUrl h (stripTitleFromUrl h (mediaUrl params)) = false ->
  tokenAnswer h (cfg params) = Ok tok ->
  readMedia h (stripTitleFromUrl h (mediaUrl params))
            (mediaTimeoutOf (cfg params)) (maxSizeBytesOf (cfg params))
  = Ok local ->
  toBase64 h (buffer local) = [] ->
  fst (sendFileQQBot h params w)
  = Throw (Error_ (js "QQBot media upload failed: "
                   ++ js "QQBot file upload requires url or fileData"))
  /\ existsb isUpload (newEvents w (snd (sendFileQQBot h params w))) = false.
Proof.
  set (c := cfg params). set (src := stripTitleFromUrl h (mediaUrl params)).
  intros Hcfg Hty Hhttp Htok Hread Hempty.
  unfold configured in Hcfg. apply andb_true_iff in Hcfg as [Ha Hs].
  unfold sendFileQQBot, tokenAnswer in *. fold c. fold src.
  rewrite Ha, Hs. cbn [negb orb].
  destruct Hty as [-> | ->];
    unfold readMediaWithConfig, uploadQQBotFile; async;
    rewrite Htok, Hhttp, Hread, Hempty; cbn [truthy negb andb fst snd];
    (split; [reflexivity |]); send_events I; reflexivity.
Qed.

End SendProtocolFacts.

(** ** The shared CLI state over any sequence of calls *)

Set Warnings "-clear-no-such-hyp".

Section ChinaSetupStateFacts.
Import ChinaSetup ChinaSetupState.

Lemma filter_sublist {A} (f : A -> bool) (l : list A) : List.filter f l `sublist_of` l.
Proof.
  induction l as [| x l IH]; [constructor |].
  cbn. destruct (f x); [apply sublist_skip | apply sublist_cons]; exact IH.
Qed.

Lemma elem_of_List_filter {A} (f : A -> bool) (l : list A) (x : A) :
  x ∈ List.filter f l <-> x ∈ l /\ f x = true.
Proof.
  rewrite !list_elem_of_In. apply filter_In.
Qed.

Lemma CHANNEL_ORDER_NoDup : NoDup CHANNEL_ORDER.
Proof.
  apply (bool_decide_unpack _). vm_compute. exact I.
Qed.

(** [normalizeChannels] answers in the fixed channel order, without
    repetition, and with known ids only: for a non-empty request, exactly the
    known ids it names; for a missing or empty request, every channel. *)
Theorem normalizeChannels_canonical (channels : option (list ChannelId)) :
  normalizeChannels channels `sublist_of` CHANNEL_ORDER
  /\ NoDup (normalizeChannels channels)
  /\ (forall c cs x, channels = Some (c :: cs) ->
        (x ∈ normalizeChannels channels <-> x ∈ c :: cs /\ x ∈ CHANNEL_ORDER))
  /\ (channels = None \/ channels = Some [] ->
      normalizeChannels channels = CHANNEL_ORDER).
Proof.
  split; [apply filter_sublist |].
  split; [eapply sublist_NoDup; [apply CHANNEL_ORDER_NoDup | apply filter_sublist] |].
  split.
  - intros c cs x ->. unfold normalizeChannels.
    rewrite elem_of_List_filter, bool_decide_eq_true, elem_of_list_to_set,
      elem_of_List_filter.
    unfold isChannelId. rewrite bool_decide_eq_true. tauto.
  - intros [-> | ->]; vm_compute; reflexivity.
Qed.

Lemma addChannels_sets (state s : loc) (cs : list ChannelId) :
  forall p b,
    objects p !! state = Some {| o_channels := VSet s; o_cliRegistered := b |} ->
    default ∅ (sets (fold_left (fun q c => addChannel state c q) cs p) !! s)
    = list_to_set cs ∪ default ∅ (sets p !! s).
Proof.
  induction cs as [| c cs IH]; intros p b Hobj.
  - cbn. set_solver.
  - cbn [fold_left].
    assert (Hstep : addChannel state c p
                    = {| root := root p; objects := objects p;
                         sets := <[s := {[c]} ∪ default ∅ (sets p !! s)]> (sets p);
                         next := next p; cliRegistrations := cliRegistrations p |}).
    { unfold addChannel. rewrite Hobj. reflexivity. }
    rewrite (IH (addChannel state c p) b).
    + rewrite Hstep. cbn [sets]. rewrite lookup_insert_eq. cbn. set_solver.
    + rewrite Hstep. exact Hobj.
Qed.

(** One call, told from the state record [getChinaCliState] hands out. *)
Lemma registerChinaSetupCli_spec (api : ApiLike)
    (channels : option (list ChannelId)) (p p1 : Process) (state s : loc) (b : bool) :
  getChinaCliState p = (state, p1) ->
  objects p1 !! state = Some {| o_channels := VSet s; o_cliRegistered := VBool b |} ->
  root (registerChinaSetupCli api channels p) = root p1
  /\ next (registerChinaSetupCli api channels p) = next p1
  /\ default ∅ (sets (registerChinaSetupCli api channels p) !! s)
     = list_to_set (normalizeChannels channels) ∪ default ∅ (sets p1 !! s)
  /\ (if b || negb (registerCli_is_function api)
      then objects (registerChinaSetupCli api channels p) = objects p1
           /\ cliRegistrations (registerChinaSetupCli api channels p)
              = cliRegistrations p1
      else objects (registerChinaSetupCli api channels p)
           = <[state := {| o_channels := VSet s; o_cliRegistered := VBool true |}]>
               (objects p1)
           /\ cliRegistrations (registerChinaSetupCli api channels p)
              = cliRegistrations p1
                ++ [{| reg_api := api_id api; reg_state := state |}]).
Proof.
  intros Hget Hobj. unfold registerChinaSetupCli. rewrite Hget.
  pose proof (addChannels_frame state (normalizeChannels channels) p1)
    as (Hr & Ho & Hn & Hc).
  pose proof (addChannels_sets state s (normalizeChannels channels) p1 _ Hobj) as Hs.
  set (p2 := fold_left _ (normalizeChannels channels) p1) in *.
  cbn beta zeta in Hr, Ho, Hn, Hc.
  assert (Hread : readCliRegistered state p2 = b).
  { unfold readCliRegistered. rewrite Ho, Hobj. reflexivity. }
  rewrite Hread.
  destruct (b || negb (registerCli_is_function api)).
  - repeat split; assumption.
  - unfold callRegisterCli, markCliRegistered. rewrite Ho, Hobj.
    cbn [root next sets objects cliRegistrations o_channels].
    rewrite Hc. repeat split; assumption.
Qed.

Lemma sharedChannels_of_root (p : Process) (o s : loc) (b : Value) :
  root p = VRecord o ->
  objects p !! o = Some {| o_channels := VSet s; o_cliRegistered := b |} ->
  sharedChannels p = default ∅ (sets p !! s).
Proof.
  intros Hroot Hobj. unfold sharedChannels. rewrite Hroot, Hobj. reflexivity.
Qed.

(** One call keeps the heap in shape, adds the normalised ids to the shared
    set, and registers at most once, and only through an api that can. *)
Lemma registerChinaSetupCli_sharing (api : ApiLike)
    (channels : option (list ChannelId)) (p : Process) :
  sharing p ->
  sharing (registerChinaSetupCli api channels p)
  /\ sharedChannels (registerChinaSetupCli api channels p)
     = sharedChannels p ∪ list_to_set (normalizeChannels channels)
  /\ (exists new,
        cliRegistrations (registerChinaSetupCli api channels p)
        = cliRegistrations p ++ new
        /\ (length new <= if registerCli_is_function api then 1 else 0)%nat)
  /\ (registerCli_is_function api = true ->
      cliRegistrations (registerChinaSetupCli api channels p) <> []).
Proof.
  unfold sharing. destruct (root p) as [| | | o |] eqn:Hroot; try contradiction.
  - intros [Hempty Hnone].
    assert (Hget : getChinaCliState p
                   = (S (next p),
                      setRoot (VRecord (S (next p)))
                        {| root := root p;
                           objects := <[S (next p) :=
                                          {| o_channels := VSet (next p);
                                             o_cliRegistered := VBool false |}]>
                                        (objects p);
                           sets := <[next p := ∅]> (sets p);
                           next := S (S (next p));
                           cliRegistrations := cliRegistrations p |})).
    { unfold getChinaCliState. rewrite Hroot. reflexivity. }
    destruct (registerChinaSetupCli_spec api channels p _ _ (next p) false Hget)
      as (Hr & Hn & Hs & Hcase); [apply lookup_insert_eq |].
    cbn [setRoot root next sets objects cliRegistrations] in Hr, Hn, Hs, Hcase.
    rewrite lookup_insert_eq in Hs. rewrite Hempty, Hnone in Hcase.
    cbn [orb] in Hcase. unfold sharedChannels at 2. rewrite Hroot, Hr.
    destruct (registerCli_is_function api); cbn [negb] in Hcase;
      destruct Hcase as [Hobjs Hregs].
    + split.
      { exists (next p), true. rewrite Hobjs.
        split; [apply lookup_insert_eq |]. split.
        - intros o' obj. rewrite insert_insert_eq, lookup_insert.
          case_decide; [| rewrite lookup_empty; discriminate].
          intros [= <-]. subst o'. split; [lia | reflexivity].
        - split.
          + intros r Hin. rewrite Hregs in Hin. cbn in Hin.
            apply list_elem_of_singleton in Hin as ->. cbn.
            rewrite lookup_insert_eq. eauto.
          + intros _. rewrite Hregs. discriminate. }
      split.
      { erewrite sharedChannels_of_root;
          [| exact Hr | rewrite Hobjs; apply lookup_insert_eq].
        rewrite Hs. cbn. set_solver. }
      split; [eexists; split; [rewrite Hregs, Hnone; reflexivity | cbn; lia] |].
      intros _. rewrite Hregs. discriminate.
    + split.
      { exists (next p), false. rewrite Hobjs.
        split; [apply lookup_insert_eq |]. split.
        - intros o' obj. rewrite lookup_insert.
          case_decide; [| rewrite lookup_empty; discriminate].
          intros [= <-]. subst o'. split; [lia | reflexivity].
        - split; [intros r Hin; rewrite Hregs in Hin; inversion Hin | discriminate]. }
      split.
      { erewrite sharedChannels_of_root;
          [| exact Hr | rewrite Hobjs; apply lookup_insert_eq].
        rewrite Hs. cbn. set_solver. }
      split; [exists []; split; [rewrite Hregs, Hnone; reflexivity | cbn; lia] |].
      discriminate.
  - intros (s & b & Hobj & Hall & Hreg & Hflag).
    destruct (Hall o _ Hobj) as [Hlt _].
    assert (Hget : getChinaCliState p
                   = allocObj {| o_channels := VSet s; o_cliRegistered := VBool b |} p).
    { unfold getChinaCliState. rewrite Hroot, Hobj. reflexivity. }
    unfold allocObj in Hget.
    destruct (registerChinaSetupCli_spec api channels p _ _ s b Hget)
      as (Hr & Hn & Hs & Hcase); [apply lookup_insert_eq |].
    cbn [root next sets objects cliRegistrations] in Hr, Hn, Hs, Hcase.
    rewrite Hr, Hroot.
    assert (Hkeep : objects (registerChinaSetupCli api channels p) !! o
                    = Some {| o_channels := VSet s; o_cliRegistered := VBool b |}).
    { destruct (b || negb (registerCli_is_function api)); destruct Hcase as [-> _].
      - rewrite lookup_insert_ne by lia. exact Hobj.
      - rewrite insert_insert_eq, lookup_insert_ne by lia. exact Hobj. }
    assert (Hshape : forall o' obj,
               objects (registerChinaSetupCli api channels p) !! o' = Some obj ->
               (o' < S (next p))%nat /\ o_channels obj = VSet s).
    { intros o' obj.
      destruct (b || negb (registerCli_is_function api)); destruct Hcase as [-> _];
        rewrite ?insert_insert_eq, lookup_insert; case_decide.
      - intros Heq. injection Heq as <-. split; [lia | reflexivity].
      - intros Hl. destruct (Hall o' obj Hl). split; [lia | assumption].
      - intros Heq. injection Heq as <-. split; [lia | reflexivity].
      - intros Hl. destruct (Hall o' obj Hl). split; [lia | assumption]. }
    assert (Hsome : forall k, is_Some (objects p !! k) ->
               is_Some (objects (registerChinaSetupCli api channels p) !! k)).
    { intros k Hk.
      destruct (b || negb (registerCli_is_function api)); destruct Hcase as [-> _];
        rewrite ?insert_insert_eq, lookup_insert; case_decide; eauto. }
    split.
    { exists s, b. split; [exact Hkeep |]. split; [rewrite Hn; exact Hshape |].
      split.
      - intros r Hin.
        destruct (b || negb (registerCli_is_function api)) eqn:Hb;
          destruct Hcase as [Hobjs Hregs]; rewrite Hregs in Hin.
        + apply Hsome, Hreg, Hin.
        + apply elem_of_app in Hin as [Hin | Hin]; [apply Hsome, Hreg, Hin |].
          apply list_elem_of_singleton in Hin as ->. cbn.
          rewrite Hobjs, lookup_insert_eq. eauto.
      - intros Hb. specialize (Hflag Hb).
        destruct (b || negb (registerCli_is_function api));
          destruct Hcase as [_ ->]; [exact Hflag |].
        intros Happ. apply app_eq_nil in Happ as [_ Happ]. discriminate Happ. }
    split.
    { rewrite (sharedChannels_of_root _ o s (VBool b) (eq_trans Hr Hroot) Hkeep).
      rewrite (sharedChannels_of_root p o s (VBool b) Hroot Hobj).
      rewrite Hs. set_solver. }
    split.
    { destruct (b || negb (registerCli_is_function api)) eqn:Hb;
        destruct Hcase as [_ ->].
      - exists []. rewrite app_nil_r. split; [reflexivity | cbn; lia].
      - eexists. split; [reflexivity |].
        apply orb_false_iff in Hb as [_ Hb]. apply negb_false_iff in Hb.
        rewrite Hb. cbn. lia. }
    intros Hcli.
    destruct b; cbn [orb] in Hcase.
    + destruct Hcase as [_ ->]. apply Hflag. reflexivity.
    + rewrite Hcli in Hcase. cbn [negb] in Hcase. destruct Hcase as [_ ->].
      intros Happ. apply app_eq_nil in Happ as [_ Happ]. discriminate Happ.
Qed.

Lemma registerAll_cons (c : ApiLike * option (list ChannelId))
    (calls : list (ApiLike * option (list ChannelId))) (p : Process) :
  registerAll (c :: calls) p
  = registerAll calls (registerChinaSetupCli (fst c) (snd c) p).
Proof. reflexivity. Qed.

Lemma registerAll_sharing (calls : list (ApiLike * option (list ChannelId))) :
  forall p,
    sharing p ->
    sharing (registerAll calls p)
    /\ sharedChannels (registerAll calls p) = sharedChannels p ∪ requested calls
    /\ (exists new,
          cliRegistrations (registerAll calls p) = cliRegistrations p ++ new
          /\ (length new <= length (capable calls))%nat)
    /\ (capable calls <> [] -> cliRegistrations (registerAll calls p) <> []).
Proof.
  induction calls as [| c calls IH]; intros p Hp.
  - cbn. split; [exact Hp |]. split; [set_solver |].
    split; [exists []; rewrite app_nil_r; split; [reflexivity | cbn; lia] |].
    congruence.
  - rewrite registerAll_cons.
    destruct (registerChinaSetupCli_sharing (fst c) (snd c) p Hp)
      as (Hp1 & Hch1 & (new1 & Hreg1 & Hlen1) & Hcli1).
    destruct (IH _ Hp1) as (Hp2 & Hch2 & (new2 & Hreg2 & Hlen2) & Hcli2).
    split; [exact Hp2 |].
    split.
    { rewrite Hch2, Hch1. unfold requested. cbn [map union_list]. set_solver. }
    split.
    { exists (new1 ++ new2). rewrite Hreg2, Hreg1, <- app_assoc.
      split; [reflexivity |]. rewrite length_app. unfold capable in *.
      cbn [List.filter]. revert Hlen1.
      destruct (registerCli_is_function (fst c)); cbn [length]; lia. }
    unfold capable. cbn [List.filter].
    destruct (registerCli_is_function (fst c)) eqn:Hcli.
    + intros _. rewrite Hreg2. specialize (Hcli1 eq_refl).
      intros Happ. apply app_eq_nil in Happ as [Happ _]. contradiction.
    + exact Hcli2.
Qed.

Lemma sharing_fresh : sharing freshProcess.
Proof. split; reflexivity. Qed.

Lemma sharedChannels_requested
    (calls : list (ApiLike * option (list ChannelId))) :
  sharedChannels (registerAll calls freshProcess) = requested calls.
Proof.
  destruct (registerAll_sharing calls freshProcess sharing_fresh) as (_ & H & _).
  rewrite H. cbn. set_solver.
Qed.

Lemma getInstalledChannels_requested
    (calls : list (ApiLike * option (list ChannelId))) (r : CliRegistration) :
  r ∈ cliRegistrations (registerAll calls freshProcess) ->
  getInstalledChannels (reg_state r) (registerAll calls freshProcess)
  = List.filter (fun c => bool_decide (c ∈ requested calls)) CHANNEL_ORDER.
Proof.
  intros Hin.
  destruct (registerAll_sharing calls freshProcess sharing_fresh) as (Hsh & Hch & _).
  assert (Hreq : sharedChannels (registerAll calls freshProcess) = requested calls)
    by (rewrite Hch; cbn; set_solver).
  unfold getInstalledChannels. f_equal.
  unfold sharing in Hsh. unfold sharedChannels in Hreq.
  destruct (root (registerAll calls freshProcess)) as [| | | o |]; try contradiction.
  - destruct Hsh as [_ Hnone]. rewrite Hnone in Hin. inversion Hin.
  - destruct Hsh as (s & b & Hobj & Hall & Hreg & _).
    rewrite Hobj in Hreq. rewrite <- Hreq.
    unfold channelsOf. destruct (Hreg r Hin) as [obj Hobj'].
    destruct (Hall _ _ Hobj') as [_ Hset]. rewrite Hobj'.
    destruct obj as [ch fl]. cbn in Hset. subst ch. reflexivity.
Qed.

(** After any sequence of calls in a process, the shared channel set holds
    exactly the ids the calls asked for: every call adds its normalised ids,
    whether or not it registers the CLI, and nothing is ever removed. *)
Theorem registerAll_accumulates_channels
    (calls : list (ApiLike * option (list ChannelId))) :
  sharedChannels (registerAll calls freshProcess) = requested calls.
Proof. apply sharedChannels_requested. Qed.

(** The commands of a registered CLI read the channels through the state
    record their registrar closed over.  Whenever that registration was made,
    they see every channel that any call of the process, earlier or later, has
    asked for. *)
Theorem getInstalledChannels_sees_all_calls
    (calls : list (ApiLike * option (list ChannelId))) (r : CliRegistration) :
  r ∈ cliRegistrations (registerAll calls freshProcess) ->
  getInstalledChannels (reg_state r) (registerAll calls freshProcess)
  = List.filter (fun c => bool_decide (c ∈ requested calls)) CHANNEL_ORDER.
Proof. apply getInstalledChannels_requested. Qed.

(** Over any sequence of calls there are at most as many CLI registrations as
    calls whose api can register, and there is one as soon as there is such
    a call. *)
Theorem registerAll_registration_count
    (calls : list (ApiLike * option (list ChannelId))) :
  (length (cliRegistrations (registerAll calls freshProcess))
   <= length (capable calls))%nat
  /\ (capable calls <> [] <-> cliRegistrations (registerAll calls freshProcess) <> []).
Proof.
  destruct (registerAll_sharing calls freshProcess sharing_fresh)
    as (_ & _ & (new & Hreg & Hlen) & Hcli).
  cbn [freshProcess cliRegistrations app] in Hreg. rewrite Hreg.
  split; [exact Hlen |]. split.
  - intros H. rewrite <- Hreg. exact (Hcli H).
  - intros Hnew Hcap. rewrite Hcap in Hlen. cbn in Hlen.
    destruct new; [congruence | cbn in Hlen; lia].
Qed.

End ChinaSetupStateFacts.

(** ** Merging a channel into the configuration *)

Section ChinaConfigFacts.
Import ChinaConfig.

Lemma member_cons (k k0 : jsstring) (v0 : JsValue) (ms : Members) :
  member k ((k0, v0) :: ms)
  = match member k ms with
    | Some v => Some v
    | None => if decide (k0 = k) then Some v0 else None
    end.
Proof. reflexivity. Qed.

Lemma member_redefine (k key : jsstring) (v : JsValue) (ms : Members) :
  member k (map (fun kx => if decide (fst kx = key) then (fst kx, v) else kx) ms)
  = if decide (k = key) then (fun _ => v) <$> member key ms else member k ms.
Proof.
  induction ms as [| [k0 v0] ms IH]; [destruct (decide (k = key)); reflexivity |].
  cbn [map fst].
  destruct (decide (k0 = key)) as [-> | Hk0]; rewrite !member_cons, IH;
    destruct (decide (k = key)) as [Hk | Hk]; try subst k;
    repeat (case_match; simplify_eq; cbn in * ); congruence.
Qed.

Lemma member_insertNew (k key : jsstring) (v : JsValue) (ms : Members) :
  member key ms = None ->
  member k (insertNew key v ms)
  = if decide (k = key) then Some v else member k ms.
Proof.
  induction ms as [| [k0 v0] ms IH]; intros Hnew.
  - cbn. destruct (decide (key = k)), (decide (k = key)); congruence.
  - rewrite member_cons in Hnew.
    destruct (member key ms) eqn:Hrest; [discriminate |].
    destruct (decide (k0 = key)) as [| Hk0]; [discriminate |].
    specialize (IH eq_refl).
    assert (Hhead : member k ((key, v) :: (k0, v0) :: ms)
                    = if decide (k = key) then Some v else member k ((k0, v0) :: ms)).
    { rewrite (member_cons k key). destruct (decide (k = key)) as [-> | Hk].
      - rewrite member_cons, Hrest, decide_False by exact Hk0.
        rewrite decide_True by reflexivity. reflexivity.
      - destruct (member k ((k0, v0) :: ms)); [reflexivity |].
        rewrite decide_False by congruence. reflexivity. }
    assert (Htail : member k ((k0, v0) :: insertNew key v ms)
                    = if decide (k = key) then Some v else member k ((k0, v0) :: ms)).
    { rewrite !member_cons, IH. destruct (decide (k = key)); reflexivity. }
    cbn [insertNew].
    destruct (arrayIndex key), (arrayIndex k0); try assumption.
    destruct (_ <? _)%N; assumption.
Qed.

(** A read after a write. *)
Lemma member_defineProp (k key : jsstring) (v : JsValue) (ms : Members) :
  member k (defineProp key v ms) = if decide (k = key) then Some v else member k ms.
Proof.
  unfold defineProp, hasOwn. case_bool_decide as Hown.
  - rewrite member_redefine. destruct Hown as [x ->]. reflexivity.
  - apply member_insertNew. destruct (member key ms); [| reflexivity].
    exfalso. apply Hown. eauto.
Qed.

Lemma member_fold_define (k : jsstring) (source : Members) :
  forall target,
    member k (fold_left (fun acc kx => defineProp (fst kx) (snd kx) acc) source target)
    = match member k source with
      | Some v => Some v
      | None => member k target
      end.
Proof.
  induction source as [| [k0 v0] source IH]; intros target; [reflexivity |].
  cbn [fold_left fst snd]. rewrite IH, member_cons, member_defineProp.
  destruct (member k source); [reflexivity |].
  destruct (decide (k = k0)), (decide (k0 = k)); congruence.
Qed.

Lemma member_ownProperties (k : jsstring) (ms : Members) :
  member k (ownProperties ms) = member k ms.
Proof.
  unfold ownProperties. rewrite member_fold_define.
  destruct (member k ms); reflexivity.
Qed.

Lemma member_spread (k : jsstring) (target source : Members) :
  member k (spread target source)
  = match member k source with
    | Some v => Some v
    | None => member k target
    end.
Proof.
  unfold spread. rewrite member_fold_define, member_ownProperties. reflexivity.
Qed.

Lemma getChannelConfig_merged (cfg : Members) (channelId : jsstring) (patch : Members) :
  getChannelConfig (mergeChannelConfig cfg channelId patch) channelId
  = defineProp (js "enabled") (JBool true)
      (spread (spread [] (getChannelConfig cfg channelId)) patch).
Proof.
  unfold mergeChannelConfig. unfold getChannelConfig at 1.
  rewrite member_defineProp, decide_True by reflexivity. cbn [recordOr].
  rewrite member_defineProp, decide_True by reflexivity. reflexivity.
Qed.

Lemma getChannelConfig_merged_other (cfg : Members) (channelId other : jsstring)
    (patch : Members) :
  other <> channelId ->
  getChannelConfig (mergeChannelConfig cfg channelId patch) other
  = getChannelConfig cfg other.
Proof.
  intros Hother. unfold mergeChannelConfig. unfold getChannelConfig at 1.
  rewrite member_defineProp, decide_True by reflexivity. cbn [recordOr].
  rewrite member_defineProp, decide_False by exact Hother.
  unfold getChannelConfig.
  destruct (member (js "channels") cfg) as [[| | | | | ch] |]; try reflexivity.
  rewrite member_spread. cbn [recordOr].
  destruct (member other ch); reflexivity.
Qed.

Lemma member_merged_top (cfg : Members) (channelId : jsstring) (patch : Members)
    (key : jsstring) :
  key <> js "channels" ->
  member key (mergeChannelConfig cfg channelId patch) = member key cfg.
Proof.
  intros Hkey. unfold mergeChannelConfig.
  rewrite member_defineProp, decide_False by exact Hkey.
  rewrite member_spread. destruct (member key cfg); reflexivity.
Qed.

(** What is read back from a channel after [mergeChannelConfig]: [enabled] is
    [true], a key of the patch has the value of the patch, and every other
    key has the value it had. *)
Theorem mergeChannelConfig_read_back
    (cfg : Members) (channelId : jsstring) (patch : Members) (key : jsstring) :
  ChinaSetup.isChannelId channelId = true ->
  member key (getChannelConfig (mergeChannelConfig cfg channelId patch) channelId)
  = if decide (key = js "enabled") then Some (JBool true)
    else match member key patch with
         | Some v => Some v
         | None => member key (getChannelConfig cfg channelId)
         end.
Proof.
  intros _. rewrite getChannelConfig_merged, member_defineProp.
  destruct (decide (key = js "enabled")); [reflexivity |].
  rewrite !member_spread. destruct (member key patch); [reflexivity |].
  destruct (member key (getChannelConfig cfg channelId)); reflexivity.
Qed.

(** [mergeChannelConfig] touches one channel: every other channel reads as
    before, and so does every top-level key besides [channels]. *)
Theorem mergeChannelConfig_frame
    (cfg : Members) (channelId other : jsstring) (patch : Members) (key : jsstring) :
  ChinaSetup.isChannelId channelId = true ->
  (other <> channelId ->
   getChannelConfig (mergeChannelConfig cfg channelId patch) other
   = getChannelConfig cfg other)
  /\ (key <> js "channels" ->
      member key (mergeChannelConfig cfg channelId patch) = member key cfg).
Proof.
  intros _. split.
  - apply getChannelConfig_merged_other.
  - apply member_merged_top.
Qed.

Lemma member_merged_credential (cfg : Members) (channelId : jsstring)
    (patch : Members) (key : jsstring) :
  key <> js "enabled" ->
  hasNonEmptyString (member key patch) = true ->
  hasNonEmptyString
    (member key (getChannelConfig (mergeChannelConfig cfg channelId patch) channelId))
  = true.
Proof.
  intros Hkey Hpatch.
  rewrite getChannelConfig_merged, member_defineProp, decide_False by exact Hkey.
  rewrite member_spread.
  destruct (member key patch); [exact Hpatch | discriminate Hpatch].
Qed.

Lemma merged_is_configured (cfg : Members) (channelId : jsstring) (patch : Members) :
  ChinaSetup.isChannelId channelId = true ->
  Forall (fun key => hasNonEmptyString (member key patch) = true)
         (credentialKeys channelId) ->
  isChannelConfigured (mergeChannelConfig cfg channelId patch) channelId = true.
Proof.
  intros Hid Hkeys. unfold ChinaSetup.isChannelId in Hid.
  apply bool_decide_eq_true in Hid. unfold ChinaSetup.CHANNEL_ORDER in Hid.
  repeat (apply elem_of_cons in Hid as [-> | Hid]); [.. | inversion Hid].
  all: unfold isChannelConfigured, hasTokenPair;
    repeat (rewrite decide_False by (vm_compute; discriminate));
    rewrite ?(decide_True (P := _ = _)) by reflexivity;
    vm_compute credentialKeys in Hkeys;
    apply Forall_cons in Hkeys as [Hk1 Hkeys];
    apply Forall_cons in Hkeys as [Hk2 _];
    rewrite !member_merged_credential by
      first [assumption | vm_compute; discriminate];
    reflexivity.
Qed.

(** A patch that carries the credentials of its channel makes the channel
    count as configured, whatever the configuration held before. *)
Theorem mergeChannelConfig_makes_configured
    (cfg : Members) (channelId : jsstring) (patch : Members) :
  ChinaSetup.isChannelId channelId = true ->
  Forall (fun key => hasNonEmptyString (member key patch) = true)
         (credentialKeys channelId) ->
  isChannelConfigured (mergeChannelConfig cfg channelId patch) channelId = true.
Proof. apply merged_is_configured. Qed.

End ChinaConfigFacts.

(** ** The unified channels package *)

Section ChannelsPluginFacts.
Import ChannelsPlugin.

Variable entry : jsstring -> option JsError.

Lemma registerEnabled_events (channelsConfig : option JsValue) (ids : list jsstring) :
  forall st,
    hasShownPromoHint (snd (registerEnabled entry channelsConfig ids st))
    = hasShownPromoHint st
    /\ cli (snd (registerEnabled entry channelsConfig ids st)) = cli st
    /\ exists done,
         events (snd (registerEnabled entry channelsConfig ids st))
         = events st ++ map EntryRegister done
         /\ done `prefix_of` List.filter (channelEnabled channelsConfig) ids
         /\ (fst (registerEnabled entry channelsConfig ids st) = None ->
             done = List.filter (channelEnabled channelsConfig) ids)
         /\ (forall err, fst (registerEnabled entry channelsConfig ids st) = Some err ->
             exists c, last done = Some c /\ entry c = Some err)
         /\ (Forall (fun c => entry c = None)
                    (List.filter (channelEnabled channelsConfig) ids) ->
             fst (registerEnabled entry channelsConfig ids st) = None)
         /\ (forall before c after err,
               List.filter (channelEnabled channelsConfig) ids = before ++ c :: after ->
               Forall (fun d => entry d = None) before ->
               entry c = Some err ->
               fst (registerEnabled entry channelsConfig ids st) = Some err
               /\ done = before ++ [c]).
Proof.
  induction ids as [| c ids IH]; intros st.
  - cbn. repeat split. exists []. rewrite app_nil_r.
    split; [reflexivity |]. split; [reflexivity |]. split; [reflexivity |].
    split; [discriminate |]. split; [reflexivity |].
    intros before c after err H. destruct before; discriminate H.
  - cbn [registerEnabled List.filter].
    destruct (channelEnabled channelsConfig c); cbn [negb]; [| apply IH].
    destruct (entry c) as [err |] eqn:Hentry.
    + cbn [fst snd hasShownPromoHint cli events]. repeat split.
      exists [c]. split; [reflexivity |].
      split; [exists (List.filter (channelEnabled channelsConfig) ids); reflexivity |].
      split; [discriminate |].
      split; [intros err' [= <-]; exists c; split; [reflexivity | exact Hentry] |].
      split.
      * intros Hall. apply Forall_cons in Hall as [Hc _]. congruence.
      * intros before c' after err' Heq Hbefore Hc'.
        destruct before as [| b before]; cbn [app] in Heq; injection Heq as <- Heq.
        -- split; [congruence | reflexivity].
        -- apply Forall_cons in Hbefore as [Hb _]. congruence.
    + match goal with |- context [registerEnabled _ _ _ ?s] => specialize (IH s) end.
      destruct IH as (Hh & Hc & done & Hev & Hpre & Hall & Herr & Hquiet & Hthrow).
      cbn [hasShownPromoHint cli events] in Hh, Hc, Hev.
      split; [exact Hh |]. split; [exact Hc |].
      exists (c :: done). split; [rewrite Hev, <- app_assoc; reflexivity |].
      split; [apply prefix_cons, Hpre |].
      split; [intros Hnone; rewrite (Hall Hnone); reflexivity |].
      split.
      { intros err Hsome. destruct (Herr err Hsome) as (c' & Hlast & Hc').
        exists c'. split; [| exact Hc'].
        destruct done; [discriminate Hlast | exact Hlast]. }
      split.
      * intros Hnone. apply Forall_cons in Hnone as [_ Hnone]. exact (Hquiet Hnone).
      * intros before c' after err' Heq Hbefore Hc'.
        destruct before as [| b before]; cbn [app] in Heq; injection Heq as <- Heq.
        -- congruence.
        -- apply Forall_cons in Hbefore as [_ Hbefore].
           destruct (Hthrow before c' after err' Heq Hbefore Hc') as [Hfst ->].
           split; [exact Hfst | reflexivity].
Qed.

Lemma falsy_has_no_channel (channelsConfig : option JsValue) (channelId : jsstring) :
  truthyValue channelsConfig = false ->
  channelEnabled channelsConfig channelId = false.
Proof.
  unfold channelEnabled.
  destruct channelsConfig as [[| | | | |] |]; cbn; try reflexivity; discriminate.
Qed.

Lemma enabledIds_falsy (channelsConfig : option JsValue) :
  truthyValue channelsConfig = false -> enabledIds channelsConfig = [].
Proof.
  intros Hfalsy. unfold enabledIds, SUPPORTED_CHANNELS. cbn [List.filter].
  rewrite !(falsy_has_no_channel _ _ Hfalsy). reflexivity.
Qed.

Lemma registerChannelsByConfig_entries
    (api : MoltbotPluginApi) (cfg : option JsValue) (st : PluginState) :
  exists done,
    events (snd (registerChannelsByConfig entry api cfg st))
    = events st ++ map EntryRegister done
    /\ done `prefix_of` enabledIds (channelsOfConfig cfg api)
    /\ (fst (registerChannelsByConfig entry api cfg st) = None ->
        done = enabledIds (channelsOfConfig cfg api))
    /\ (forall err, fst (registerChannelsByConfig entry api cfg st) = Some err ->
        exists c, last done = Some c /\ entry c = Some err)
    /\ (Forall (fun c => entry c = None) (enabledIds (channelsOfConfig cfg api)) ->
        fst (registerChannelsByConfig entry api cfg st) = None)
    /\ (forall before c after err,
          enabledIds (channelsOfConfig cfg api) = before ++ c :: after ->
          Forall (fun d => entry d = None) before ->
          entry c = Some err ->
          fst (registerChannelsByConfig entry api cfg st) = Some err
          /\ done = before ++ [c]).
Proof.
  unfold registerChannelsByConfig, channelsOfConfig.
  destruct (truthyValue (optionalProperty (orApiConfig cfg api) (js "channels")))
    eqn:Htruthy; cbn [negb].
  - destruct (registerEnabled_events
                (optionalProperty (orApiConfig cfg api) (js "channels"))
                SUPPORTED_CHANNELS st) as (_ & _ & Hdone).
    exact Hdone.
  - exists []. cbn [fst snd map]. rewrite app_nil_r, (enabledIds_falsy _ Htruthy).
    split; [reflexivity |]. split; [reflexivity |]. split; [reflexivity |].
    split; [discriminate |]. split; [reflexivity |].
    intros before c after err H. destruct before; discriminate H.
Qed.

(** [registerChannelsByConfig] calls the entries of the supported channels
    whose [enabled] is truthy in the configuration it reads (the argument, or
    the api's when there is none), in the order of [SUPPORTED_CHANNELS].  When
    no entry of an enabled channel throws, all of them are called and the
    function returns.  When one throws, the first that does is the last one
    called: the loop stops there and its error is the error of the function. *)
Theorem registerChannelsByConfig_registers_enabled
    (api : MoltbotPluginApi) (cfg : option JsValue) (st : PluginState) :
  exists done,
    events (snd (registerChannelsByConfig entry api cfg st))
    = events st ++ map EntryRegister done
    /\ done `prefix_of` enabledIds (channelsOfConfig cfg api)
    /\ (fst (registerChannelsByConfig entry api cfg st) = None ->
        done = enabledIds (channelsOfConfig cfg api))
    /\ (forall err, fst (registerChannelsByConfig entry api cfg st) = Some err ->
        exists c, last done = Some c /\ entry c = Some err)
    /\ (Forall (fun c => entry c = None) (enabledIds (channelsOfConfig cfg api)) ->
        fst (registerChannelsByConfig entry api cfg st) = None)
    /\ (forall before c after err,
          enabledIds (channelsOfConfig cfg api) = before ++ c :: after ->
          Forall (fun d => entry d = None) before ->
          entry c = Some err ->
          fst (registerChannelsByConfig entry api cfg st) = Some err
          /\ done = before ++ [c]).
Proof. apply registerChannelsByConfig_entries. Qed.

Lemma registerChannelsByConfig_frame
    (api : MoltbotPluginApi) (cfg : option JsValue) (st : PluginState) :
  hasShownPromoHint (snd (registerChannelsByConfig entry api cfg st))
  = hasShownPromoHint st
  /\ cli (snd (registerChannelsByConfig entry api cfg st)) = cli st.
Proof.
  unfold registerChannelsByConfig.
  destruct (truthyValue _); cbn [negb]; [| split; reflexivity].
  destruct (registerEnabled_events
              (optionalProperty (orApiConfig cfg api) (js "channels"))
              SUPPORTED_CHANNELS st) as (Hh & Hc & _).
  split; assumption.
Qed.

Lemma hasAnyEnabled_enabledIds (cfg : option JsValue) :
  hasAnyEnabledChinaChannel cfg = false ->
  enabledIds (optionalProperty cfg (js "channels")) = [].
Proof.
  unfold hasAnyEnabledChinaChannel.
  destruct (truthyValue (optionalProperty cfg (js "channels"))) eqn:Htruthy;
    cbn [negb]; [| intros _; apply enabledIds_falsy, Htruthy].
  unfold enabledIds. induction SUPPORTED_CHANNELS as [| c cs IH]; [reflexivity |].
  cbn [existsb List.filter]. intros Hnone.
  apply orb_false_iff in Hnone as [-> Hrest]. apply IH, Hrest.
Qed.

Lemma showPromoHint_events (api : MoltbotPluginApi) (st : PluginState) :
  cli (showPromoHint api st) = cli st
  /\ (events (showPromoHint api st) = events st
      \/ hasShownPromoHint st = false
         /\ hasAnyEnabledChinaChannel (api_config api) = false
         /\ exists level, events (showPromoHint api st) = events st ++ banner level)
  /\ (hasShownPromoHint st = true -> showPromoHint api st = st)
  /\ (hasShownPromoHint (showPromoHint api st) = false ->
      hasShownPromoHint st = false /\ events (showPromoHint api st) = events st).
Proof.
  unfold showPromoHint, logAll.
  destruct (hasShownPromoHint st) eqn:Hshown; cbn [orb].
  { split; [reflexivity |]. split; [left; reflexivity |].
    split; [reflexivity |]. rewrite Hshown. discriminate. }
  destruct (hasAnyEnabledChinaChannel (api_config api)) eqn:Hany.
  { split; [reflexivity |]. split; [left; reflexivity |].
    split; [discriminate |]. intros _. split; reflexivity. }
  destruct (logger_info api); [| destruct (logger_warn api)];
    cbn [cli events hasShownPromoHint];
    (split; [reflexivity |]);
    (split; [| split; [discriminate | discriminate]]).
  - right. repeat split. exists Info. reflexivity.
  - right. repeat split. exists Warn. reflexivity.
  - left. reflexivity.
Qed.

Lemma entries_not_logged (ids : list jsstring) :
  existsb isLogged (map EntryRegister ids) = false.
Proof. induction ids; [reflexivity | cbn; assumption]. Qed.

Lemma banner_not_entry (level : Level) :
  existsb isEntryRegister (banner level) = false.
Proof.
  unfold banner. generalize promoLines. intros ls.
  induction ls; [reflexivity | cbn; assumption].
Qed.

(** Within one call of the plugin's [register], the promo banner and the
    channel entries exclude each other: when the banner is logged no channel
    entry is called, and when a channel entry is called no banner is logged. *)
Theorem register_banner_or_channels (api : MoltbotPluginApi) (st : PluginState) :
  existsb isLogged (newPluginEvents st (snd (register entry api st)))
  && existsb isEntryRegister (newPluginEvents st (snd (register entry api st)))
  = false.
Proof.
  unfold register.
  set (st1 := {| hasShownPromoHint := hasShownPromoHint st; events := events st;
                 cli := ChinaSetup.registerChinaSetupCli (cliApi api) None (cli st) |}).
  destruct (showPromoHint_events api st1) as (_ & Hshow & _).
  destruct (registerChannelsByConfig_entries api None (showPromoHint api st1))
    as (done & Hev & Hpre & _).
  unfold newPluginEvents. rewrite Hev.
  destruct Hshow as [Hsame | (_ & Hany & level & Hbanner)].
  - rewrite Hsame. cbn [st1 events]. rewrite drop_app_length.
    rewrite entries_not_logged. reflexivity.
  - apply hasAnyEnabled_enabledIds in Hany.
    unfold channelsOfConfig in Hpre. cbn [orApiConfig] in Hpre. rewrite Hany in Hpre.
    apply prefix_nil_inv in Hpre. subst done.
    rewrite Hbanner. cbn [st1 events map]. rewrite app_nil_r, drop_app_length.
    rewrite banner_not_entry. apply andb_false_r.
Qed.

Lemma filter_banner (level : Level) : List.filter isLogged (banner level) = banner level.
Proof.
  unfold banner. generalize promoLines. intros ls.
  induction ls as [| l ls IH]; [reflexivity | cbn; rewrite IH; reflexivity].
Qed.

Lemma filter_entries (ids : list jsstring) :
  List.filter isLogged (map EntryRegister ids) = [].
Proof. induction ids; [reflexivity | cbn; assumption]. Qed.

Lemma register_bannerOnce (api : MoltbotPluginApi) (st : PluginState) :
  bannerOnce st -> bannerOnce (snd (register entry api st)).
Proof.
  intros [Hunset Hone]. unfold register.
  set (st1 := {| hasShownPromoHint := hasShownPromoHint st; events := events st;
                 cli := ChinaSetup.registerChinaSetupCli (cliApi api) None (cli st) |}).
  destruct (showPromoHint_events api st1) as (_ & Hshow & _ & Hstill).
  destruct (registerChannelsByConfig_entries api None (showPromoHint api st1))
    as (done & Hev & _).
  destruct (registerChannelsByConfig_frame api None (showPromoHint api st1)) as [Hh _].
  unfold bannerOnce. rewrite Hev, Hh, List.filter_app, filter_entries, app_nil_r.
  cbn [st1 hasShownPromoHint events] in Hshow, Hstill.
  split.
  - intros Hflag. destruct (Hstill Hflag) as [Hold ->]. apply Hunset, Hold.
  - destruct Hshow as [-> | (Hold & _ & level & ->)]; [exact Hone |].
    right. exists level.
    rewrite List.filter_app, (Hunset Hold), filter_banner. reflexivity.
Qed.

(** However often the plugin is registered in one process, and with whichever
    apis, the promo banner is logged at most once, all at one level. *)
Theorem registerMany_banner_at_most_once (apis : list MoltbotPluginApi) :
  List.filter isLogged (events (registerMany entry apis initial)) = []
  \/ exists level,
       List.filter isLogged (events (registerMany entry apis initial)) = banner level.
Proof.
  assert (Hinv : forall st, bannerOnce st -> bannerOnce (registerMany entry apis st)).
  { induction apis as [| api apis IH]; intros st Hst; [exact Hst |].
    apply IH, register_bannerOnce, Hst. }
  apply (Hinv initial). split; [reflexivity | left; reflexivity].
Qed.

End ChannelsPluginFacts.

(** ** The setup dialog *)

Section SetupFacts.
Import ChinaConfig Setup.

Ltac dialog :=
  unfold mbind, mret, Dialog_bind, Dialog_ret, stop, say; cbn beta iota.

Lemma bind_done_inv {A B} (m : Dialog A) (f : A -> Dialog B) (ui ui' : Ui) (b : B) :
  (m ≫= f) ui = (Done b, ui') ->
  exists a ui1, m ui = (Done a, ui1) /\ f a ui1 = (Done b, ui').
Proof.
  unfold mbind, Dialog_bind. destruct (m ui) as [[a | | e |] ui1]; try discriminate.
  intros H. exists a, ui1. split; [reflexivity | exact H].
Qed.

Lemma follows_conseq {A} (m : Dialog A) (P Q : Outcome A -> list UiEvent -> Prop) :
  follows m P -> (forall o new, P o new -> Q o new) -> follows m Q.
Proof.
  intros Hm HPQ ui. destruct (Hm ui) as (used & new & H1 & H2 & H3).
  exists used, new. auto.
Qed.

Lemma asked_ret {A} (a : A) : follows (mret a) asked.
Proof. intros ui. exists [], []. cbn. rewrite app_nil_r. auto. Qed.

Lemma asked_stop {A} : follows (stop (@Unanswered A)) asked.
Proof. intros ui. exists [], []. cbn. rewrite app_nil_r. auto. Qed.

Lemma asked_failed {A} (e : JsError) : follows (stop (@Failed A e)) asked.
Proof. intros ui. exists [], []. cbn. rewrite app_nil_r. auto. Qed.

Lemma asked_say (ev : UiEvent) : plain ev = true -> follows (say ev) asked.
Proof.
  intros Hev ui. exists [], [ev]. cbn. rewrite Hev. auto.
Qed.

Lemma asked_await (ev : UiEvent) : plain ev = true -> follows (await ev) asked.
Proof.
  intros Hev ui. unfold await.
  destruct (script ui) as [| [r | e] rest] eqn:Hs; cbn.
  - exists [], [ev]. cbn. rewrite Hev. auto.
  - exists [Resolves r], [ev]. cbn. rewrite Hev. auto.
  - exists [Rejects e], [ev]. cbn. rewrite Hev. auto.
Qed.

Lemma asked_guardCancel {T} (r : Resolved T) : follows (guardCancel r) asked.
Proof.
  destruct r as [| v]; [| apply asked_ret].
  intros ui. exists [], [CancelShown (js "已取消配置。")]. cbn.
  split; [reflexivity |]. split; [reflexivity |]. exists []. auto.
Qed.

Lemma asked_bind {A B} (m : Dialog A) (f : A -> Dialog B) :
  follows m asked -> (forall a, follows (f a) asked) -> follows (m ≫= f) asked.
Proof.
  intros Hm Hf ui. unfold mbind, Dialog_bind.
  destruct (Hm ui) as (used & new & H1 & H2 & H3).
  destruct (m ui) as [[a | | e |] ui1]; cbn [fst snd] in *.
  - destruct (Hf a ui1) as (used' & new' & H1' & H2' & H3').
    exists (used ++ used'), (new ++ new').
    rewrite H1, H1', H2', H2, !app_assoc. split; [reflexivity |].
    split; [reflexivity |].
    destruct (fst (f a ui1)); cbn in *; rewrite ?forallb_app, ?H3; auto.
    destruct H3' as (pre & -> & Hpre). exists (new ++ pre).
    rewrite forallb_app, H3, Hpre, app_assoc. auto.
  - exists used, new. auto.
  - exists used, new. auto.
  - exists used, new. auto.
Qed.

Lemma asked_iterate {St A} (body : St -> Dialog (St + A)) :
  (forall s, follows (body s) asked) ->
  forall n s, follows (iterate n body s) asked.
Proof.
  intros Hbody n. induction n as [| n IH]; intros s; [apply asked_stop |].
  intros ui. cbn [iterate].
  destruct (Hbody s ui) as (used & new & H1 & H2 & H3).
  destruct (body s ui) as [[[s' | a] | | e |] ui1]; cbn [fst snd] in *;
    try (exists used, new; auto; fail).
  destruct (IH s' ui1) as (used' & new' & H1' & H2' & H3').
  exists (used ++ used'), (new ++ new').
  rewrite H1, H1', H2', H2, !app_assoc. split; [reflexivity |].
  split; [reflexivity |].
  destruct (fst (iterate n body s' ui1)); cbn in *; rewrite ?forallb_app, ?H3; auto.
  destruct H3' as (pre & -> & Hpre). exists (new ++ pre).
  rewrite forallb_app, H3, Hpre, app_assoc. auto.
Qed.

Lemma asked_loop {St A} (body : St -> Dialog (St + A)) (s : St) :
  (forall s, follows (body s) asked) -> follows (loop body s) asked.
Proof.
  intros Hbody ui. unfold loop. apply (asked_iterate body Hbody).
Qed.

(** More fuel than there are answers changes nothing: a loop whose rounds
    take answers ends on its own. *)
Lemma iterate_enough {St A} (body : St -> Dialog (St + A)) :
  takesAnswer body ->
  forall n m s ui,
    (length (script ui) < n)%nat -> (length (script ui) < m)%nat ->
    iterate n body s ui = iterate m body s ui.
Proof.
  intros Htakes n. induction n as [| n IH]; intros m s ui Hn Hm; [lia |].
  destruct m as [| m]; [lia |]. cbn [iterate].
  pose proof (Htakes s ui) as Hlt.
  destruct (body s ui) as [[[s' | a] | | e |] ui1]; cbn [fst snd] in *; try reflexivity.
  specialize (Hlt s' eq_refl). apply IH; lia.
Qed.

Ltac questions :=
  repeat first
    [ apply asked_bind; [| intros ?]
    | apply asked_loop; intros ?
    | apply asked_ret
    | apply asked_stop
    | apply asked_guardCancel
    | apply asked_say; reflexivity
    | apply asked_await; reflexivity
    | progress cbv zeta
    | match goal with |- follows (if ?b then _ else _) _ => destruct b end
    | match goal with |- follows (match ?b with _ => _ end) _ => destruct b end ].

Lemma asked_askText (label : jsstring) (required : bool) (defaultValue : option jsstring) :
  follows (askText label required defaultValue) asked.
Proof. unfold askText, clackText, warn. questions. Qed.

Lemma asked_askConfirm (label : jsstring) (defaultValue : bool) :
  follows (askConfirm label defaultValue) asked.
Proof. unfold askConfirm, clackConfirm. questions. Qed.

Lemma asked_askNumber (t : Terminal) (label : jsstring) (min : option Z)
    (defaultValue : option jsstring) :
  follows (askNumber t label min defaultValue) asked.
Proof. unfold askNumber, clackText, warn. questions. Qed.

Lemma asked_askSelect (message : jsstring) (options : list SelectOption)
    (defaultValue : jsstring) :
  follows (askSelect message options defaultValue) asked.
Proof. unfold askSelect, clackSelect. questions. Qed.

Ltac channel_questions :=
  unfold askSecret, section, showGuideLink;
  repeat first
    [ apply asked_askText
    | apply asked_askConfirm
    | apply asked_askNumber
    | apply asked_bind; [| intros ?]
    | apply asked_ret
    | apply asked_say; reflexivity
    | progress cbv zeta
    | match goal with |- follows (if ?b then _ else _) _ => destruct b end ].

Lemma asked_configureSingleChannel (t : Terminal) (channel : jsstring) (cfg : Members) :
  follows (configureSingleChannel t channel cfg) asked.
Proof.
  unfold configureSingleChannel.
  repeat case_decide.
  - unfold configureDingtalk. channel_questions.
  - unfold configureFeishu. channel_questions.
  - unfold configureWecom. channel_questions.
  - unfold configureWecomApp. channel_questions.
  - unfold configureQQBot. channel_questions.
  - apply asked_ret.
Qed.

(** *** What the questions return *)

Lemma trimStart_fixed (c : N) (s : jsstring) :
  isTrimSpace c = false -> trimStart (c :: s) = c :: s.
Proof. intros H. cbn. rewrite H. reflexivity. Qed.

Lemma trimStart_idem (s : jsstring) : trimStart (trimStart s) = trimStart s.
Proof.
  induction s as [| c s IH]; [reflexivity |]. cbn.
  destruct (isTrimSpace c) eqn:Hc; [exact IH |]. cbn. rewrite Hc. reflexivity.
Qed.

Lemma trimEnd_idem (s : jsstring) : trimEnd (trimEnd s) = trimEnd s.
Proof. unfold trimEnd. rewrite rev_involutive, trimStart_idem. reflexivity. Qed.

Lemma trimStart_head (s : jsstring) :
  match trimStart s with
  | [] => True
  | c :: _ => isTrimSpace c = false
  end.
Proof.
  induction s as [| c s IH]; [exact I |]. cbn.
  destruct (isTrimSpace c) eqn:Hc; [exact IH | exact Hc].
Qed.

Lemma trimEnd_prefix (s : jsstring) : exists z, s = trimEnd s ++ z.
Proof.
  unfold trimEnd. destruct (trimStart_suffix (rev s)) as [x Hx].
  exists (rev x). rewrite <- rev_app_distr, <- Hx, rev_involutive. reflexivity.
Qed.

Lemma trim_idem (s : jsstring) : trim (trim s) = trim s.
Proof.
  unfold trim. set (y := trimStart s).
  assert (H : trimStart (trimEnd y) = trimEnd y).
  { pose proof (trimStart_head s) as Hhead. fold y in Hhead.
    destruct (trimEnd_prefix y) as [z Hz].
    destruct (trimEnd y) as [| c r] eqn:Hy; [reflexivity |].
    rewrite Hz in Hhead. cbn in Hhead. apply trimStart_fixed. exact Hhead. }
  rewrite H. apply trimEnd_idem.
Qed.

Lemma toTrimmedString_trimmed (value : option JsValue) (s : jsstring) :
  toTrimmedString value = Some s -> trim s = s /\ s <> [].
Proof.
  destruct value as [[| | | x | |] |]; cbn; try discriminate.
  destruct (trim x) eqn:Hx; [discriminate |]. intros [= <-].
  rewrite <- Hx, trim_idem. split; [reflexivity |]. rewrite Hx. discriminate.
Qed.

(** A text is usable as a credential when it is trimmed and not empty. *)
Lemma hasNonEmptyString_trimmed (s : jsstring) :
  trim s = s -> s <> [] -> hasNonEmptyString (Some (JString s)) = true.
Proof.
  intros Ht Hne. cbn. rewrite Ht. destruct s; [congruence | reflexivity].
Qed.

Lemma newShown_app {A} (ui : Ui) (run : Outcome A * Ui) (new : list UiEvent) :
  shown (snd run) = shown ui ++ new -> newShown ui run = new.
Proof. intros H. unfold newShown. rewrite H, drop_app_length. reflexivity. Qed.

Lemma iterate_askText (label : jsstring) (required : bool)
    (defaultValue : option jsstring) (n : nat) (ui ui' : Ui) (v : jsstring) :
  let body := fun _ : unit =>
    r ← clackText label defaultValue;
    v ← guardCancel r;
    let value := trim (templateText v) in
    if truthy (Some value) then mret (inr value)
    else if truthy defaultValue then mret (inr (default [] defaultValue))
    else if negb required then mret (inr [])
    else warn (js "该字段为必填项。");; mret (inl tt) in
  iterate n body tt ui = (Done v, ui') ->
  ((exists x, v = trim x /\ v <> [])
   \/ (defaultValue = Some v /\ v <> [])
   \/ (required = false /\ v = []))
  /\ exists k,
       shown ui'
       = shown ui
         ++ concat (replicate k [AskedText label defaultValue;
                                 Written (nl ++ js "[warn] " ++ js "该字段为必填项。" ++ nl)])
         ++ [AskedText label defaultValue]
       /\ (length (script ui') + S k = length (script ui))%nat
       /\ (k <> 0%nat -> required = true /\ truthy defaultValue = false).
Proof.
  intros body. revert ui. induction n as [| n IH]; intros ui; [discriminate |].
  cbn [iterate]. unfold body at 1. unfold clackText, await, warn. dialog.
  destruct (script ui) as [| [[| x] | e] rest] eqn:Hs; cbn; try discriminate.
  assert (Hagain :
    truthy defaultValue = false -> required = true ->
    iterate n body tt
      {| script := rest;
         shown := (shown ui ++ [AskedText label defaultValue])
                  ++ [Written (nl ++ js "[warn] " ++ js "该字段为必填项。" ++ nl)] |}
    = (Done v, ui') ->
    ((exists x, v = trim x /\ v <> [])
     \/ (defaultValue = Some v /\ v <> [])
     \/ (required = false /\ v = []))
    /\ exists k,
         shown ui'
         = shown ui
           ++ concat (replicate k [AskedText label defaultValue;
                                   Written (nl ++ js "[warn] " ++ js "该字段为必填项。" ++ nl)])
           ++ [AskedText label defaultValue]
         /\ (length (script ui') + S k = length (script ui))%nat
         /\ (k <> 0%nat -> required = true /\ truthy defaultValue = false)).
  { intros Hd Hreq H. apply IH in H as (Hv & k & Hshown & Hlen & _).
    split; [exact Hv |]. exists (S k). cbn [script shown] in *.
    rewrite Hshown, Hs. cbn [replicate concat length].
    rewrite <- !app_assoc. cbn [app]. split; [reflexivity |].
    split; [lia | auto]. }
  rewrite Hs in Hagain. cbn [length] in Hagain.
  destruct (trim (templateText x)) eqn:Hx; cbn.
  - destruct defaultValue as [[| c d] |]; cbn.
    + destruct required; cbn.
      * intros H. apply Hagain; [reflexivity | reflexivity | exact H].
      * intros [= <- <-]. split; [right; right; auto |]. exists 0%nat. cbn.
        split; [reflexivity |]. split; [lia | congruence].
    + intros [= <- <-]. split; [right; left; split; [reflexivity | discriminate] |].
      exists 0%nat. cbn. split; [reflexivity |]. split; [lia | congruence].
    + destruct required; cbn.
      * intros H. apply Hagain; [reflexivity | reflexivity | exact H].
      * intros [= <- <-]. split; [right; right; auto |]. exists 0%nat. cbn.
        split; [reflexivity |]. split; [lia | congruence].
  - intros [= <- <-]. split.
    + left. exists (templateText x). rewrite Hx. split; [reflexivity | discriminate].
    + exists 0%nat. cbn. split; [reflexivity |]. split; [lia | congruence].
Qed.

(** The other way round: what a returned text says about the run. *)
Lemma askText_returned
    (label : jsstring) (required : bool) (defaultValue : option jsstring)
    (ui : Ui) (v : jsstring) :
  fst (askText label required defaultValue ui) = Done v ->
  ((exists x, v = trim x /\ v <> [])
   \/ (defaultValue = Some v /\ v <> [])
   \/ (required = false /\ v = []))
  /\ exists k,
       newShown ui (askText label required defaultValue ui)
       = concat (replicate k [AskedText label defaultValue;
                              Written (nl ++ js "[warn] " ++ js "该字段为必填项。" ++ nl)])
         ++ [AskedText label defaultValue]
       /\ (length (script (snd (askText label required defaultValue ui))) + S k
           = length (script ui))%nat
       /\ (k <> 0%nat -> required = true /\ truthy defaultValue = false).
Proof.
  unfold askText, loop.
  match goal with
  | |- context [iterate ?n ?body tt ui] =>
    destruct (iterate n body tt ui) as [o ui'] eqn:Hrun
  end.
  cbn [fst snd]. intros ->.
  apply iterate_askText in Hrun as (Hv & k & Hshown & Hlen & Hk).
  split; [exact Hv |]. exists k. split; [| auto].
  apply newShown_app. exact Hshown.
Qed.

Lemma iterate_askNumber (t : Terminal) (label : jsstring) (min : option Z)
    (defaultValue : option jsstring) (n : nat) (ui ui' : Ui) (v : jsstring) :
  let body := fun _ : unit =>
    r ← clackText label defaultValue;
    v ← guardCancel r;
    let raw := trim (templateText v) in
    let parsed := parseInt10 t raw in
    if isFiniteNumber parsed
       && match min with
          | None => true
          | Some m => numberAtLeast t parsed m
          end
    then mret (inr parsed)
    else
      warn (js "请输入有效整数"
            ++ match min with
               | Some m => js "（>= " ++ ofZ m ++ js "）"
               | None => []
               end
            ++ js "。");;
      mret (inl tt) in
  iterate n body tt ui = (Done v, ui') ->
  (exists x, v = parseInt10 t (trim (templateText x)))
  /\ isFiniteNumber v = true
  /\ (forall m, min = Some m -> numberAtLeast t v m = true).
Proof.
  intros body. revert ui. induction n as [| n IH]; intros ui; [discriminate |].
  cbn [iterate]. unfold body at 1. unfold clackText, await, warn. dialog.
  destruct (script ui) as [| [[| x] | e] rest] eqn:Hs; unfold guardCancel; dialog;
    try discriminate.
  cbv zeta.
  destruct (isFiniteNumber (parseInt10 t (trim (templateText x)))) eqn:Hfinite;
    cbn [andb].
  - destruct min as [m |].
    + destruct (numberAtLeast t (parseInt10 t (trim (templateText x))) m) eqn:Hmin;
        dialog.
      * intros [= <- <-]. split; [eauto |]. split; [exact Hfinite |].
        intros m' [= <-]. exact Hmin.
      * apply IH.
    + dialog. intros [= <- <-]. split; [eauto |]. split; [exact Hfinite |]. discriminate.
  - dialog. apply IH.
Qed.

(** The other way round: what a returned number says about the run. *)
Lemma askNumber_returned
    (t : Terminal) (label : jsstring) (min : option Z)
    (defaultValue : option jsstring) (ui : Ui) (v : jsstring) :
  fst (askNumber t label min defaultValue ui) = Done v ->
  (exists x, v = parseInt10 t (trim (templateText x)))
  /\ isFiniteNumber v = true
  /\ (forall m, min = Some m -> numberAtLeast t v m = true).
Proof.
  unfold askNumber, loop.
  match goal with
  | |- context [iterate ?n ?body tt ui] =>
    destruct (iterate n body tt ui) as [o ui'] eqn:Hrun
  end.
  cbn [fst snd]. intros ->. apply iterate_askNumber in Hrun. exact Hrun.
Qed.

Lemma iterate_S {St A} (n : nat) (body : St -> Dialog (St + A)) (s : St) (ui : Ui) :
  iterate (S n) body s ui
  = match body s ui with
    | (Done (inl s'), ui') => iterate n body s' ui'
    | (Done (inr a), ui') => (Done a, ui')
    | (Cancelled, ui') => (Cancelled, ui')
    | (Failed e, ui') => (Failed e, ui')
    | (Unanswered, ui') => (Unanswered, ui')
    end.
Proof. reflexivity. Qed.

(** A blank answer to a required question without default: a warning, and
    the question again. *)
Lemma askText_again (label : jsstring) (defaultValue : option jsstring)
    (b : option JsValue) (rest : list Answer) (before : list UiEvent) :
  trim (templateText b) = [] -> truthy defaultValue = false ->
  askText label true defaultValue
          {| script := Resolves (Value b) :: rest; shown := before |}
  = askText label true defaultValue
            {| script := rest;
               shown := before
                        ++ [AskedText label defaultValue;
                            Written (nl ++ js "[warn] " ++ js "该字段为必填项。" ++ nl)] |}.
Proof.
  intros Hb Hd. unfold askText, loop. cbn [script length].
  rewrite iterate_S.
  unfold clackText at 1, await at 1, guardCancel at 1, warn at 1. dialog.
  cbn [script shown]. rewrite Hb, Hd. cbn [truthy negb script shown].
  rewrite <- ?app_assoc. reflexivity.
Qed.

(** What [askText] makes of the answers.  Blank answers to a required
    question without default are each turned down with a warning and the
    question is put again; the first answer that is not turned down decides:
    its trimmed text when that is not empty, else the default when that is
    not empty, else the empty text.  Each question takes one answer, and the
    answers after the deciding one are left for the next prompt. *)
Theorem askText_contract
    (label : jsstring) (required : bool) (defaultValue : option jsstring)
    (blanks : list (option JsValue)) (x : option JsValue)
    (rest : list Answer) (before : list UiEvent) :
  Forall (fun b => trim (templateText b) = []) blanks ->
  (blanks <> [] -> required = true /\ truthy defaultValue = false) ->
  (trim (templateText x) = [] -> truthy defaultValue = true \/ required = false) ->
  askText label required defaultValue
          {| script := resolving blanks ++ Resolves (Value x) :: rest;
             shown := before |}
  = (Done (match trim (templateText x) with
           | [] => if truthy defaultValue then default [] defaultValue else []
           | typed => typed
           end),
     {| script := rest;
        shown := before
                 ++ concat (replicate (length blanks)
                              [AskedText label defaultValue;
                               Written (nl ++ js "[warn] " ++ js "该字段为必填项。" ++ nl)])
                 ++ [AskedText label defaultValue] |}).
Proof.
  revert before. induction blanks as [| b blanks IH]; intros before Hblank Hretry Hlast.
  - unfold askText, loop. cbn [resolving map app script length]. rewrite iterate_S.
    unfold clackText, await, guardCancel, warn. dialog. cbn [script shown].
    cbn [replicate concat length app].
    destruct (trim (templateText x)) as [| c typed] eqn:Hx; cbn [truthy].
    + destruct Hlast as [Hd | Hreq]; [reflexivity | |].
      * rewrite Hd. reflexivity.
      * destruct (truthy defaultValue); [reflexivity |]. rewrite Hreq. reflexivity.
    + reflexivity.
  - apply Forall_cons in Hblank as [Hb Hblank].
    destruct (Hretry ltac:(discriminate)) as [Hreq Hd]. subst required.
    cbn [resolving map app].
    rewrite (askText_again _ _ _ _ _ Hb Hd).
    fold (resolving blanks).
    rewrite (IH _ Hblank (fun _ => conj eq_refl Hd) Hlast).
    cbn [length replicate concat]. rewrite <- !app_assoc. reflexivity.
Qed.

Lemma askNumber_again (t : Terminal) (label : jsstring) (min : option Z)
    (defaultValue : option jsstring)
    (b : option JsValue) (rest : list Answer) (before : list UiEvent) :
  accepts t min b = false ->
  askNumber t label min defaultValue
            {| script := Resolves (Value b) :: rest; shown := before |}
  = askNumber t label min defaultValue
              {| script := rest;
                 shown := before
                          ++ [AskedText label defaultValue;
                              Written (nl ++ js "[warn] "
                                       ++ (js "请输入有效整数"
                                           ++ match min with
                                              | Some m => js "（>= " ++ ofZ m ++ js "）"
                                              | None => []
                                              end
                                           ++ js "。")
                                       ++ nl)] |}.
Proof.
  intros Hb. unfold askNumber, loop. cbn [script length].
  rewrite iterate_S.
  unfold clackText at 1, await at 1, guardCancel at 1, warn at 1. dialog.
  cbn [script shown]. cbv zeta.
  unfold accepts in Hb. cbv zeta in Hb. rewrite Hb. cbn [script shown].
  rewrite <- ?app_assoc. reflexivity.
Qed.

(** What [askNumber] makes of the answers.  Each answer whose parsed number
    is not finite, or is below the minimum, is turned down with a warning and
    the question is put again; the first answer that passes is returned as
    [parseInt] read it.  Each question takes one answer. *)
Theorem askNumber_contract
    (t : Terminal) (label : jsstring) (min : option Z)
    (defaultValue : option jsstring)
    (refused : list (option JsValue)) (x : option JsValue)
    (rest : list Answer) (before : list UiEvent) :
  Forall (fun b => accepts t min b = false) refused ->
  accepts t min x = true ->
  askNumber t label min defaultValue
            {| script := resolving refused ++ Resolves (Value x) :: rest;
               shown := before |}
  = (Done (parseInt10 t (trim (templateText x))),
     {| script := rest;
        shown := before
                 ++ concat (replicate (length refused)
                              [AskedText label defaultValue;
                               Written (nl ++ js "[warn] "
                                        ++ (js "请输入有效整数"
                                            ++ match min with
                                               | Some m => js "（>= " ++ ofZ m ++ js "）"
                                               | None => []
                                               end
                                            ++ js "。")
                                        ++ nl)])
                 ++ [AskedText label defaultValue] |}).
Proof.
  revert before. induction refused as [| b refused IH]; intros before Hrefused Hx.
  - unfold askNumber, loop. cbn [resolving map app script length]. rewrite iterate_S.
    unfold clackText, await, guardCancel, warn. dialog. cbn [script shown].
    cbn [replicate concat length app]. cbv zeta.
    unfold accepts in Hx. cbv zeta in Hx. rewrite Hx. reflexivity.
  - apply Forall_cons in Hrefused as [Hb Hrefused].
    cbn [resolving map app].
    rewrite (askNumber_again _ _ _ _ _ _ _ Hb).
    fold (resolving refused).
    rewrite (IH _ Hrefused Hx).
    cbn [length replicate concat]. rewrite <- !app_assoc. reflexivity.
Qed.

(** A required text whose default went through [toTrimmedString] comes back
    usable as a credential. *)
Lemma askText_credential (label : jsstring) (existing : option JsValue)
    (ui ui' : Ui) (v : jsstring) :
  askText label true (toTrimmedString existing) ui = (Done v, ui') ->
  hasNonEmptyString (Some (JString v)) = true.
Proof.
  unfold askText, loop. intros H.
  apply iterate_askText in H as ([(x & -> & Hne) | [[Hd Hne] | [? _]]] & _);
    [| | discriminate].
  - apply hasNonEmptyString_trimmed; [apply trim_idem | exact Hne].
  - apply toTrimmedString_trimmed in Hd as [Ht _].
    apply hasNonEmptyString_trimmed; assumption.
Qed.

Ltac step H := apply bind_done_inv in H as (? & ? & ? & H).

Ltac credentials :=
  repeat match goal with
  | H : askText _ true (toTrimmedString _) _ = (Done _, _) |- _ =>
    apply askText_credential in H
  end.

Lemma configureSingleChannel_result (t : Terminal) (channel : jsstring)
    (cfg cfg' : Members) (ui ui' : Ui) :
  ChinaSetup.isChannelId channel = true ->
  configureSingleChannel t channel cfg ui = (Done cfg', ui') ->
  exists patch,
    cfg' = mergeChannelConfig cfg channel patch
    /\ Forall (fun key => hasNonEmptyString (member key patch) = true)
              (credentialKeys channel).
Proof.
  intros Hid H. unfold ChinaSetup.isChannelId in Hid.
  apply bool_decide_eq_true in Hid. unfold ChinaSetup.CHANNEL_ORDER in Hid.
  unfold configureSingleChannel in H.
  repeat (apply elem_of_cons in Hid as [-> | Hid]); [.. | inversion Hid].
  all: repeat (rewrite decide_False in H by (vm_compute; discriminate));
    rewrite ?(decide_True (P := _ = _)) in H by reflexivity.
  - unfold configureDingtalk, askSecret in H. do 5 step H.
    injection H as <- <-. credentials.
    eexists. split; [reflexivity |].
    repeat constructor; assumption.
  - unfold configureQQBot, askSecret in H. do 8 step H.
    injection H as <- <-. credentials.
    eexists. split; [reflexivity |].
    repeat constructor; assumption.
  - unfold configureWecom, askSecret in H. do 5 step H.
    injection H as <- <-. credentials.
    eexists. split; [reflexivity |].
    repeat constructor; assumption.
  - unfold configureWecomApp, askSecret in H. do 10 step H.
    injection H as <- <-. credentials.
    eexists. split; [reflexivity |].
    repeat constructor; assumption.
  - unfold configureFeishu, askSecret in H. do 5 step H.
    injection H as <- <-. credentials.
    eexists. split; [reflexivity |].
    repeat constructor; assumption.
Qed.

(** *** The selection loop *)

Lemma asked_closes {A} (m : Dialog A) (note : A -> option jsstring) :
  (forall a, note a = None) -> follows m asked -> follows m (closes note).
Proof.
  intros Hnote Hm. apply (follows_conseq _ _ _ Hm).
  intros [a | | e |] new; cbn; rewrite ?Hnote; auto.
Qed.

Lemma closes_bind {A B} (m : Dialog A) (f : A -> Dialog B)
    (note : B -> option jsstring) :
  follows m asked -> (forall a, follows (f a) (closes note)) ->
  follows (m ≫= f) (closes note).
Proof.
  intros Hm Hf ui. unfold mbind, Dialog_bind.
  destruct (Hm ui) as (used & new & H1 & H2 & H3).
  destruct (m ui) as [[a | | e |] ui1]; cbn [fst snd] in *;
    try (exists used, new; auto; fail).
  destruct (Hf a ui1) as (used' & new' & H1' & H2' & H3').
  exists (used ++ used'), (new ++ new').
  rewrite H1, H1', H2', H2, !app_assoc. split; [reflexivity |].
  split; [reflexivity |]. cbn in H3.
  destruct (fst (f a ui1)) as [b | | e |]; cbn in *; rewrite ?forallb_app, ?H3; auto.
  - destruct (note b); [| exact H3'].
    destruct H3' as (pre & -> & Hpre). exists (new ++ pre).
    rewrite forallb_app, H3, Hpre, app_assoc. auto.
  - destruct H3' as (pre & -> & Hpre). exists (new ++ pre).
    rewrite forallb_app, H3, Hpre, app_assoc. auto.
Qed.

Lemma closes_iterate {St A} (body : St -> Dialog (St + A))
    (note : A -> option jsstring) :
  (forall s, follows (body s)
               (closes (fun x => match x with inl _ => None | inr a => note a end))) ->
  forall n s, follows (iterate n body s) (closes note).
Proof.
  intros Hbody n. induction n as [| n IH]; intros s.
  { intros ui. exists [], []. cbn. rewrite app_nil_r. auto. }
  intros ui. cbn [iterate].
  destruct (Hbody s ui) as (used & new & H1 & H2 & H3).
  destruct (body s ui) as [[[s' | a] | | e |] ui1]; cbn [fst snd] in *;
    try (exists used, new; auto; fail).
  destruct (IH s' ui1) as (used' & new' & H1' & H2' & H3').
  exists (used ++ used'), (new ++ new').
  rewrite H1, H1', H2', H2, !app_assoc. split; [reflexivity |].
  split; [reflexivity |]. cbn in H3.
  destruct (fst (iterate n body s' ui1)) as [b | | e |]; cbn in *;
    rewrite ?forallb_app, ?H3; auto.
  - destruct (note b); [| exact H3'].
    destruct H3' as (pre & -> & Hpre). exists (new ++ pre).
    rewrite forallb_app, H3, Hpre, app_assoc. auto.
  - destruct H3' as (pre & -> & Hpre). exists (new ++ pre).
    rewrite forallb_app, H3, Hpre, app_assoc. auto.
Qed.

Lemma closes_ret {A} (a : A) (note : A -> option jsstring) :
  note a = None -> follows (mret a) (closes note).
Proof.
  intros Hnote ui. exists [], []. cbn. rewrite app_nil_r, Hnote. auto.
Qed.

Lemma closes_selectRound (t : Terminal) (options : list SelectOption)
    (defaultChannel : jsstring) (state : Members * list jsstring) :
  follows (selectRound t options defaultChannel state)
          (closes (fun x => match x with inl _ => None | inr a => leftNote a end)).
Proof.
  destruct state as [next touched]. unfold selectRound.
  apply closes_bind; [apply asked_askSelect |]. intros selected.
  repeat case_decide.
  - intros ui. exists [], [CancelShown (js "已取消，未写入任何配置。")]. cbn.
    split; [reflexivity |]. split; [reflexivity |]. exists []. auto.
  - apply closes_ret. reflexivity.
  - apply closes_bind; [apply asked_configureSingleChannel |]. intros next'.
    apply closes_bind; [apply asked_say; reflexivity |]. intros _.
    apply closes_bind; [apply asked_askConfirm |]. intros [|];
      apply closes_ret; reflexivity.
Qed.

Lemma closes_selection (t : Terminal) (options : list SelectOption)
    (defaultChannel : jsstring) (state : Members * list jsstring) :
  follows (loop (selectRound t options defaultChannel) state) (closes leftNote).
Proof.
  intros ui. unfold loop. apply closes_iterate. intros s. apply closes_selectRound.
Qed.

(** Every loop of the wizard takes an answer in each round that goes on. *)
Lemma bind_takes {A B} (m : Dialog A) (f : A -> Dialog B) (ui : Ui) (b : B) :
  follows m asked -> (forall a, follows (f a) asked) ->
  fst ((m ≫= f) ui) = Done b ->
  exists a ui1, m ui = (Done a, ui1) /\ fst (f a ui1) = Done b
                /\ snd ((m ≫= f) ui) = snd (f a ui1).
Proof.
  intros _ _. unfold mbind, Dialog_bind.
  destruct (m ui) as [[a | | e |] ui1]; try discriminate.
  intros H. exists a, ui1. auto.
Qed.

Lemma script_shrinks {A} (m : Dialog A) (ui : Ui) :
  follows m asked -> (length (script (snd (m ui))) <= length (script ui))%nat.
Proof.
  intros Hm. destruct (Hm ui) as (used & new & H1 & _).
  rewrite H1, length_app. lia.
Qed.

Lemma await_takes (ev : UiEvent) (ui ui' : Ui) (r : Resolved (option JsValue)) :
  await ev ui = (Done r, ui') -> (length (script ui') < length (script ui))%nat.
Proof.
  unfold await. destruct (script ui) as [| [r' | e] rest]; try discriminate.
  intros [= <- <-]. cbn. lia.
Qed.

Lemma askSelect_result (message : jsstring) (options : list SelectOption)
    (defaultValue : jsstring) (ui ui' : Ui) (selected : jsstring) :
  askSelect message options defaultValue ui = (Done selected, ui') ->
  selected ∈ map opt_value options
  /\ (length (script ui') < length (script ui))%nat.
Proof.
  unfold askSelect. intros H.
  apply bind_done_inv in H as (r & ui1 & Hsel & H).
  destruct r as [| s]; [discriminate H |]. injection H as <- <-.
  unfold clackSelect in Hsel.
  apply bind_done_inv in Hsel as (r & ui0 & Hawait & Hsel).
  apply await_takes in Hawait.
  destruct r as [| [[| | | x | |] |]]; try discriminate Hsel.
  case_bool_decide as Hin; [| discriminate Hsel].
  injection Hsel as <- <-.
  rewrite map_map in Hin. cbn in Hin. auto.
Qed.

Lemma follows_shrinks {A} (m : Dialog A) (post : Outcome A -> list UiEvent -> Prop)
    (ui : Ui) :
  follows m post -> (length (script (snd (m ui))) <= length (script ui))%nat.
Proof.
  intros Hm. destruct (Hm ui) as (used & new & H1 & _).
  rewrite H1, length_app. lia.
Qed.

Lemma selectRound_takes (t : Terminal) (options : list SelectOption)
    (defaultChannel : jsstring) :
  takesAnswer (selectRound t options defaultChannel).
Proof.
  intros [next touched] ui s' H.
  destruct (selectRound t options defaultChannel (next, touched) ui) as [o ui'] eqn:Hrun.
  cbn [fst snd] in *. subst o. unfold selectRound in Hrun.
  apply bind_done_inv in Hrun as (selected & ui1 & Hsel & Hrun).
  apply askSelect_result in Hsel as [_ Hlt].
  repeat case_decide; try discriminate Hrun.
  match type of Hrun with
  | ?m ui1 = _ => assert (Hm : follows m asked)
  end.
  { apply asked_bind; [apply asked_configureSingleChannel |]. intros next'.
    apply asked_bind; [apply asked_say; reflexivity |]. intros _.
    apply asked_bind; [apply asked_askConfirm |]. intros [|]; apply asked_ret. }
  pose proof (follows_shrinks _ _ ui1 Hm) as Hle. rewrite Hrun in Hle.
  cbn [snd] in Hle. lia.
Qed.

Lemma loop_enough {St A} (body : St -> Dialog (St + A)) (s : St) (ui : Ui) (n : nat) :
  takesAnswer body -> (length (script ui) < n)%nat ->
  iterate n body s ui = loop body s ui.
Proof.
  intros Htakes Hn. unfold loop. apply iterate_enough; [exact Htakes | lia | lia].
Qed.

(** However many rounds the selection loop is allowed beyond the answers
    left, it ends the same way. *)
Lemma selection_enough (t : Terminal) (options : list SelectOption)
    (defaultChannel : jsstring) (state : Members * list jsstring) (ui : Ui) (n : nat) :
  (length (script ui) < n)%nat ->
  iterate n (selectRound t options defaultChannel) state ui
  = loop (selectRound t options defaultChannel) state ui.
Proof. apply loop_enough, selectRound_takes. Qed.

Lemma askText_takes (label : jsstring) (required : bool)
    (defaultValue : option jsstring) :
  takesAnswer (fun _ : unit =>
    r ← clackText label defaultValue;
    v ← guardCancel r;
    let value := trim (templateText v) in
    if truthy (Some value) then mret (inr value)
    else if truthy defaultValue then mret (inr (default [] defaultValue))
    else if negb required then mret (inr [])
    else warn (js "该字段为必填项。");; mret (inl tt)).
Proof.
  intros [] ui [] H.
  match goal with
  | |- context [snd (?m ui)] => destruct (m ui) as [o ui'] eqn:Hrun
  end.
  cbn [fst snd] in *. subst o.
  apply bind_done_inv in Hrun as (r & ui1 & Hawait & Hrun).
  apply await_takes in Hawait.
  match type of Hrun with
  | ?m ui1 = _ => assert (Hm : follows m asked) by (unfold warn; questions)
  end.
  pose proof (follows_shrinks _ _ ui1 Hm) as Hle. rewrite Hrun in Hle.
  cbn [snd] in Hle. lia.
Qed.

(** An [askText] that is allowed more rounds than there are answers left
    ends the same way. *)
Lemma askText_enough (label : jsstring) (required : bool)
    (defaultValue : option jsstring) (ui : Ui) (n : nat) :
  (length (script ui) < n)%nat ->
  iterate n (fun _ : unit =>
    r ← clackText label defaultValue;
    v ← guardCancel r;
    let value := trim (templateText v) in
    if truthy (Some value) then mret (inr value)
    else if truthy defaultValue then mret (inr (default [] defaultValue))
    else if negb required then mret (inr [])
    else warn (js "该字段为必填项。");; mret (inl tt)) tt ui
  = askText label required defaultValue ui.
Proof. intros Hn. apply loop_enough; [apply askText_takes | exact Hn]. Qed.

(** *** What the selection loop builds *)

Lemma isChannelConfigured_ext (a b : Members) (c : jsstring) :
  getChannelConfig a c = getChannelConfig b c ->
  isChannelConfigured a c = isChannelConfigured b c.
Proof. intros H. unfold isChannelConfigured. rewrite H. reflexivity. Qed.

Lemma elem_of_add (c selected : jsstring) (touched : list jsstring) :
  c ∈ add selected touched <-> c = selected \/ c ∈ touched.
Proof.
  unfold add. case_bool_decide as Hin.
  - split; [auto |]. intros [-> | H]; assumption.
  - rewrite elem_of_app, list_elem_of_singleton. tauto.
Qed.

Lemma built_step (initial : Members) (available : list jsstring)
    (next : Members) (touched : list jsstring) (selected : jsstring) (patch : Members) :
  built initial available (next, touched) ->
  selected ∈ available ->
  ChinaSetup.isChannelId selected = true ->
  Forall (fun key => hasNonEmptyString (member key patch) = true)
         (credentialKeys selected) ->
  built initial available
        (mergeChannelConfig next selected patch, add selected touched).
Proof.
  intros (Hav & Hcfg & Hrest & Htop) Hin Hid Hpatch. cbn.
  split; [| split; [| split]].
  - intros c Hc. apply elem_of_add in Hc as [-> | Hc]; auto.
  - intros c Hc. destruct (decide (c = selected)) as [-> | Hne].
    + split; [apply merged_is_configured; assumption |].
      rewrite getChannelConfig_merged, member_defineProp, decide_True by reflexivity.
      reflexivity.
    + apply elem_of_add in Hc as [? | Hc]; [contradiction |].
      rewrite (isChannelConfigured_ext _ next), getChannelConfig_merged_other
        by (rewrite ?getChannelConfig_merged_other by exact Hne; auto).
      apply Hcfg. exact Hc.
  - intros c Hc. rewrite elem_of_add in Hc.
    rewrite getChannelConfig_merged_other by (intros ->; tauto).
    apply Hrest. tauto.
  - intros key Hkey. rewrite member_merged_top by exact Hkey. apply Htop, Hkey.
Qed.

Lemma selectRound_built (t : Terminal) (options : list SelectOption)
    (defaultChannel : jsstring) (initial : Members)
    (state : Members * list jsstring) (ui : Ui) :
  Forall (fun c => ChinaSetup.isChannelId c = true) (map opt_value options) ->
  built initial (map opt_value options) state ->
  match fst (selectRound t options defaultChannel state ui) with
  | Done (inl state') | Done (inr (Some state')) =>
    built initial (map opt_value options) state'
  | _ => True
  end.
Proof.
  intros Hvalid Hbuilt. destruct state as [next touched].
  unfold selectRound. unfold mbind at 1, Dialog_bind at 1.
  destruct (askSelect _ _ _ ui) as [[selected | | e |] ui1] eqn:Hsel;
    cbn [fst snd]; try exact I.
  apply askSelect_result in Hsel as [Hin _].
  repeat case_decide; [exact I | exact Hbuilt |].
  unfold menu in Hin. rewrite map_app, elem_of_app in Hin. cbn in Hin.
  destruct Hin as [Hin | Hin].
  2: { repeat (apply elem_of_cons in Hin as [? | Hin]); try contradiction.
       inversion Hin. }
  pose proof (proj1 (Forall_forall _ _) Hvalid selected Hin) as Hid.
  unfold mbind at 1, Dialog_bind at 1.
  destruct (configureSingleChannel t selected next ui1) as [[next' | | e |] ui2] eqn:Hc;
    cbn [fst snd]; try exact I.
  apply configureSingleChannel_result in Hc as (patch & -> & Hpatch); [| exact Hid].
  pose proof (built_step _ _ _ _ _ _ Hbuilt Hin Hid Hpatch) as Hnext.
  unfold mbind at 1, Dialog_bind at 1, say.
  unfold mbind at 1, Dialog_bind at 1.
  match goal with
  | |- context [askConfirm ?l ?d ?u] =>
    destruct (askConfirm l d u) as [[[|] | | e |] ui3]
  end; cbn; auto.
Qed.

Lemma iterate_built (t : Terminal) (options : list SelectOption)
    (defaultChannel : jsstring) (initial : Members) (n : nat) :
  Forall (fun c => ChinaSetup.isChannelId c = true) (map opt_value options) ->
  forall state ui,
    built initial (map opt_value options) state ->
    match fst (iterate n (selectRound t options defaultChannel) state ui) with
    | Done (Some state') => built initial (map opt_value options) state'
    | _ => True
    end.
Proof.
  intros Hvalid. induction n as [| n IH]; intros state ui Hbuilt; [exact I |].
  cbn [iterate].
  pose proof (selectRound_built t options defaultChannel initial state ui Hvalid Hbuilt)
    as Hround.
  destruct (selectRound t options defaultChannel state ui)
    as [[[state' | [state' |]] | | e |] ui1]; cbn [fst snd] in *; auto.
  apply IH. exact Hround.
Qed.

Lemma map_imap_inverse {A B} (f : B -> A) (g : nat -> A -> B) (l : list A) :
  (forall i x, f (g i x) = x) -> map f (imap g l) = l.
Proof.
  revert g. induction l as [| x l IH]; intros g H; [reflexivity |].
  cbn. rewrite H, IH; [reflexivity |]. intros i y. apply H.
Qed.

Lemma channelOptions_values (next : Members) (channels : list jsstring) :
  map opt_value (channelOptions next channels) = channels.
Proof. apply map_imap_inverse. reflexivity. Qed.

Lemma built_initial (initial : Members) (available : list jsstring) :
  built initial available (initial, []).
Proof.
  cbn. split; [| split; [| split]]; auto; intros c Hc; inversion Hc.
Qed.

(** *** A whole run *)

Lemma selection_built (t : Terminal) (initial : Members) (available : list jsstring)
    (defaultChannel : jsstring) (ui u : Ui) (next : Members) (touched : list jsstring) :
  Forall (fun c => ChinaSetup.isChannelId c = true) available ->
  loop (selectRound t (channelOptions initial available) defaultChannel)
       (initial, []) ui
  = (Done (Some (next, touched)), u) ->
  built initial available (next, touched).
Proof.
  intros Hvalid HL. unfold loop in HL.
  pose proof (iterate_built t (channelOptions initial available) defaultChannel initial
                (S (length (script ui)))) as H.
  rewrite channelOptions_values in H.
  specialize (H Hvalid (initial, []) ui (built_initial _ _)).
  rewrite HL in H. exact H.
Qed.

Lemma say_bind {B} (ev : UiEvent) (f : unit -> Dialog B) (ui : Ui) :
  (say ev ≫= f) ui = f tt {| script := script ui; shown := shown ui ++ [ev] |}.
Proof. reflexivity. Qed.

Lemma bind_run {A B} (m : Dialog A) (f : A -> Dialog B) (ui : Ui) :
  (m ≫= f) ui
  = match m ui with
    | (Done a, ui') => f a ui'
    | (Cancelled, ui') => (Cancelled, ui')
    | (Failed e, ui') => (Failed e, ui')
    | (Unanswered, ui') => (Unanswered, ui')
    end.
Proof. reflexivity. Qed.

Lemma runChinaSetup_shape (t : Terminal) (params : SetupParams) (ui : Ui) :
  exists used new,
    script ui = used ++ script (snd (runChinaSetup t params ui))
    /\ shown (snd (runChinaSetup t params ui)) = shown ui ++ new
    /\ ((forallb plain new = true /\ fst (runChinaSetup t params ui) <> Cancelled)
        \/ (exists pre message,
              new = pre ++ [CancelShown message]
              /\ forallb plain pre = true
              /\ fst (runChinaSetup t params ui) = Done tt)
        \/ (exists pre next touched write,
              new = pre ++ ConfigWritten next
                           :: match write next with
                              | None => [Outro (js "配置已保存。");
                                         Written (nl ++ renderReadyMessage t ++ nl)]
                              | Some _ => []
                              end
              /\ forallb plain pre = true
              /\ writeConfig params = Some write
              /\ fst (runChinaSetup t params ui)
                 = match write next with
                   | None => Done tt
                   | Some e => Failed e
                   end
              /\ touched <> []
              /\ (Forall (fun c => ChinaSetup.isChannelId c = true)
                         (availableChannels params) ->
                  built (initialConfig params) (availableChannels params)
                        (next, touched)))).
Proof.
  destruct (runChinaSetup t params ui) as [o ui'] eqn:Hrun. cbn [fst snd].
  unfold runChinaSetup, logError in Hrun.
  destruct (negb (stdin_isTTY t) || negb (stdout_isTTY t)).
  { destruct (logger_error params); injection Hrun as <- <-; cbn [script shown].
    - exists [], [LoggedError (js "交互式配置需要在 TTY 终端中运行。")].
      split; [reflexivity |]. split; [reflexivity |]. left. split; [reflexivity | discriminate].
    - exists [], []. rewrite app_nil_r.
      split; [reflexivity |]. split; [reflexivity |]. left. split; [reflexivity | discriminate]. }
  unfold catchCancelled, cloneConfig in Hrun. rewrite !say_bind in Hrun.
  cbn [script shown] in Hrun.
  set (welcome := Noted _ (js "欢迎")) in Hrun.
  case_bool_decide as Hnone.
  { destruct (logger_error params); injection Hrun as <- <-; cbn [script shown].
    - eexists [], [_; _; _]. rewrite <- !app_assoc.
      split; [reflexivity |]. split; [reflexivity |]. left. split; [reflexivity | discriminate].
    - eexists [], [_; _]. rewrite <- !app_assoc.
      split; [reflexivity |]. split; [reflexivity |]. left. split; [reflexivity | discriminate]. }
  rewrite bind_run in Hrun.
  set (options := channelOptions (initialConfig params) (availableChannels params)) in Hrun.
  set (defaultChannel := default (js "save") (opt_value <$> head options)) in Hrun.
  set (start := {| script := script ui; shown := _ |}) in Hrun.
  destruct (closes_selection t options defaultChannel (initialConfig params, []) start)
    as (used & new & H1 & H2 & H3).
  pose proof (selection_built t (initialConfig params) (availableChannels params)
                defaultChannel start) as Hbuilt.
  fold options in Hbuilt.
  destruct (loop (selectRound t options defaultChannel) (initialConfig params, []) start)
    as [[[[next touched] |] | | e |] u] eqn:HL; cbn [fst snd] in *.
  - case_bool_decide as Htouched.
    + injection Hrun as <- <-. cbn [script shown].
      exists used, ([Intro (js "OpenClaw China 配置向导"); welcome] ++ new
                    ++ [CancelShown (js "未进行任何修改。")]).
      rewrite H2. unfold start. cbn [shown]. rewrite <- !app_assoc.
      split; [exact H1 |]. split; [reflexivity |]. right. left.
      eexists (_ :: _ :: new), _. split; [reflexivity |]. split; [exact H3 | reflexivity].
    + rewrite say_bind in Hrun.
      set (summary := Noted _ (js "摘要")) in Hrun.
      destruct (writeConfig params) as [write |] eqn:Hwrite.
      * unfold callWriteConfig in Hrun. rewrite bind_run, say_bind in Hrun.
        exists used.
        destruct (write next) as [e |] eqn:Hw;
          unfold mret, Dialog_ret, stop, showReadyMessage in Hrun;
          cbv beta iota in Hrun; rewrite ?say_bind in Hrun;
          unfold say in Hrun; cbv beta iota in Hrun; cbn [script shown] in Hrun;
          set (ready := Written (nl ++ renderReadyMessage t ++ nl)) in *;
          set (outro := Outro (js "配置已保存。")) in *;
          set (intro := Intro (js "OpenClaw China 配置向导")) in *;
          injection Hrun as <- <-; cbn [script shown];
          rewrite H2; unfold start; cbn [shown].
        -- exists (([intro; welcome] ++ new ++ [summary]) ++ [ConfigWritten next]).
           split; [exact H1 |]. split; [rewrite <- !app_assoc; reflexivity |].
           right. right.
           exists ([intro; welcome] ++ new ++ [summary]), next, touched, write.
           rewrite Hw.
           split; [reflexivity |].
           split; [cbn [forallb app]; rewrite forallb_app, H3; reflexivity |].
           split; [reflexivity |]. split; [reflexivity |].
           split; [exact Htouched |].
           intros Hvalid. apply (Hbuilt u next touched Hvalid eq_refl).
        -- exists (([intro; welcome] ++ new ++ [summary]) ++ [ConfigWritten next; outro; ready]).
           split; [exact H1 |]. split; [rewrite <- !app_assoc; reflexivity |].
           right. right.
           exists ([intro; welcome] ++ new ++ [summary]), next, touched, write.
           rewrite Hw.
           split; [rewrite <- !app_assoc; reflexivity |].
           split; [cbn [forallb app]; rewrite forallb_app, H3; reflexivity |].
           split; [reflexivity |]. split; [reflexivity |].
           split; [exact Htouched |].
           intros Hvalid. apply (Hbuilt u next touched Hvalid eq_refl).
      * exists used.
        destruct (logger_error params);
          unfold mret, Dialog_ret, say in Hrun; cbv beta iota in Hrun;
          cbn [script shown] in Hrun; injection Hrun as <- <-;
          cbn [script shown]; rewrite H2; unfold start; cbn [shown];
          rewrite <- !app_assoc;
          (eexists; split; [exact H1 |]; split; [reflexivity |]);
          left; (split; [| discriminate]);
          cbn [forallb app]; rewrite forallb_app, H3; reflexivity.
  - injection Hrun as <- <-. destruct H3 as (pre & -> & Hpre).
    exists used. rewrite H2. unfold start. cbn [shown]. rewrite <- !app_assoc.
    eexists. split; [exact H1 |]. split; [reflexivity |]. right. left.
    eexists (_ :: _ :: pre), _. split; [reflexivity |]. split; [exact Hpre | reflexivity].
  - injection Hrun as <- <-. destruct H3 as (pre & -> & Hpre).
    exists used. rewrite H2. unfold start. cbn [shown]. rewrite <- !app_assoc.
    eexists. split; [exact H1 |]. split; [reflexivity |]. right. left.
    eexists (_ :: _ :: pre), _. split; [reflexivity |]. split; [exact Hpre | reflexivity].
  - injection Hrun as <- <-.
    exists used. rewrite H2. unfold start. cbn [shown]. rewrite <- !app_assoc.
    eexists. split; [exact H1 |]. split; [reflexivity |]. left.
    split; [exact H3 | discriminate].
  - injection Hrun as <- <-.
    exists used. rewrite H2. unfold start. cbn [shown]. rewrite <- !app_assoc.
    eexists. split; [exact H1 |]. split; [reflexivity |]. left.
    split; [exact H3 | discriminate].
Qed.

Lemma plain_not_written (evs : list UiEvent) :
  forallb plain evs = true ->
  forallb (fun ev => negb (isConfigWritten ev)) evs = true.
Proof.
  intros H. induction evs as [| ev evs IH]; [reflexivity |].
  cbn in *. apply andb_true_iff in H as [Hev Hevs].
  rewrite (IH Hevs). unfold plain in Hev.
  apply andb_true_iff in Hev as [-> _]. reflexivity.
Qed.

Lemma plain_elem (evs : list UiEvent) (ev : UiEvent) :
  forallb plain evs = true -> ev ∈ evs -> plain ev = true.
Proof.
  intros H Hin. apply list_elem_of_In in Hin.
  exact (proj1 (forallb_forall plain evs) H ev Hin).
Qed.

(** The write of the configuration is the last thing the wizard does.  A run
    writes nothing at all, or it writes once, after everything else and
    without any cancellation notice before; what follows the write is the
    closing message and the hints when the write succeeded, and nothing when
    it failed, in which case the error of the writer is the error of the
    run. *)
Theorem runChinaSetup_write_is_final
    (t : Terminal) (params : SetupParams) (ui : Ui) :
  forallb (fun ev => negb (isConfigWritten ev))
          (newShown ui (runChinaSetup t params ui)) = true
  \/ exists pre next write,
       writeConfig params = Some write
       /\ forallb plain pre = true
       /\ newShown ui (runChinaSetup t params ui)
          = pre ++ ConfigWritten next
                   :: match write next with
                      | None => [Outro (js "配置已保存。");
                                 Written (nl ++ renderReadyMessage t ++ nl)]
                      | Some _ => []
                      end
       /\ fst (runChinaSetup t params ui)
          = match write next with
            | None => Done tt
            | Some e => Failed e
            end.
Proof.
  destruct (runChinaSetup_shape t params ui) as (used & new & _ & Hshown & Hcases).
  rewrite (newShown_app _ _ _ Hshown).
  destruct Hcases as [[Hplain _] | [(pre & message & -> & Hpre & _) | Hwrite]].
  - left. apply plain_not_written, Hplain.
  - left. rewrite forallb_app, (plain_not_written _ Hpre). reflexivity.
  - right. destruct Hwrite as (pre & next & touched & write & -> & Hpre & Hw & Ho & _).
    exists pre, next, write. auto.
Qed.

(** Cancelling never writes and never fails.  The cancellation of a prompt
    does not leave [runChinaSetup] as an error, and whenever a cancellation
    notice was shown, by a prompt, by the choice not to save or because
    nothing was changed, the run returned normally and wrote nothing. *)
Theorem runChinaSetup_cancel_writes_nothing
    (t : Terminal) (params : SetupParams) (ui : Ui) :
  fst (runChinaSetup t params ui) <> Cancelled
  /\ forall message,
       CancelShown message ∈ newShown ui (runChinaSetup t params ui) ->
       fst (runChinaSetup t params ui) = Done tt
       /\ forallb (fun ev => negb (isConfigWritten ev))
                  (newShown ui (runChinaSetup t params ui)) = true.
Proof.
  destruct (runChinaSetup_shape t params ui) as (used & new & _ & Hshown & Hcases).
  rewrite (newShown_app _ _ _ Hshown).
  destruct Hcases as [[Hplain Ho] | [(pre & message & -> & Hpre & Ho) | Hwrite]].
  - split; [exact Ho |]. intros message Hin.
    apply (plain_elem _ _ Hplain) in Hin. discriminate Hin.
  - split; [rewrite Ho; discriminate |]. intros _ _. split; [exact Ho |].
    rewrite forallb_app, (plain_not_written _ Hpre). reflexivity.
  - destruct Hwrite as (pre & next & touched & write & -> & Hpre & Hw & Ho & _).
    split; [rewrite Ho; destruct (write next); discriminate |].
    intros message Hin. exfalso.
    apply elem_of_app in Hin as [Hin | Hin].
    + apply (plain_elem _ _ Hpre) in Hin. discriminate Hin.
    + apply elem_of_cons in Hin as [Hin | Hin]; [discriminate Hin |].
      destruct (write next);
        repeat (apply elem_of_cons in Hin as [Hin | Hin]; [discriminate Hin |]);
        inversion Hin.
Qed.

(** What is written is the initial configuration with the channels that were
    gone through set up: there is at least one such channel, each was on
    offer, each is configured and enabled in what is written, every other
    channel is as it was and so is every top-level key besides [channels]. *)
Theorem runChinaSetup_writes_what_was_configured
    (t : Terminal) (params : SetupParams) (ui : Ui) (cfg : Members) :
  Forall (fun c => ChinaSetup.isChannelId c = true) (availableChannels params) ->
  ConfigWritten cfg ∈ newShown ui (runChinaSetup t params ui) ->
  exists touched,
    touched <> []
    /\ (forall c, c ∈ touched -> c ∈ availableChannels params)
    /\ (forall c, c ∈ touched ->
                  isChannelConfigured cfg c = true
                  /\ member (js "enabled") (getChannelConfig cfg c) = Some (JBool true))
    /\ (forall c, c ∉ touched ->
                  getChannelConfig cfg c = getChannelConfig (initialConfig params) c)
    /\ (forall key, key <> js "channels" ->
                    member key cfg = member key (initialConfig params)).
Proof.
  intros Hvalid.
  destruct (runChinaSetup_shape t params ui) as (used & new & _ & Hshown & Hcases).
  rewrite (newShown_app _ _ _ Hshown).
  destruct Hcases as [[Hplain Ho] | [(pre & message & -> & Hpre & Ho) | Hwrite]].
  - intros Hin. apply (plain_elem _ _ Hplain) in Hin. discriminate Hin.
  - intros Hin. apply elem_of_app in Hin as [Hin | Hin].
    + apply (plain_elem _ _ Hpre) in Hin. discriminate Hin.
    + apply list_elem_of_singleton in Hin. discriminate Hin.
  - destruct Hwrite as (pre & next & touched & write & -> & Hpre & Hw & Ho & Hne & Hb).
    intros Hin. apply elem_of_app in Hin as [Hin | Hin].
    { apply (plain_elem _ _ Hpre) in Hin. discriminate Hin. }
    apply elem_of_cons in Hin as [Hin | Hin].
    + injection Hin as ->. exists touched. split; [exact Hne |]. exact (Hb Hvalid).
    + exfalso. destruct (write next);
        repeat (apply elem_of_cons in Hin as [Hin | Hin]; [discriminate Hin |]);
        inversion Hin.
Qed.

(** Going through the questions of a channel leaves that channel configured
    and enabled, and changes nothing else: every other channel and every
    top-level key besides [channels] reads as before. *)
Theorem configureSingleChannel_configures
    (t : Terminal) (channel : jsstring) (cfg cfg' : Members) (ui : Ui) :
  ChinaSetup.isChannelId channel = true ->
  fst (configureSingleChannel t channel cfg ui) = Done cfg' ->
  isChannelConfigured cfg' channel = true
  /\ member (js "enabled") (getChannelConfig cfg' channel) = Some (JBool true)
  /\ (forall other, other <> channel ->
                    getChannelConfig cfg' other = getChannelConfig cfg other)
  /\ (forall key, key <> js "channels" -> member key cfg' = member key cfg).
Proof.
  intros Hid H.
  destruct (configureSingleChannel t channel cfg ui) as [o ui'] eqn:Hrun.
  cbn [fst] in H. subst o.
  apply configureSingleChannel_result in Hrun as (patch & -> & Hpatch); [| exact Hid].
  split; [apply merged_is_configured; assumption |].
  split.
  { rewrite getChannelConfig_merged, member_defineProp, decide_True by reflexivity.
    reflexivity. }
  split.
  - intros other Hother. apply getChannelConfig_merged_other, Hother.
  - intros key Hkey. apply member_merged_top, Hkey.
Qed.

(** *** The menu of the selection prompt *)

Lemma keeps_ret {A} (ok : UiEvent -> Prop) (a : A) : follows (mret a) (keeps ok).
Proof. intros ui. exists [], []. cbn. rewrite app_nil_r. repeat split. constructor. Qed.

Lemma keeps_stop {A} (ok : UiEvent -> Prop) (o : Outcome A) : follows (stop o) (keeps ok).
Proof. intros ui. exists [], []. cbn. rewrite app_nil_r. repeat split. constructor. Qed.

Lemma keeps_say (ok : UiEvent -> Prop) (ev : UiEvent) :
  ok ev -> follows (say ev) (keeps ok).
Proof.
  intros Hev ui. exists [], [ev]. cbn. repeat split. repeat constructor. exact Hev.
Qed.

Lemma keeps_await (ok : UiEvent -> Prop) (ev : UiEvent) :
  ok ev -> follows (await ev) (keeps ok).
Proof.
  intros Hev ui. unfold await.
  destruct (script ui) as [| [r | e] rest] eqn:Hs; cbn [fst snd script shown].
  - exists [], [ev]. repeat split. repeat constructor. exact Hev.
  - exists [Resolves r], [ev]. repeat split. repeat constructor. exact Hev.
  - exists [Rejects e], [ev]. repeat split. repeat constructor. exact Hev.
Qed.

Lemma keeps_bind {A B} (ok : UiEvent -> Prop) (m : Dialog A) (f : A -> Dialog B) :
  follows m (keeps ok) -> (forall a, follows (f a) (keeps ok)) ->
  follows (m ≫= f) (keeps ok).
Proof.
  intros Hm Hf ui. unfold mbind, Dialog_bind.
  destruct (Hm ui) as (used & new & H1 & H2 & H3).
  destruct (m ui) as [[a | | e |] ui1]; cbn [fst snd] in *;
    try (exists used, new; auto; fail).
  destruct (Hf a ui1) as (used' & new' & H1' & H2' & H3').
  exists (used ++ used'), (new ++ new').
  rewrite H1, H1', H2', H2, !app_assoc. split; [reflexivity |].
  split; [reflexivity |]. apply Forall_app. split; assumption.
Qed.

Lemma keeps_iterate {St A} (ok : UiEvent -> Prop) (body : St -> Dialog (St + A)) :
  (forall s, follows (body s) (keeps ok)) ->
  forall n s, follows (iterate n body s) (keeps ok).
Proof.
  intros Hbody n. induction n as [| n IH]; intros s; [apply keeps_stop |].
  intros ui. cbn [iterate].
  destruct (Hbody s ui) as (used & new & H1 & H2 & H3).
  destruct (body s ui) as [[[s' | a] | | e |] ui1]; cbn [fst snd] in *;
    try (exists used, new; auto; fail).
  destruct (IH s' ui1) as (used' & new' & H1' & H2' & H3').
  exists (used ++ used'), (new ++ new').
  rewrite H1, H1', H2', H2, !app_assoc. split; [reflexivity |].
  split; [reflexivity |]. apply Forall_app. split; assumption.
Qed.

Lemma keeps_loop {St A} (ok : UiEvent -> Prop) (body : St -> Dialog (St + A)) (s : St) :
  (forall s, follows (body s) (keeps ok)) -> follows (loop body s) (keeps ok).
Proof.
  intros Hbody ui. unfold loop. apply (keeps_iterate ok body Hbody).
Qed.

Lemma keeps_catchCancelled (ok : UiEvent -> Prop) (body : Dialog unit) :
  follows body (keeps ok) -> follows (catchCancelled body) (keeps ok).
Proof.
  intros Hbody ui. unfold catchCancelled.
  destruct (Hbody ui) as (used & new & H1 & H2 & H3).
  destruct (body ui) as [[[] | | e |] ui1]; cbn [fst snd] in *;
    exists used, new; auto.
Qed.

(** Every step of a dialog besides a selection prompt. *)
Ltac keeps_menu :=
  repeat first
    [ apply keeps_loop; intros ?
    | apply keeps_catchCancelled
    | apply keeps_ret
    | apply keeps_stop
    | apply keeps_say; exact I
    | apply keeps_await; exact I
    | apply keeps_bind; [| intros ?]
    | progress cbv zeta
    | match goal with |- follows (if ?b then _ else _) _ => destruct b end
    | match goal with |- follows (match ?b with _ => _ end) _ => destruct b end ].

Lemma keeps_configureSingleChannel (menu : list jsstring) (t : Terminal)
    (channel : jsstring) (cfg : Members) :
  follows (configureSingleChannel t channel cfg) (keeps (offers menu)).
Proof.
  unfold configureSingleChannel.
  repeat case_decide;
    unfold configureDingtalk, configureFeishu, configureWecom, configureWecomApp,
           configureQQBot, askSecret, askText, askConfirm, askNumber, section, warn,
           showGuideLink, clackText, clackConfirm, guardCancel;
    keeps_menu.
Qed.

Lemma keeps_askSelect (message : jsstring) (options : list SelectOption)
    (defaultValue : jsstring) :
  follows (askSelect message options defaultValue)
          (keeps (offers (map opt_value options))).
Proof.
  unfold askSelect, clackSelect, guardCancel. cbv zeta.
  apply keeps_bind; [| intros ?; keeps_menu].
  apply keeps_bind; [| intros ?; keeps_menu].
  apply keeps_await. cbn [offers]. rewrite map_map. reflexivity.
Qed.

Lemma keeps_runChinaSetup (t : Terminal) (params : SetupParams) :
  follows (runChinaSetup t params)
          (keeps (offers (availableChannels params ++ [js "save"; js "cancel"]))).
Proof.
  unfold runChinaSetup, logError, cloneConfig.
  destruct (negb (stdin_isTTY t) || negb (stdout_isTTY t)); [keeps_menu |].
  apply keeps_catchCancelled.
  apply keeps_bind; [apply keeps_say; exact I | intros _].
  apply keeps_bind; [apply keeps_say; exact I | intros _].
  case_bool_decide; [keeps_menu |]. cbv zeta.
  apply keeps_bind.
  2: { intros [[next touched] |]; unfold callWriteConfig, showReadyMessage; keeps_menu. }
  apply keeps_loop. intros [next touched]. unfold selectRound.
  apply keeps_bind.
  { pose proof (keeps_askSelect (js "请选择要配置的渠道")
                  (menu (channelOptions (initialConfig params)
                                        (availableChannels params)))) as Hsel.
    unfold menu at 2 in Hsel. rewrite map_app, channelOptions_values in Hsel.
    apply Hsel. }
  intros selected. repeat case_decide; [keeps_menu | keeps_menu |].
  apply keeps_bind; [apply keeps_configureSingleChannel | intros ?].
  unfold askConfirm, clackConfirm, guardCancel. keeps_menu.
Qed.

End SetupFacts.

(** ** The channels package and the shared state *)

Section CompositionFacts.
Import ChinaSetup ChinaSetupState ChinaConfig Setup ChannelsPlugin.

(** The menu of [china setup] is the channels of the whole process.  Every
    selection prompt of the wizard, started from a registered CLI whenever
    that registration was made, offers the channels that any call of
    [registerChinaSetupCli] in the process has asked for, in the order of
    [CHANNEL_ORDER], and then the two ways out. *)
Theorem setupAction_offers_installed_channels
    (t : Terminal) (calls : list (ApiLike * option (list ChannelId)))
    (r : CliRegistration) (ctx_config : option JsValue)
    (write : option (Members -> option JsError)) (logger_has_error : bool)
    (ui : Ui) (message : jsstring) (options : list (jsstring * jsstring))
    (initialValue : option jsstring) :
  r ∈ cliRegistrations (registerAll calls freshProcess) ->
  AskedSelect message options initialValue
    ∈ newShown ui (setupAction t (registerAll calls freshProcess) r ctx_config
                               write logger_has_error ui) ->
  map fst options
  = List.filter (fun c => bool_decide (c ∈ requested calls)) CHANNEL_ORDER
    ++ [js "save"; js "cancel"].
Proof.
  intros Hr. unfold setupAction.
  match goal with
  | |- context [runChinaSetup t ?params ui] =>
    destruct (keeps_runChinaSetup t params ui) as (used & new & _ & Hshown & Hkeeps)
  end.
  rewrite (newShown_app _ _ _ Hshown). intros Hin.
  unfold keeps in Hkeeps. rewrite Forall_forall in Hkeeps.
  specialize (Hkeeps _ Hin). cbn [offers availableChannels] in Hkeeps.
  rewrite Hkeeps, (getInstalledChannels_requested calls r Hr). reflexivity.
Qed.

Lemma register_cli (entry : jsstring -> option JsError) (api : MoltbotPluginApi)
    (st : PluginState) :
  cli (snd (register entry api st))
  = registerChinaSetupCli (cliApi api) None (cli st).
Proof.
  unfold register.
  destruct (registerChannelsByConfig_frame entry api None
              (showPromoHint api
                 {| hasShownPromoHint := hasShownPromoHint st;
                    events := events st;
                    cli := registerChinaSetupCli (cliApi api) None (cli st) |}))
    as [_ ->].
  destruct (showPromoHint_events api
              {| hasShownPromoHint := hasShownPromoHint st;
                 events := events st;
                 cli := registerChinaSetupCli (cliApi api) None (cli st) |})
    as [-> _].
  reflexivity.
Qed.

Lemma registerMany_cli (entry : jsstring -> option JsError)
    (apis : list MoltbotPluginApi) (st : PluginState) :
  cli (registerMany entry apis st)
  = registerAll (map (fun api => (cliApi api, None)) apis) (cli st).
Proof.
  revert st. induction apis as [| api apis IH]; intros st; [reflexivity |].
  unfold registerMany, registerAll in *. cbn [fold_left map fst snd].
  rewrite IH, register_cli. reflexivity.
Qed.

Lemma requested_all (apis : list MoltbotPluginApi) :
  apis <> [] ->
  requested (map (fun api => (cliApi api, None)) apis)
  = list_to_set CHANNEL_ORDER.
Proof.
  assert (Hall : normalizeChannels None = CHANNEL_ORDER) by (vm_compute; reflexivity).
  unfold requested. intros Hne. rewrite map_map. cbn [snd]. rewrite Hall.
  destruct apis as [| api apis]; [congruence |]. clear Hne.
  induction apis as [| api' apis IH]; cbn [map union_list] in *; set_solver.
Qed.

(** The unified package makes every channel of [CHANNEL_ORDER] available to
    the setup wizard as soon as it is registered once, whatever the
    configuration enables and whether or not an entry throws. *)
Theorem registerMany_installs_every_channel
    (entry : jsstring -> option JsError) (apis : list MoltbotPluginApi) :
  apis <> [] ->
  sharedChannels (cli (registerMany entry apis initial))
  = list_to_set CHANNEL_ORDER.
Proof.
  intros Hne. rewrite registerMany_cli. cbn [initial cli].
  rewrite sharedChannels_requested. apply requested_all, Hne.
Qed.

End CompositionFacts.

(** ** The properties above at concrete inputs *)

Section Instances.
Import SendProtocol.


Lemma sendFileQQBot_remote_source_is_not_fetched_witness :
  let h := Scenario.host Scenario.tooLarge Scenario.ffmpegFails Scenario.removalFails in
  let params := Scenario.sendTo (js "https://example.com/a.mp3") in
  isHttpUrl h (stripTitleFromUrl h (mediaUrl params)) = true
  /\ forallb isPlatformCall
       (newEvents Scenario.emptyWorld (snd (sendFileQQBot h params Scenario.emptyWorld)))
     = true
  /\ fs (snd (sendFileQQBot h params Scenario.emptyWorld)) = fs Scenario.emptyWorld.
Proof.
  intros h params.
  assert (H : isHttpUrl h (stripTitleFromUrl h (mediaUrl params)) = true)
    by reflexivity.
  split; [exact H |].
  exact (sendFileQQBot_remote_source_is_not_fetched h params Scenario.emptyWorld H).
Defined.

Lemma sendFileQQBot_leaves_disk_unchanged_witness :
  let h := Scenario.host Scenario.readable Scenario.ffmpegWorks RmDone in
  let params := Scenario.sendTo (js "/home/bot/a.mp3") in
  fs (snd (sendFileQQBot h params Scenario.emptyWorld)) = fs Scenario.emptyWorld.
Proof.
  intros h params.
  apply (sendFileQQBot_leaves_disk_unchanged h params Scenario.emptyWorld).
  - intros d _ p Hp. exfalso. revert Hp. cbn. apply not_elem_of_empty.
  - intros disk d. reflexivity.
Defined.

Lemma convertAudioToSilk_result_witness :
  let h := Scenario.host Scenario.readable Scenario.ffmpegWorks RmDone in
  fst (convertAudioToSilk h (js "/home/bot/a.mp3") Scenario.emptyWorld)
  = Ok [1%N; 2%N; 3%N]
  /\ exists ffmpeg d disk pcm,
       require_ffmpeg_static h = Ok (Some ffmpeg)
       /\ ffmpeg <> []
       /\ mkdtempSync h (fs Scenario.emptyWorld) (tmpPrefix h) = Ok d
       /\ exec_result (execFileSync h ffmpeg
                         (ffmpegArgs (js "/home/bot/a.mp3")
                                     (path_join d (js "audio.pcm"))))
          = Ok tt
       /\ readFileSync h disk (path_join d (js "audio.pcm")) = Ok pcm
       /\ silk_encode h pcm 24000 = Ok [1%N; 2%N; 3%N].
Proof.
  intros h.
  assert (H : fst (convertAudioToSilk h (js "/home/bot/a.mp3") Scenario.emptyWorld)
              = Ok [1%N; 2%N; 3%N]) by reflexivity.
  split; [exact H |].
  exact (convertAudioToSilk_result h (js "/home/bot/a.mp3") Scenario.emptyWorld _ H).
Defined.

Lemma convertAudioToSilk_ffmpeg_failure_witness :
  let h := Scenario.host Scenario.readable Scenario.ffmpegFails RmDone in
  let d := tmpPrefix h ++ js "Ab3xYz" in
  fst (convertAudioToSilk h (js "/home/bot/a.mp3") Scenario.emptyWorld)
  = Throw (Error_ (js "Command failed: ffmpeg"))
  /\ newEvents Scenario.emptyWorld
       (snd (convertAudioToSilk h (js "/home/bot/a.mp3") Scenario.emptyWorld))
     = [CallMkdtemp (tmpPrefix h);
        CallExecFile (js "/opt/ffmpeg")
                     (ffmpegArgs (js "/home/bot/a.mp3") (path_join d (js "audio.pcm")));
        CallRmSync d].
Proof.
  intros h d.
  apply (convertAudioToSilk_ffmpeg_failure h (js "/home/bot/a.mp3")
           Scenario.emptyWorld (js "/opt/ffmpeg") d
           (Error_ (js "Command failed: ffmpeg")));
    first [reflexivity | discriminate].
Defined.

Lemma sendFileQQBot_rejects_empty_file_witness :
  let h := Scenario2.emptyFileHost in
  let params := Scenario.sendTo (js "/home/bot/empty.png") in
  fst (sendFileQQBot h params Scenario.emptyWorld)
  = Throw (Error_ (js "QQBot media upload failed: "
                   ++ js "QQBot file upload requires url or fileData"))
  /\ existsb isUpload
       (newEvents Scenario.emptyWorld (snd (sendFileQQBot h params Scenario.emptyWorld)))
     = false.
Proof.
  intros h params.
  apply (sendFileQQBot_rejects_empty_file h params Scenario.emptyWorld
           (js "token-1") {| buffer := []; fileName := js "empty.png" |});
    first [reflexivity | left; reflexivity].
Defined.

Section StateInstances.
Import ChinaSetup ChinaSetupState.

Lemma getInstalledChannels_sees_all_calls_witness :
  let r := {| reg_api := 1%nat; reg_state := 2%nat |} in
  r ∈ cliRegistrations (registerAll Scenario2.threeCalls freshProcess)
  /\ getInstalledChannels (reg_state r) (registerAll Scenario2.threeCalls freshProcess)
     = [js "dingtalk"; js "qqbot"; js "wecom"].
Proof.
  intros r.
  assert (H : r ∈ cliRegistrations (registerAll Scenario2.threeCalls freshProcess)).
  { vm_compute. repeat constructor. }
  split; [exact H |].
  rewrite (getInstalledChannels_sees_all_calls Scenario2.threeCalls r H).
  vm_compute. reflexivity.
Defined.

Lemma registerAll_once_when_first_call_registers_witness :
  length (cliRegistrations
            (registerAll ((Scenario.apiWithCli 1, Some [js "qqbot"])
                          :: Scenario2.threeCalls) freshProcess))
  = 1%nat.
Proof.
  apply (registerAll_once_when_first_call_registers
           (Scenario.apiWithCli 1) (Some [js "qqbot"]) Scenario2.threeCalls).
  reflexivity.
Defined.
End StateInstances.

Section ConfigInstances.
Import ChinaConfig.

Lemma mergeChannelConfig_read_back_witness :
  member (js "clientId")
         (getChannelConfig
            (mergeChannelConfig Scenario2.someConfig (js "dingtalk")
                                Scenario2.dingtalkPatch)
            (js "dingtalk"))
  = Some (JString (js "ding-key")).
Proof.
  rewrite (mergeChannelConfig_read_back Scenario2.someConfig (js "dingtalk")
             Scenario2.dingtalkPatch (js "clientId"));
    reflexivity.
Defined.

Lemma mergeChannelConfig_frame_witness :
  (js "qqbot" <> js "dingtalk" ->
   getChannelConfig
     (mergeChannelConfig Scenario2.someConfig (js "dingtalk") Scenario2.dingtalkPatch)
     (js "qqbot")
   = getChannelConfig Scenario2.someConfig (js "qqbot"))
  /\ (js "gateway" <> js "channels" ->
      member (js "gateway")
             (mergeChannelConfig Scenario2.someConfig (js "dingtalk")
                                 Scenario2.dingtalkPatch)
      = member (js "gateway") Scenario2.someConfig).
Proof.
  apply (mergeChannelConfig_frame Scenario2.someConfig (js "dingtalk") (js "qqbot")
           Scenario2.dingtalkPatch (js "gateway")).
  reflexivity.
Defined.

Lemma mergeChannelConfig_makes_configured_witness :
  isChannelConfigured
    (mergeChannelConfig Scenario2.someConfig (js "dingtalk") Scenario2.dingtalkPatch)
    (js "dingtalk")
  = true.
Proof.
  apply (mergeChannelConfig_makes_configured Scenario2.someConfig (js "dingtalk")
           Scenario2.dingtalkPatch).
  - reflexivity.
  - repeat constructor.
Defined.
End ConfigInstances.

End Instances.

Section Instances2.
Import ChinaSetup ChinaSetupState ChinaConfig Setup.

Lemma askText_contract_witness :
  askText (js "QQBot appId") true None (Scenario3.facing Scenario3.secondTry)
  = (Done (js "app-1"),
     {| script := [];
        shown := [AskedText (js "QQBot appId") None;
                  Written (nl ++ js "[warn] " ++ js "该字段为必填项。" ++ nl);
                  AskedText (js "QQBot appId") None] |}).
Proof.
  exact (askText_contract (js "QQBot appId") true None
           [Some (JString (js "   "))] (Some (JString (js " app-1 "))) [] []
           ltac:(repeat constructor)
           (fun _ => conj eq_refl eq_refl)
           ltac:(intros H; vm_compute in H; discriminate H)).
Defined.

Lemma askNumber_contract_witness :
  askNumber Scenario3.terminal (js "agentId") (Some 1) None
            (Scenario3.facing Scenario3.agentIdAnswers)
  = (Done (js "1000002"),
     {| script := [];
        shown := [AskedText (js "agentId") None;
                  Written (nl ++ js "[warn] "
                           ++ (js "请输入有效整数"
                               ++ (js "（>= " ++ ofZ 1 ++ js "）") ++ js "。")
                           ++ nl);
                  AskedText (js "agentId") None] |}).
Proof.
  exact (askNumber_contract Scenario3.terminal (js "agentId") (Some 1) None
           [Some (JString (js "seven"))] (Some (JString (js " 1000002 "))) [] []
           ltac:(repeat constructor)
           eq_refl).
Defined.

Lemma configureSingleChannel_configures_witness :
  let cfg' := mergeChannelConfig Scenario2.someConfig (js "dingtalk")
                                 Scenario3.dingtalkTyped in
  isChannelConfigured cfg' (js "dingtalk") = true
  /\ member (js "enabled") (getChannelConfig cfg' (js "dingtalk")) = Some (JBool true)
  /\ (forall other, other <> js "dingtalk" ->
                    getChannelConfig cfg' other
                    = getChannelConfig Scenario2.someConfig other)
  /\ (forall key, key <> js "channels" ->
                  member key cfg' = member key Scenario2.someConfig).
Proof.
  intros cfg'.
  apply (configureSingleChannel_configures Scenario3.terminal (js "dingtalk")
           Scenario2.someConfig cfg' (Scenario3.facing Scenario3.dingtalkAnswers)).
  - reflexivity.
  - vm_compute. reflexivity.
Defined.

Lemma runChinaSetup_writes_what_was_configured_witness :
  let cfg := mergeChannelConfig Scenario2.someConfig (js "dingtalk")
                                Scenario3.dingtalkTyped in
  exists touched,
    touched <> []
    /\ (forall c, c ∈ touched -> c ∈ availableChannels Scenario3.params)
    /\ (forall c, c ∈ touched ->
                  isChannelConfigured cfg c = true
                  /\ member (js "enabled") (getChannelConfig cfg c) = Some (JBool true))
    /\ (forall c, c ∉ touched ->
                  getChannelConfig cfg c
                  = getChannelConfig (initialConfig Scenario3.params) c)
    /\ (forall key, key <> js "channels" ->
                    member key cfg = member key (initialConfig Scenario3.params)).
Proof.
  intros cfg.
  apply (runChinaSetup_writes_what_was_configured Scenario3.terminal Scenario3.params
           (Scenario3.facing Scenario3.session) cfg).
  - repeat constructor.
  - vm_compute. repeat constructor.
Defined.

Lemma setupAction_offers_installed_channels_witness :
  let options :=
    [(js "dingtalk", withConfiguredSuffix [] (js "dingtalk"));
     (js "qqbot", withConfiguredSuffix [] (js "qqbot"));
     (js "wecom", withConfiguredSuffix [] (js "wecom"));
     (js "save", js "保存并退出");
     (js "cancel", js "不保存并退出")] in
  map fst options
  = List.filter (fun c => bool_decide (c ∈ requested Scenario2.threeCalls)) CHANNEL_ORDER
    ++ [js "save"; js "cancel"].
Proof.
  intros options.
  apply (setupAction_offers_installed_channels Scenario3.terminal Scenario2.threeCalls
           {| reg_api := 1%nat; reg_state := 2%nat |} None None true
           (Scenario3.facing []) (js "请选择要配置的渠道") options (Some (js "dingtalk"))).
  - vm_compute. repeat constructor.
  - vm_compute. repeat constructor.
Defined.

Lemma registerMany_installs_every_channel_witness :
  sharedChannels
    (ChannelsPlugin.cli
       (ChannelsPlugin.registerMany (fun _ => None) [Scenario3.pluginApi]
                                    ChannelsPlugin.initial))
  = list_to_set CHANNEL_ORDER.
Proof.
  apply (registerMany_installs_every_channel (fun _ => None) [Scenario3.pluginApi]).
  discriminate.
Defined.

End Instances2.
